(** * Speed-test client and server: wire codec, responders and workers

    A shallow embedding of [server.py] and [client.py].

    - Byte buffers ([bytes]) are [list byte].
    - Python integers are [Z]; text ([str]) is a list of Unicode code points.
    - Calls that may raise return [option] or a sum of outcomes.
    - Sockets are explicit state: what was written, plus a script that tells
      what the environment answers to each successive call.
    - Wall-clock readings and the quotients computed from them: module
      [Client] takes them as exact rationals ([Qc]), without the rounding
      of Python floats; module [Client64] takes them in binary64, bit for
      bit as the interpreter computes them. *)

From Stdlib Require Import ZArith Lia QArith Qcanon SpecFloat.
From Stdlib.Strings Require Import Byte.
From stdpp Require Import base list gmap numbers strings.
From Equations Require Import Equations.

Local Open Scope Z_scope.

(** ** Python built-ins used by both programs *)

Module Py.

Definition bytes := list byte.

(** [len(x)] as a Python integer. *)
Definition len {A} (l : list A) : Z := Z.of_nat (length l).

(** [x[:k]]: a negative bound counts from the end. *)
Definition slice_to {A} (l : list A) (k : Z) : list A :=
  if 0 <=? k then take (Z.to_nat k) l else take (Z.to_nat (len l + k)) l.

(** [x[k:]] for a bound [k >= 0]. *)
Definition slice_from {A} (l : list A) (k : nat) : list A := drop k l.

(** [b"c" * n]: a non-positive count gives the empty buffer. *)
Definition repeat_byte (c : byte) (n : Z) : bytes := replicate (Z.to_nat n) c.

(** [range(n)]. *)
Definition range (n : Z) : list Z := Z.of_nat <$> seq 0 (Z.to_nat n).

(** [x in data] for a single byte [x]. *)
Definition contains (x : byte) (data : bytes) : bool :=
  existsb (Byte.eqb x) data.

(** [a / b] on numbers: [None] stands for [ZeroDivisionError]. *)
Definition truediv (a b : Qc) : option Qc :=
  if decide (b = 0%Qc) then None else Some (a / b)%Qc.

End Py.

(** ** Python's [float]: IEEE 754 binary64 *)

(** The values and the operations are those of the Standard Library's
    specification of IEEE 754 arithmetic, at precision 53 and maximal
    exponent 1024, rounding to nearest with ties to even. *)
Module Float.

Definition prec : Z := 53.
Definition emax : Z := 1024.

(** A zero, an infinity, not-a-number, or [(-1)^s * m * 2^e]. *)
Definition float : Type := spec_float.

Definition zero : float := S754_zero false.

(** The float nearest to the integer [n]. *)
Definition nearest (n : Z) : float := binary_normalize prec emax n 0 false.

(** The literal [100.0]. *)
Definition hundred : float := nearest 100.

(** An [int] operand that meets a [float] is converted first; [None]
    stands for [OverflowError], raised when [n] rounds to [2^1024] or
    beyond. *)
Definition of_int (n : Z) : option float :=
  if Z.abs n <? 2 ^ 1024 - 2 ^ 970 then Some (nearest n) else None.

Definition sub : float → float → float := SFsub prec emax.
Definition mul : float → float → float := SFmul prec emax.
Definition div : float → float → float := SFdiv prec emax.

Definition is_zero (x : float) : bool :=
  match x with S754_zero _ => true | _ => false end.

(** [a / b] on floats: [None] stands for [ZeroDivisionError]. *)
Definition truediv (a b : float) : option float :=
  if is_zero b then None else Some (div a b).

(** [x > 0]: false of not-a-number. *)
Definition positive (x : float) : bool := SFltb zero x.

End Float.

(** ** The [struct] module, network byte order *)

Module Struct.

Definition byte_val (b : byte) : Z := Z.of_N (Byte.to_N b).

Definition byte_of (z : Z) : byte :=
  default "000"%byte (Byte.of_N (Z.to_N (z mod 256))).

(** The format characters used by the protocol. *)
Inductive code := cI | cB | cH | cQ.

Definition field_size (c : code) : nat :=
  match c with cI => 4 | cB => 1 | cH => 2 | cQ => 8 end%nat.

Definition calcsize (f : list code) : nat := sum_list (field_size <$> f).

(** [n] bytes, most significant first. *)
Fixpoint be_bytes (n : nat) (v : Z) : Py.bytes :=
  match n with
  | O => []
  | S k => be_bytes k (v / 256) ++ [byte_of v]
  end.

Definition be_value (l : Py.bytes) : Z :=
  fold_left (λ acc b, acc * 256 + byte_val b) l 0.

Definition in_range (c : code) (v : Z) : bool :=
  (0 <=? v) && (v <? 256 ^ Z.of_nat (field_size c)).

(** [struct.pack("!...", v1, ..., vn)]; [None] stands for [struct.error]
    (a value out of range for its field, or a wrong number of values). *)
Fixpoint pack (f : list code) (vs : list Z) : option Py.bytes :=
  match f, vs with
  | [], [] => Some []
  | c :: f', v :: vs' =>
      if in_range c v then
        rest ← pack f' vs'; Some (be_bytes (field_size c) v ++ rest)
      else None
  | _, _ => None
  end.

Fixpoint unpack_fields (f : list code) (data : Py.bytes) : list Z :=
  match f with
  | [] => []
  | c :: f' => be_value (take (field_size c) data) :: unpack_fields f' (drop (field_size c) data)
  end.

(** [struct.unpack_from("!...", data, offset)] for [offset >= 0]; [None]
    stands for [struct.error] (the buffer is too short). *)
Definition unpack_from (f : list code) (data : Py.bytes) (offset : nat)
  : option (list Z) :=
  if decide (offset + calcsize f ≤ length data)%nat
  then Some (unpack_fields f (drop offset data))
  else None.

End Struct.

(** ** Protocol constants (identical in both files) *)

Definition MAGIC_COOKIE : Z := 0xabcddcba.
Definition MSG_TYPE_OFFER : Z := 0x2.
Definition MSG_TYPE_REQUEST : Z := 0x3.
Definition MSG_TYPE_PAYLOAD : Z := 0x4.

Definition address : Type := string * Z.

(** The byte [b"\n"]. *)
Abbreviation newline := ("010"%byte) (only parsing).

(** ** Sockets as explicit state *)

Module Net.

(** The sending side of a datagram socket: the datagrams accepted by the
    network so far and the number of [sendto] calls made.  [refuses k]
    tells whether call number [k] raises. *)
Record udp_out := UdpOut {
  refuses : nat → bool;
  calls : nat;
  outbox : list (Py.bytes * address)
}.

(** [sock.sendto(packet, addr)]; [false] stands for an exception. *)
Definition sendto (s : udp_out) (packet : Py.bytes) (addr : address)
  : udp_out * bool :=
  if refuses s (calls s)
  then (UdpOut (refuses s) (S (calls s)) (outbox s), false)
  else (UdpOut (refuses s) (S (calls s)) (outbox s ++ [(packet, addr)]), true).

(** What one [recvfrom] call meets: a datagram, [socket.timeout], or
    another exception. *)
Inductive udp_event :=
| Datagram (data : Py.bytes) (addr : address)
| Timeout
| SockError.

(** [recvfrom(bufsize)] hands over at most [bufsize] bytes of a datagram. *)
Definition recvfrom_data (bufsize : Z) (data : Py.bytes) : Py.bytes :=
  take (Z.to_nat bufsize) data.

(** What one [recv] call on a stream returns: some bytes ([b""] when the
    peer has closed), or an exception (timeout, reset). *)
Inductive recv_result :=
| RecvBytes (data : Py.bytes)
| RecvRaise.

(** A stream connection: the answers to the coming [recv] calls (after the
    last one the peer has closed; the system never answers with more bytes
    than the call asked for), the buffers accepted by [sendall], the
    number of [sendall] calls, which of them raise, and whether it was
    closed on this side. *)
Record tcp_conn := TcpConn {
  incoming : list recv_result;
  send_raises : nat → bool;
  send_calls : nat;
  written : list Py.bytes;
  closed : bool
}.

(** [conn.sendall(buf)]; [false] stands for an exception. *)
Definition sendall (c : tcp_conn) (buf : Py.bytes) : tcp_conn * bool :=
  if send_raises c (send_calls c)
  then (TcpConn (incoming c) (send_raises c) (S (send_calls c)) (written c) (closed c),
        false)
  else (TcpConn (incoming c) (send_raises c) (S (send_calls c)) (written c ++ [buf])
          (closed c), true).

Definition close (c : tcp_conn) : tcp_conn :=
  TcpConn (incoming c) (send_raises c) (send_calls c) (written c) true.

(** All the bytes written to the stream, in order. *)
Definition stream_out (c : tcp_conn) : Py.bytes := concat (written c).

End Net.

(** ** Text: [bytes.decode], [str.encode], [str.strip], [int] and [str] *)

Module Text.
Import Struct.

(** A [str] is its sequence of code points. *)
Definition str := list Z.

(** The part of the interpreter's Unicode database the programs depend on,
    for code points from 128 on: which are white space and which are
    decimal digits (with their value).  It changes with the Unicode
    version of the interpreter, so it is a parameter. *)
Record unicode_db := UnicodeDb {
  ucd_space : Z → bool;
  ucd_decimal : Z → option Z
}.

(** A database with nothing beyond ASCII. *)
Definition ascii_db : unicode_db := UnicodeDb (λ _, false) (λ _, None).

Definition continuation (b : Z) : bool := (0x80 <=? b) && (b <=? 0xBF).

Definition between (lo hi b : Z) : bool := (lo <=? b) && (b <=? hi).

(** [data.decode()]: strict UTF-8; [None] stands for [UnicodeDecodeError]. *)
Fixpoint utf8_decode (data : list Z) : option str :=
  match data with
  | [] => Some []
  | b0 :: r0 =>
      if b0 <? 0x80 then cons b0 <$> utf8_decode r0
      else if between 0xC2 0xDF b0 then
        match r0 with
        | b1 :: r1 =>
            if continuation b1
            then cons ((b0 - 0xC0) * 64 + (b1 - 0x80)) <$> utf8_decode r1
            else None
        | _ => None
        end
      else if between 0xE0 0xEF b0 then
        match r0 with
        | b1 :: b2 :: r2 =>
            if between (if b0 =? 0xE0 then 0xA0 else 0x80)
                       (if b0 =? 0xED then 0x9F else 0xBF) b1
               && continuation b2
            then cons ((b0 - 0xE0) * 4096 + (b1 - 0x80) * 64 + (b2 - 0x80))
                   <$> utf8_decode r2
            else None
        | _ => None
        end
      else if between 0xF0 0xF4 b0 then
        match r0 with
        | b1 :: b2 :: b3 :: r3 =>
            if between (if b0 =? 0xF0 then 0x90 else 0x80)
                       (if b0 =? 0xF4 then 0x8F else 0xBF) b1
               && continuation b2 && continuation b3
            then cons ((b0 - 0xF0) * 262144 + (b1 - 0x80) * 4096
                       + (b2 - 0x80) * 64 + (b3 - 0x80))
                   <$> utf8_decode r3
            else None
        | _ => None
        end
      else None
  end.

Definition decode (data : Py.bytes) : option str :=
  utf8_decode (byte_val <$> data).

(** [s.encode()]: UTF-8; [None] stands for [UnicodeEncodeError]
    (a surrogate code point). *)
Definition encode_char (c : Z) : option (list Z) :=
  if c <? 0x80 then Some [c]
  else if c <? 0x800 then Some [0xC0 + c / 64; 0x80 + c mod 64]
  else if between 0xD800 0xDFFF c then None
  else if c <? 0x10000 then
    Some [0xE0 + c / 4096; 0x80 + (c / 64) mod 64; 0x80 + c mod 64]
  else
    Some [0xF0 + c / 262144; 0x80 + (c / 4096) mod 64;
          0x80 + (c / 64) mod 64; 0x80 + c mod 64].

Fixpoint encode (s : str) : option Py.bytes :=
  match s with
  | [] => Some []
  | c :: r =>
      bs ← encode_char c; rest ← encode r; Some ((byte_of <$> bs) ++ rest)
  end.

(** *** [str.strip()] *)

(** White space for [strip]: the interpreter's table below 128, the
    Unicode database from there on. *)
Definition isspace (db : unicode_db) (c : Z) : bool :=
  if c <? 128 then between 9 13 c || between 28 31 c || (c =? 32)
  else ucd_space db c.

Fixpoint drop_while {A} (p : A → bool) (l : list A) : list A :=
  match l with
  | [] => []
  | x :: r => if p x then drop_while p r else l
  end.

Definition strip (db : unicode_db) (s : str) : str :=
  reverse (drop_while (isspace db) (reverse (drop_while (isspace db) s))).

(** *** [int(s)] *)

(** White space for the number parser proper: ASCII only. *)
Definition c_isspace (c : Z) : bool := between 9 13 c || (c =? 32).

Definition is_digit (c : Z) : bool := between 48 57 c.

(** The decimal value of a character beyond ASCII, if it is a digit. *)
Definition decimal (db : unicode_db) (c : Z) : option Z :=
  if c <? 128 then None
  else
    match ucd_decimal db c with
    | Some d => if between 0 9 d then Some d else None
    | None => None
    end.

(** The text is first brought to ASCII: a character below 127 is kept, a
    white-space character becomes a blank, a decimal digit its ASCII
    digit; [None] for any other character. *)
Definition ascii_image (db : unicode_db) (c : Z) : option Z :=
  if c <? 127 then Some c
  else if isspace db c then Some 32
  else (λ d, 48 + d) <$> decimal db c.

(** At a character without image the text is cut after a question mark. *)
Fixpoint to_ascii (db : unicode_db) (s : str) : str :=
  match s with
  | [] => []
  | c :: r =>
      match ascii_image db c with
      | Some a => a :: to_ascii db r
      | None => [63]
      end
  end.

Definition all_ascii (s : str) : bool := forallb (λ c, c <? 128) s.

(** Digits with single underscores between them; the result is the value
    and the text left.  [None]: two underscores in a row, or an
    underscore at the end of the digits. *)
Fixpoint scan_digits (prev_underscore : bool) (acc : Z) (s : str)
  : option (Z * str) :=
  match s with
  | c :: r =>
      if is_digit c then scan_digits false (acc * 10 + (c - 48)) r
      else if c =? 95 then
        if prev_underscore then None else scan_digits true acc r
      else if prev_underscore then None else Some (acc, s)
  | [] => if prev_underscore then None else Some (acc, [])
  end.

(** An optional sign. *)
Definition split_sign (a : str) : Z * str :=
  match a with
  | c :: r => if c =? 43 then (1, r) else if c =? 45 then (-1, r) else (1, a)
  | [] => (1, a)
  end.

(** Digits, of which the first character must be one, then blanks and
    nothing else. *)
Definition parse_unsigned (a : str) : option Z :=
  match a with
  | c :: _ =>
      if is_digit c then
        match scan_digits false 0 a with
        | Some (v, rest) =>
            match drop_while c_isspace rest with
            | [] => Some v
            | _ => None
            end
        | None => None
        end
      else None
  | [] => None
  end.

(** The number parser on ASCII text: blanks, an optional sign, the
    digits, blanks. *)
Definition long_from_string (a : str) : option Z :=
  let '(sign, digits) := split_sign (drop_while c_isspace a) in
  (λ v, sign * v) <$> parse_unsigned digits.

(** [int(s)] (base ten); [None] stands for [ValueError].  The limit some
    interpreter versions put on the number of digits is not modelled. *)
Definition int (db : unicode_db) (s : str) : option Z :=
  long_from_string (if all_ascii s then s else to_ascii db s).

(** *** [str(n)] *)

Fixpoint digits (fuel : nat) (n : Z) : str :=
  match fuel with
  | O => []
  | S k => if n <? 10 then [48 + n] else digits k (n / 10) ++ [48 + n mod 10]
  end.

(** The decimal digits of [n >= 0]; [Z.log2 n + 1] rounds are enough. *)
Definition str_nonneg (n : Z) : str := digits (S (Z.to_nat (Z.log2 n))) n.

Definition str_of_int (n : Z) : str :=
  if n <? 0 then 45 :: str_nonneg (- n) else str_nonneg n.

End Text.

(** ** server.py *)

Module Server.
Import Struct Net.

Definition BROADCAST_LISTEN_PORT : Z := 13117.
Definition CHUNK_SIZE : Z := 1024.

(** How a handler ends: it returns, or an exception leaves it. *)
Inductive ending := Returned | Raised.

(** The body of [for seg_idx in range(total_segments)], with the segment
    size as a parameter. *)
Fixpoint send_segments (segment_size : Z) (client_address : address)
    (file_size total_segments : Z) (dummy_data : Py.bytes)
    (indices : list Z) (sock : udp_out) : udp_out * ending :=
  match indices with
  | [] => (sock, Returned)
  | seg_idx :: later =>
      let current_offset := seg_idx * segment_size in
      let remaining := file_size - current_offset in
      let payload_size := Z.min segment_size remaining in
      match pack [cI; cB; cQ; cQ]
              [MAGIC_COOKIE; MSG_TYPE_PAYLOAD; total_segments; seg_idx] with
      | None => (sock, Raised)
      | Some header =>
          let packet := header ++ Py.slice_to dummy_data payload_size in
          match sendto sock packet client_address with
          | (sock', true) =>
              send_segments segment_size client_address file_size
                total_segments dummy_data later sock'
          | (sock', false) => (sock', Returned)
          end
      end
  end.

(** [handle_udp_request] for a segment size [segment_size]; the division
    raises when it is zero. *)
Definition handle_udp_request_sized (segment_size : Z)
    (server_udp_socket : udp_out) (client_address : address) (file_size : Z)
  : udp_out * ending :=
  if segment_size =? 0 then (server_udp_socket, Raised)
  else
    let total_segments := (file_size + segment_size - 1) / segment_size in
    let dummy_data := Py.repeat_byte "B" segment_size in
    send_segments segment_size client_address file_size total_segments
      dummy_data (Py.range total_segments) server_udp_socket.

Definition handle_udp_request := handle_udp_request_sized CHUNK_SIZE.

(** *** The TCP responder *)

Inductive read_end :=
| GotLine (data : Py.bytes)
| PeerClosed
| ReadRaised.

(** The loop that reads until a newline is in the buffer.  [script] lists
    what the successive [recv(1024)] calls return; after its end the peer
    has closed.  The result is how the loop ended and the answers left. *)
Fixpoint read_request (script : list recv_result) (data : Py.bytes)
  : read_end * list recv_result :=
  match script with
  | [] => (PeerClosed, [])
  | RecvRaise :: later => (ReadRaised, later)
  | RecvBytes [] :: later => (PeerClosed, later)
  | RecvBytes chunk :: later =>
      let data := data ++ chunk in
      if Py.contains "010"%byte data then (GotLine data, later)
      else read_request later data
  end.

(** [while bytes_sent < file_size]: each round writes at least one byte. *)
Equations? send_loop (file_size bytes_sent : Z) (dummy_chunk : Py.bytes)
    (conn : tcp_conn) : tcp_conn * ending
  by wf (Z.to_nat (file_size - bytes_sent)) lt :=
  send_loop file_size bytes_sent dummy_chunk conn
    with decide (bytes_sent < file_size) := {
    | right _ => (conn, Returned)
    | left _
        with sendall conn
               (Py.slice_to dummy_chunk
                  (Z.min (file_size - bytes_sent) CHUNK_SIZE)) := {
        | (conn', true) =>
            send_loop file_size
              (bytes_sent + Z.min (file_size - bytes_sent) CHUNK_SIZE)
              dummy_chunk conn'
        | (conn', false) => (conn', Raised) } }.
Proof. unfold CHUNK_SIZE. lia. Qed.

(** What the handler printed last. *)
Inductive tcp_report :=
| Disconnected
| InvalidSize (line : Text.str)
| DoneSending (file_size : Z)
| TcpError.

Definition handle_tcp_connection (db : Text.unicode_db)
    (conn_socket : tcp_conn) : tcp_conn * tcp_report :=
  let '(got, later) := read_request (incoming conn_socket) [] in
  let conn := TcpConn later (send_raises conn_socket) (send_calls conn_socket)
                (written conn_socket) (closed conn_socket) in
  let '(conn', report) :=
    match got with
    | PeerClosed => (conn, Disconnected)
    | ReadRaised => (conn, TcpError)
    | GotLine data =>
        match Text.decode data with
        | None => (conn, TcpError)
        | Some text =>
            let line := Text.strip db text in
            match Text.int db line with
            | None => (conn, InvalidSize line)
            | Some file_size =>
                let dummy_chunk := Py.repeat_byte "A" CHUNK_SIZE in
                match send_loop file_size 0 dummy_chunk conn with
                | (c, Returned) => (c, DoneSending file_size)
                | (c, Raised) => (c, TcpError)
                end
            end
        end
    end in
  (close conn', report).

(** *** The dispatcher: what [main] does with one received datagram *)

Inductive dispatch :=
| Ignore
| SpawnUdp (addr : address) (file_size : Z)
| Crash.

Definition on_datagram (data : Py.bytes) (addr : address) : dispatch :=
  if Py.len data <? 13 then Ignore
  else
    match unpack_from [cI; cB] data 0 with
    | Some [cookie; msg_type] =>
        if negb (cookie =? MAGIC_COOKIE) || negb (msg_type =? MSG_TYPE_REQUEST)
        then Ignore
        else
          match unpack_from [cQ] data 5 with
          | Some (file_size :: _) => SpawnUdp addr file_size
          | _ => Crash
          end
    | _ => Crash
    end.

Inductive task :=
| UdpTask (addr : address) (file_size : Z)
| TcpTask (caddr : address).

Inductive main_end := Interrupted | MainCrashed.

(** What one [accept] call on the listening socket meets: a connection,
    [socket.timeout], or another exception. *)
Inductive accept_event :=
| Accepted (caddr : address)
| AcceptTimeout
| AcceptRaised.

(** The [while True] loop of [main].  Each round polls the UDP socket and
    then, unless the round was cut short by [continue], the listening
    socket.  [udp_polls] and [accepts] script the answers of the two
    sockets; the end of [udp_polls] stands for [KeyboardInterrupt], the
    end of [accepts] for timeouts from then on.  [starts k] tells whether
    [Thread.start()] succeeds when [k] tasks were started before;
    [false] stands for the [RuntimeError] of a thread that cannot be
    started.  Only [socket.timeout] is caught inside the loop: any other
    exception ends [main]. *)
Fixpoint main_loop (starts : nat → bool) (udp_polls : list udp_event)
    (accepts : list accept_event) (spawned : list task)
  : list task * main_end :=
  match udp_polls with
  | [] => (spawned, Interrupted)
  | SockError :: _ => (spawned, MainCrashed)
  | ev :: udp_later =>
      let after_udp :=
        match ev with
        | Datagram data addr =>
            match on_datagram (recvfrom_data 1024 data) addr with
            | Ignore => inl spawned
            | SpawnUdp a n =>
                if starts (length spawned)
                then inr (Some (spawned ++ [UdpTask a n]))
                else inr None
            | Crash => inr None
            end
        | _ => inr (Some spawned)
        end in
      match after_udp with
      | inl sp => main_loop starts udp_later accepts sp
      | inr None => (spawned, MainCrashed)
      | inr (Some sp) =>
          match accepts with
          | Accepted caddr :: acc_later =>
              if starts (length sp)
              then main_loop starts udp_later acc_later (sp ++ [TcpTask caddr])
              else (sp, MainCrashed)
          | AcceptTimeout :: acc_later => main_loop starts udp_later acc_later sp
          | AcceptRaised :: _ => (sp, MainCrashed)
          | [] => main_loop starts udp_later [] sp
          end
      end
  end.

(** *** The offer broadcaster *)

(** [stop_set k]: the stop event is set when the loop tests it for the
    [k]-th time.  [send_fails k]: the [k]-th broadcast raises. *)
Record bcast_env := BcastEnv {
  stop_set : nat → bool;
  send_fails : nat → bool
}.

Record bcast_state := BcastState {
  tick : nat;
  offers : list (Py.bytes * address);
  errors_logged : nat;
  sock_closed : bool
}.

Inductive bcast_status :=
| Running (st : bcast_state)
| Stopped (st : bcast_state)
| Died (st : bcast_state).

Definition bcast_init : bcast_state := BcastState 0 [] 0 false.

(** One test of the loop condition and, when it holds, one loop body. *)
Definition broadcast_step (env : bcast_env) (udp_port tcp_port : Z)
    (st : bcast_state) : bcast_status :=
  if stop_set env (tick st)
  then Stopped (BcastState (tick st) (offers st) (errors_logged st) true)
  else
    match pack [cI; cB; cH; cH]
            [MAGIC_COOKIE; MSG_TYPE_OFFER; udp_port; tcp_port] with
    | None => Died st
    | Some offer =>
        if send_fails env (tick st)
        then Running (BcastState (S (tick st)) (offers st)
                        (S (errors_logged st)) (sock_closed st))
        else Running (BcastState (S (tick st))
                        (offers st ++ [(offer, ("255.255.255.255"%string,
                                                BROADCAST_LISTEN_PORT))])
                        (errors_logged st) (sock_closed st))
    end.

(** [broadcast_offers] run for at most [rounds] tests of the condition. *)
Fixpoint broadcast_run (env : bcast_env) (udp_port tcp_port : Z)
    (rounds : nat) (st : bcast_state) : bcast_status :=
  match rounds with
  | O => Running st
  | S k =>
      match broadcast_step env udp_port tcp_port st with
      | Running st' => broadcast_run env udp_port tcp_port k st'
      | other => other
      end
  end.

Definition broadcast_offers env udp_port tcp_port rounds :=
  broadcast_run env udp_port tcp_port rounds bcast_init.

End Server.

(** ** client.py *)

Module Client.
Import Struct Net.

Definition CLIENT_LISTEN_PORT : Z := 13117.

(** How a worker ends: it returns, or an exception leaves its thread. *)
Inductive ending := Returned | Raised.

(** [(total * 8) / duration if duration > 0 else 0] *)
Definition speed_bps (total : Z) (duration : Qc) : option Qc :=
  if decide (0 < duration)%Qc
  then Py.truediv (Qc_of_Z (total * 8)) duration
  else Some 0%Qc.

(** *** The TCP worker *)

Record tcp_result := TcpResult {
  tcp_duration : Qc;
  tcp_speed : Qc;
  tcp_received : Z
}.

(** What the worker meets: two clock readings, whether [connect] succeeds,
    and the connection. *)
Record tcp_env := TcpEnv {
  tcp_start : Qc;
  tcp_end : Qc;
  connect_ok : bool;
  conn : tcp_conn
}.

(** [while total_received < file_size], leaving at an empty read.  An
    exception also ends it, with the count reached so far. *)
Fixpoint recv_loop (file_size : Z) (script : list recv_result)
    (total_received : Z) : Z :=
  if total_received <? file_size then
    match script with
    | [] => total_received
    | RecvRaise :: _ => total_received
    | RecvBytes [] :: _ => total_received
    | RecvBytes data :: later =>
        recv_loop file_size later (total_received + Py.len data)
    end
  else total_received.

(** The [try] block: the buffers written and the bytes counted. *)
Definition tcp_transfer (env : tcp_env) (file_size : Z) : tcp_conn * Z :=
  if connect_ok env then
    let request_str := Text.str_of_int file_size ++ [10] in
    match Text.encode request_str with
    | None => (conn env, 0)
    | Some request =>
        match sendall (conn env) request with
        | (c, true) => (c, recv_loop file_size (incoming c) 0)
        | (c, false) => (c, 0)
        end
    end
  else (conn env, 0).

(** The worker as the list of its writes to [results_list] (slot, value)
    and its ending. *)
Definition tcp_download_worker (env : tcp_env) (file_size : Z) (idx : nat)
  : list (nat * tcp_result) * ending :=
  let start_time := tcp_start env in
  let total_received := snd (tcp_transfer env file_size) in
  let end_time := tcp_end env in
  let duration := (end_time - start_time)%Qc in
  match speed_bps total_received duration with
  | Some speed => ([(idx, TcpResult duration speed total_received)], Returned)
  | None => ([], Raised)
  end.

(** *** The UDP worker *)

Record udp_result := UdpResult {
  udp_duration : Qc;
  udp_speed : Qc;
  udp_received : Z;
  udp_success : Qc
}.

Record udp_env := UdpEnv {
  udp_start : Qc;
  udp_end : Qc;
  request_ok : bool;
  arrivals : list udp_event
}.

Record udp_state := UdpState {
  total_bytes_received : Z;
  total_segments : option Z;
  received_segments : gset Z
}.

Definition udp_init : udp_state := UdpState 0 None ∅.

(** What the loop body makes of one datagram. *)
Inductive seen :=
| Skipped
| Segment (total_seg current_seg : Z) (payload : Py.bytes)
| Failed.

Definition on_datagram (data : Py.bytes) : seen :=
  if Py.len data <? 21 then Skipped
  else
    match unpack_from [cI; cB] data 0 with
    | Some [cookie; msg_type] =>
        if negb (cookie =? MAGIC_COOKIE) || negb (msg_type =? MSG_TYPE_PAYLOAD)
        then Skipped
        else
          match unpack_from [cQ; cQ] data 5 with
          | Some [total_seg; current_seg] =>
              Segment total_seg current_seg (Py.slice_from data (5 + 16))
          | _ => Failed
          end
    | _ => Failed
    end.

Definition record_segment (st : udp_state) (total_seg current_seg : Z)
    (payload : Py.bytes) : udp_state :=
  UdpState (total_bytes_received st + Py.len payload)
    (match total_segments st with None => Some total_seg | some => some end)
    ({[current_seg]} ∪ received_segments st).

(** The receive loop; the end of the script stands for silence, that is
    a timeout. *)
Fixpoint receive_loop (script : list udp_event) (st : udp_state) : udp_state :=
  match script with
  | [] => st
  | Timeout :: _ => st
  | SockError :: _ => st
  | Datagram d _ :: later =>
      match on_datagram (recvfrom_data 65535 d) with
      | Skipped => receive_loop later st
      | Segment total_seg current_seg payload =>
          receive_loop later (record_segment st total_seg current_seg payload)
      | Failed => st
      end
  end.

(** [(100.0 * received_count / total_segments) if total_segments > 0 else 0.0] *)
Definition success_percentage (received_count total_segments : Z) : option Qc :=
  if 0 <? total_segments
  then Py.truediv (Qc_of_Z 100 * Qc_of_Z received_count)%Qc (Qc_of_Z total_segments)
  else Some 0%Qc.

Definition udp_download_worker (env : udp_env) (file_size : Z) (idx : nat)
  : list (nat * udp_result) * ending :=
  let start_time := udp_start env in
  match pack [cI; cB; cQ] [MAGIC_COOKIE; MSG_TYPE_REQUEST; file_size] with
  | None => ([], Raised)
  | Some request_packet =>
      if request_ok env then
        let st := receive_loop (arrivals env) udp_init in
        let end_time := udp_end env in
        let duration := (end_time - start_time)%Qc in
        let total := default 0 (total_segments st) in
        let received_count := Z.of_nat (size (received_segments st)) in
        match speed_bps (total_bytes_received st) duration,
              success_percentage received_count total with
        | Some speed, Some pct =>
            ([(idx, UdpResult duration speed (total_bytes_received st) pct)],
             Returned)
        | _, _ => ([], Raised)
        end
      else ([(idx, UdpResult 0 0 0 0)], Returned)
  end.

(** *** Discovery *)

Inductive offer_view :=
| NotOffer
| Offer (server_udp_port server_tcp_port : Z)
| OfferFailed.

Definition on_offer (data : Py.bytes) : offer_view :=
  if Py.len data <? 9 then NotOffer
  else
    match unpack_from [cI; cB] data 0 with
    | Some [cookie; msg_type] =>
        if (cookie =? MAGIC_COOKIE) && (msg_type =? MSG_TYPE_OFFER) then
          match unpack_from [cH; cH] data 5 with
          | Some [server_udp_port; server_tcp_port] =>
              Offer server_udp_port server_tcp_port
          | _ => OfferFailed
          end
        else NotOffer
    | _ => OfferFailed
    end.

Inductive discovery :=
| Found (server_ip : string) (server_udp_port server_tcp_port : Z)
| StillListening
| DiscoveryRaised.

(** The inner [while True] of [main]; the end of the script leaves the
    client listening. *)
Fixpoint listen (script : list udp_event) : discovery :=
  match script with
  | [] => StillListening
  | Timeout :: later => listen later
  | SockError :: _ => DiscoveryRaised
  | Datagram d addr :: later =>
      match on_offer (recvfrom_data 1024 d) with
      | NotOffer => listen later
      | Offer u t => Found (fst addr) u t
      | OfferFailed => DiscoveryRaised
      end
  end.

(** *** Running the workers and collecting the results *)

(** [results_list[idx] = value] *)
Definition store {R} (results_list : list (option R)) (w : nat * R)
  : list (option R) :=
  <[fst w := Some (snd w)]> results_list.

(** The threads of one kind: worker [i] runs in its own environment
    [envs !! i]; the result list starts as [[None] * n]. *)
Definition run_workers {E R} (worker : E → Z → nat → list (nat * R) * ending)
    (envs : list E) (file_size : Z) : list (option R) :=
  foldl store (replicate (length envs) None)
    (concat (imap (λ i env, fst (worker env file_size i)) envs)).

(** The printing loops unpack every slot; [None] stands for the
    [TypeError] met at a slot no worker filled. *)
Definition collect {R} (results_list : list (option R)) : option (list R) :=
  mapM id results_list.

Definition run_test (tcp_envs : list tcp_env) (udp_envs : list udp_env)
    (file_size : Z) : option (list tcp_result * list udp_result) :=
  let tcp_results := run_workers tcp_download_worker tcp_envs file_size in
  let udp_results := run_workers udp_download_worker udp_envs file_size in
  tcp_lines ← collect tcp_results;
  udp_lines ← collect udp_results;
  Some (tcp_lines, udp_lines).

(** *** One test round of [main], once an offer was found *)

(** The three answers typed at the prompts, each read through
    [int(input(...).strip())]; [None] stands for [ValueError]. *)
Definition read_parameters (db : Text.unicode_db)
    (size_answer tcp_answer udp_answer : Text.str) : option (Z * Z * Z) :=
  file_size ← Text.int db (Text.strip db size_answer);
  num_tcp ← Text.int db (Text.strip db tcp_answer);
  num_udp ← Text.int db (Text.strip db udp_answer);
  Some (file_size, num_tcp, num_udp).

(** How the round ends: the input was refused and the client listens
    again, all the results were printed, or the printing failed. *)
Inductive round_end :=
| InvalidInput
| Completed (tcp_lines : list tcp_result) (udp_lines : list udp_result)
| PrintFailed.

(** Steps 2 to 5 of [main]; worker [i] of a kind meets the environment
    [tcp_world i] or [udp_world i]. *)
Definition run_round (db : Text.unicode_db)
    (size_answer tcp_answer udp_answer : Text.str)
    (tcp_world : nat → tcp_env) (udp_world : nat → udp_env) : round_end :=
  match read_parameters db size_answer tcp_answer udp_answer with
  | None => InvalidInput
  | Some (file_size, num_tcp, num_udp) =>
      match run_test (tcp_world <$> seq 0 (Z.to_nat num_tcp))
              (udp_world <$> seq 0 (Z.to_nat num_udp)) file_size with
      | Some (tcp_lines, udp_lines) => Completed tcp_lines udp_lines
      | None => PrintFailed
      end
  end.

End Client.

(** ** client.py on the machine *)

(** The workers and the test round again, this time with what module
    [Client] leaves out: the clock readings and the figures computed from
    them are binary64 floats, the conversions and divisions can raise,
    and so can the creation of a socket, the start of a thread and the
    allocation of a list.  The loops that count bytes and segments are
    those of [Client]. *)
Module Client64.
Import Struct Net.

(** A number in a result: the workers write both [int] and [float]. *)
Inductive number :=
| PyInt (n : Z)
| PyFloat (x : Float.float).

Inductive exn := OverflowError | ZeroDivisionError.

(** [(total * 8) / duration if duration > 0 else 0] *)
Definition speed_bps (total : Z) (duration : Float.float) : exn + number :=
  if Float.positive duration then
    match Float.of_int (total * 8) with
    | None => inl OverflowError
    | Some bits =>
        match Float.truediv bits duration with
        | None => inl ZeroDivisionError
        | Some speed => inr (PyFloat speed)
        end
    end
  else inr (PyInt 0).

(** [(100.0 * received_count / total_segments) if total_segments > 0 else 0.0] *)
Definition success_percentage (received_count total_segments : Z)
  : exn + number :=
  if 0 <? total_segments then
    match Float.of_int received_count with
    | None => inl OverflowError
    | Some count =>
        match Float.of_int total_segments with
        | None => inl OverflowError
        | Some total =>
            match Float.truediv (Float.mul Float.hundred count) total with
            | None => inl ZeroDivisionError
            | Some pct => inr (PyFloat pct)
            end
        end
    end
  else inr (PyFloat Float.zero).

(** *** The TCP worker *)

Record tcp_result := TcpResult {
  tcp_duration : Float.float;
  tcp_speed : number;
  tcp_received : Z
}.

(** What the worker meets: two clock readings, whether the socket is
    made and connected, and the connection. *)
Record tcp_env := TcpEnv {
  tcp_start : Float.float;
  tcp_end : Float.float;
  connect_ok : bool;
  conn : tcp_conn
}.

(** The [try] block: the buffers written and the bytes counted. *)
Definition tcp_transfer (env : tcp_env) (file_size : Z) : tcp_conn * Z :=
  if connect_ok env then
    let request_str := Text.str_of_int file_size ++ [10] in
    match Text.encode request_str with
    | None => (conn env, 0)
    | Some request =>
        match sendall (conn env) request with
        | (c, true) => (c, Client.recv_loop file_size (incoming c) 0)
        | (c, false) => (c, 0)
        end
    end
  else (conn env, 0).

(** The worker as the list of its writes to [results_list] and its
    ending; the arithmetic stands after the [try] block, so that an
    exception in it leaves the thread. *)
Definition tcp_download_worker (env : tcp_env) (file_size : Z) (idx : nat)
  : list (nat * tcp_result) * Client.ending :=
  let start_time := tcp_start env in
  let total_received := snd (tcp_transfer env file_size) in
  let end_time := tcp_end env in
  let duration := Float.sub end_time start_time in
  match speed_bps total_received duration with
  | inr speed =>
      ([(idx, TcpResult duration speed total_received)], Client.Returned)
  | inl _ => ([], Client.Raised)
  end.

(** *** The UDP worker *)

Record udp_result := UdpResult {
  udp_duration : number;
  udp_speed : number;
  udp_received : Z;
  udp_success : number
}.

(** What the worker meets: two clock readings, whether the socket can be
    made, whether the request is accepted, and the datagrams. *)
Record udp_env := UdpEnv {
  udp_start : Float.float;
  udp_end : Float.float;
  socket_ok : bool;
  request_ok : bool;
  arrivals : list udp_event
}.

(** The socket is made and the request packed before any handler is in
    place. *)
Definition udp_download_worker (env : udp_env) (file_size : Z) (idx : nat)
  : list (nat * udp_result) * Client.ending :=
  let start_time := udp_start env in
  if socket_ok env then
    match pack [cI; cB; cQ] [MAGIC_COOKIE; MSG_TYPE_REQUEST; file_size] with
    | None => ([], Client.Raised)
    | Some request_packet =>
        if request_ok env then
          let st := Client.receive_loop (arrivals env) Client.udp_init in
          let end_time := udp_end env in
          let duration := Float.sub end_time start_time in
          match speed_bps (Client.total_bytes_received st) duration with
          | inl _ => ([], Client.Raised)
          | inr speed =>
              let total := default 0 (Client.total_segments st) in
              let received_count :=
                Z.of_nat (size (Client.received_segments st)) in
              match success_percentage received_count total with
              | inl _ => ([], Client.Raised)
              | inr pct =>
                  ([(idx, UdpResult (PyFloat duration) speed
                            (Client.total_bytes_received st) pct)],
                   Client.Returned)
              end
          end
        else ([(idx, UdpResult (PyInt 0) (PyInt 0) 0 (PyInt 0))],
              Client.Returned)
    end
  else ([], Client.Raised).

(** *** One test round of [main], once an offer was found *)

(** What the process meets besides its sockets: whether a list of [n]
    slots can be allocated ([false] stands for [MemoryError]), and
    whether the [k]-th [Thread.start()] of the round succeeds ([false]
    stands for [RuntimeError]). *)
Record host := Host {
  list_fits : Z → bool;
  thread_starts : nat → bool
}.

(** [[None] * n]: the empty list for [n <= 0], [OverflowError] from
    [2^63] on (a 64-bit interpreter). *)
Definition none_list {R} (h : host) (n : Z) : option (list (option R)) :=
  if n <=? 0 then Some []
  else if (n <? 2 ^ 63) && list_fits h n
       then Some (replicate (Z.to_nat n) None)
       else None.

(** How the round ends: the input was refused and the client listens
    again, an exception left [main] before the results were there, all
    the results were printed, or the printing met an empty slot. *)
Inductive round_end :=
| InvalidInput
| RoundRaised
| Completed (tcp_lines : list tcp_result) (udp_lines : list udp_result)
| PrintFailed.

(** Steps 2 to 5 of [main]; worker [i] of a kind meets the environment
    [tcp_world i] or [udp_world i]. *)
Definition run_round (db : Text.unicode_db) (h : host)
    (size_answer tcp_answer udp_answer : Text.str)
    (tcp_world : nat → tcp_env) (udp_world : nat → udp_env) : round_end :=
  match Client.read_parameters db size_answer tcp_answer udp_answer with
  | None => InvalidInput
  | Some (file_size, num_tcp, num_udp) =>
      let tcp_envs := tcp_world <$> seq 0 (Z.to_nat num_tcp) in
      let udp_envs := udp_world <$> seq 0 (Z.to_nat num_udp) in
      match none_list h num_tcp with
      | None => RoundRaised
      | Some tcp_slots =>
          if forallb (thread_starts h) (seq 0 (Z.to_nat num_tcp)) then
            match none_list h num_udp with
            | None => RoundRaised
            | Some udp_slots =>
                if forallb (thread_starts h)
                     (seq (Z.to_nat num_tcp) (Z.to_nat num_udp))
                then
                  let tcp_results :=
                    foldl Client.store tcp_slots
                      (concat (imap (λ i env,
                                 fst (tcp_download_worker env file_size i))
                                 tcp_envs)) in
                  let udp_results :=
                    foldl Client.store udp_slots
                      (concat (imap (λ i env,
                                 fst (udp_download_worker env file_size i))
                                 udp_envs)) in
                  match Client.collect tcp_results,
                        Client.collect udp_results with
                  | Some tcp_lines, Some udp_lines =>
                      Completed tcp_lines udp_lines
                  | _, _ => PrintFailed
                  end
                else RoundRaised
            end
          else RoundRaised
      end
  end.

End Client64.

(** ** Notions used in the statements *)

Section Notions.
Import Struct Net Text.

(** The header fields as the receivers read them. *)
Definition magic_of (data : Py.bytes) : Z := be_value (take 4 data).
Definition type_of (data : Py.bytes) : Z := be_value (take 1 (drop 4 data)).

(** A buffer no receiver expecting [type] may accept: too short, wrong
    magic value, or another type byte. *)
Definition malformed (min_len : nat) (type : Z) (data : Py.bytes) : Prop :=
  (length data < min_len)%nat ∨ magic_of data ≠ MAGIC_COOKIE ∨ type_of data ≠ type.

(** The datagram for one segment, as [handle_udp_request] builds it. *)
Definition is_segment (segment_size file_size total_segments : Z)
    (dummy_data : Py.bytes) (seg_idx : Z) (packet : Py.bytes) : Prop :=
  ∃ header,
    pack [cI; cB; cQ; cQ]
      [MAGIC_COOKIE; MSG_TYPE_PAYLOAD; total_segments; seg_idx] = Some header
    ∧ packet = header ++ Py.slice_to dummy_data
                           (Z.min segment_size (file_size - seg_idx * segment_size)).

(** The number of failed sends among the rounds [from .. from + n - 1]. *)
Definition failed_sends (env : Server.bcast_env) (from n : nat) : nat :=
  length (filter (λ k, Server.send_fails env k = true) (seq from n)).

(** The valid payload segments the UDP worker's loop meets before it
    ends: for each its total, its index and its payload. *)
Fixpoint segments_seen (script : list udp_event) : list (Z * Z * Py.bytes) :=
  match script with
  | Datagram d _ :: later =>
      match Client.on_datagram (recvfrom_data 65535 d) with
      | Client.Skipped => segments_seen later
      | Client.Segment total_seg current_seg payload =>
          (total_seg, current_seg, payload) :: segments_seen later
      | Client.Failed => []
      end
  | _ => []
  end.

Definition first_total (segs : list (Z * Z * Py.bytes)) : option Z :=
  (λ s, fst (fst s)) <$> head segs.

Definition distinct_indices (segs : list (Z * Z * Py.bytes)) : gset Z :=
  list_to_set ((λ s, snd (fst s)) <$> segs).

Definition payload_bytes (segs : list (Z * Z * Py.bytes)) : Z :=
  foldr (λ s n, Py.len (snd s) + n) 0 segs.

(** The two datagrams the responder sends for 2048 bytes. *)
Definition two_segments : list Py.bytes :=
  fst <$> outbox (fst (Server.handle_udp_request (UdpOut (λ _, false) 0 [])
                         ("10.0.0.2"%string, 40001) 2048)).

(** Text within ASCII. *)
Definition ascii_text (s : str) : Prop := Forall (λ c, 0 ≤ c < 128) s.

(** The value of a run of ASCII digits read after [acc]. *)
Definition digits_value (acc : Z) (ds : str) : Z :=
  fold_left (λ a c, a * 10 + (c - 48)) ds acc.

(** The bytes the TCP worker sends for [file_size]. *)
Definition request_of (file_size : Z) : Py.bytes :=
  byte_of <$> (str_of_int file_size ++ [10]).

(** The request line: the bytes in front of the first newline. *)
Fixpoint request_line (data : Py.bytes) : Py.bytes :=
  match data with
  | [] => []
  | b :: r => if Byte.eqb newline b then [] else b :: request_line r
  end.

(** The bytes behind the first newline. *)
Fixpoint after_newline (data : Py.bytes) : Py.bytes :=
  match data with
  | [] => []
  | b :: r => if Byte.eqb newline b then r else after_newline r
  end.

(** A non-negative ASCII decimal integer: one digit or more, and nothing
    else. *)
Definition ascii_decimal (line : Py.bytes) : bool :=
  match line with
  | [] => false
  | _ => forallb (λ b, is_digit (byte_val b)) line
  end.

(** An ASCII character that no integer literal holds: not a digit, an
    underscore or a sign, and not white space. *)
Definition foreign_character (db : unicode_db) (c : Z) : Prop :=
  c < 128 ∧ is_digit c = false ∧ c ≠ 95 ∧ c ≠ 43 ∧ c ≠ 45 ∧ isspace db c = false.

(** The size the responder derives from what it reads, if any. *)
Definition parsed_size (db : unicode_db) (conn : tcp_conn) : option Z :=
  match Server.read_request (incoming conn) [] with
  | (Server.GotLine data, _) => text ← decode data; int db (strip db text)
  | _ => None
  end.

(** A poll of the discovery socket that brings no offer: a timeout, or a
    datagram that is too short, has another magic value or another type. *)
Definition no_offer (ev : udp_event) : Prop :=
  ev = Timeout
  ∨ ∃ d addr, ev = Datagram d addr
      ∧ malformed 9 MSG_TYPE_OFFER (recvfrom_data 1024 d).

(** A poll of the server's UDP socket that brings a datagram the
    dispatcher skips. *)
Definition skipped_poll (ev : udp_event) : Prop :=
  ∃ d addr, ev = Datagram d addr
    ∧ malformed 13 MSG_TYPE_REQUEST (recvfrom_data 1024 d).

(** The responder tasks the valid requests among the polled datagrams call
    for, in order. *)
Fixpoint requests_in (polls : list udp_event) : list Server.task :=
  match polls with
  | [] => []
  | Datagram d addr :: later =>
      match Server.on_datagram (recvfrom_data 1024 d) addr with
      | Server.SpawnUdp a n => Server.UdpTask a n :: requests_in later
      | _ => requests_in later
      end
  | _ :: later => requests_in later
  end.

Definition is_udp_task (t : Server.task) : bool :=
  match t with Server.UdpTask _ _ => true | Server.TcpTask _ => false end.

(** [n] bytes cut into full buffers of [Server.CHUNK_SIZE] bytes and one
    last shorter buffer for what is left. *)
Definition full_chunks (n : Z) : list Py.bytes :=
  replicate (Z.to_nat (n / Server.CHUNK_SIZE))
    (Py.repeat_byte "A" Server.CHUNK_SIZE)
  ++ (if n mod Server.CHUNK_SIZE =? 0 then []
      else [Py.repeat_byte "A" (n mod Server.CHUNK_SIZE)]).

(** The stream gives nothing more: the peer has closed, or the next read
    raises. *)
Definition stream_ends (tail : list recv_result) : Prop :=
  tail = [] ∨ ∃ rest, tail = RecvRaise :: rest ∨ tail = RecvBytes [] :: rest.

(** Datagrams, each with its sender, as successive polls of a socket. *)
Definition arriving (ds : list (Py.bytes * address)) : list udp_event :=
  (λ p, Datagram (fst p) (snd p)) <$> ds.


(** What the UDP worker reads in a datagram, if it is a payload segment:
    the announced total, the index and the payload. *)
Definition segment_of (d : Py.bytes) : option (Z * Z * Py.bytes) :=
  match Client.on_datagram (recvfrom_data 65535 d) with
  | Client.Segment total_seg current_seg payload =>
      Some (total_seg, current_seg, payload)
  | _ => None
  end.


(** The packets the responder sends for [file_size] bytes when every send
    is accepted. *)
Definition packets_for (client_address : address) (file_size : Z)
  : list (Py.bytes * address) :=
  outbox (fst (Server.handle_udp_request (UdpOut (λ _, false) 0 [])
                 client_address file_size)).

(** Every read brings at most [bufsize] bytes, as [recv(bufsize)] does. *)
Definition reads_within (bufsize : Z) (script : list recv_result) : Prop :=
  Forall (λ r, match r with
               | RecvBytes data => Py.len data ≤ bufsize
               | RecvRaise => True
               end) script.

(** What a worker left for its slot, if it wrote. *)
Definition slot_of {R} (run : list (nat * R) * Client.ending) : option R :=
  snd <$> head (fst run).

(** The writes of the workers of one kind, worker after worker. *)
Definition writes_of {E R}
    (worker : E → Z → nat → list (nat * R) * Client.ending)
    (envs : list E) (file_size : Z) : list (nat * R) :=
  concat (imap (λ i env, fst (worker env file_size i)) envs).

(** An answer typed at a prompt for the number [n]: its decimal form with
    white space around it. *)
Definition typed (db : unicode_db) (n : Z) (answer : str) : Prop :=
  ∃ ws1 ws2,
    Forall (λ c, isspace db c = true) ws1
    ∧ Forall (λ c, isspace db c = true) ws2
    ∧ answer = ws1 ++ str_of_int n ++ ws2.

End Notions.

(** Side conditions on the size of a format. *)
Ltac sizes := unfold Struct.calcsize; simpl; lia.

(** ** Lemmas on the codec *)

Section CodecLemmas.
Import Struct.

Lemma byte_val_range b : 0 ≤ byte_val b < 256.
Proof.
  unfold byte_val. pose proof (Byte.to_N_bounded b). lia.
Qed.

Lemma byte_val_of z : byte_val (byte_of z) = z mod 256.
Proof.
  unfold byte_val, byte_of.
  assert (Hr : 0 ≤ z mod 256 < 256) by (apply Z.mod_pos_bound; lia).
  destruct (Byte.of_N (Z.to_N (z mod 256))) as [b|] eqn:E.
  - simpl. apply Byte.to_of_N in E. rewrite E. lia.
  - apply Byte.of_N_None_iff in E. lia.
Qed.

Lemma be_fold_acc l acc :
  fold_left (λ a b, a * 256 + byte_val b) l acc
  = acc * 256 ^ Z.of_nat (length l) + be_value l.
Proof.
  unfold be_value. revert acc.
  induction l as [|b l IH]; intros acc.
  - simpl. lia.
  - cbn [fold_left length]. rewrite IH, (IH (0 * 256 + byte_val b)).
    rewrite Nat2Z.inj_succ, Z.pow_succ_r by lia. lia.
Qed.

Lemma be_value_app l1 l2 :
  be_value (l1 ++ l2) = be_value l1 * 256 ^ Z.of_nat (length l2) + be_value l2.
Proof.
  unfold be_value at 1. rewrite fold_left_app. apply be_fold_acc.
Qed.

Lemma be_bytes_length n v : length (be_bytes n v) = n.
Proof.
  revert v. induction n as [|n IH]; intros v; simpl; [done|].
  rewrite length_app, IH. simpl. lia.
Qed.

Lemma be_value_bytes n v :
  0 ≤ v < 256 ^ Z.of_nat n → be_value (be_bytes n v) = v.
Proof.
  revert v. induction n as [|n IH]; intros v Hv.
  - simpl in *. unfold be_value. simpl. lia.
  - simpl. rewrite be_value_app. simpl.
    rewrite Nat2Z.inj_succ, Z.pow_succ_r in Hv by lia.
    rewrite IH.
    + unfold be_value at 1. simpl. rewrite byte_val_of.
      pose proof (Z.div_mod v 256). lia.
    + split; [apply Z.div_pos; lia|].
      apply Z.div_lt_upper_bound; lia.
Qed.

Lemma in_range_spec c v :
  in_range c v = true ↔ 0 ≤ v < 256 ^ Z.of_nat (field_size c).
Proof. unfold in_range. rewrite andb_true_iff, Z.leb_le, Z.ltb_lt. done. Qed.

Lemma pack_length f vs out :
  pack f vs = Some out → length out = calcsize f.
Proof.
  revert vs out. induction f as [|c f IH]; intros [|v vs] out; simpl; try done.
  - by intros [= <-].
  - destruct (in_range c v); [|done].
    destruct (pack f vs) as [rest|] eqn:E; simpl; [|done].
    intros [= <-]. rewrite length_app, be_bytes_length.
    unfold calcsize. simpl. f_equal. by apply (IH vs).
Qed.

(** Unpacking what was packed gives the values back, whatever follows. *)
Lemma unpack_pack f vs out tail :
  pack f vs = Some out → unpack_fields f (out ++ tail) = vs.
Proof.
  revert vs out. induction f as [|c f IH]; intros [|v vs] out; simpl; try done.
  destruct (in_range c v) eqn:Hr; [|done].
  destruct (pack f vs) as [rest|] eqn:E; simpl; [|done].
  intros [= <-]. apply in_range_spec in Hr.
  rewrite <- app_assoc.
  rewrite take_app_length' by (by rewrite be_bytes_length).
  rewrite drop_app_length' by (by rewrite be_bytes_length).
  rewrite be_value_bytes by done. f_equal. by apply IH.
Qed.

Lemma unpack_from_pack f vs out tail :
  pack f vs = Some out → unpack_from f (out ++ tail) 0 = Some vs.
Proof.
  intros Hp. unfold unpack_from.
  pose proof (pack_length _ _ _ Hp) as Hl.
  rewrite decide_True by (rewrite length_app; lia).
  rewrite drop_0. f_equal. by apply unpack_pack.
Qed.

Lemma unpack_from_is_Some f data off :
  (off + calcsize f ≤ length data)%nat → is_Some (unpack_from f data off).
Proof.
  intros H. unfold unpack_from. rewrite decide_True by lia. eauto.
Qed.

Lemma be_value_range l : 0 ≤ be_value l < 256 ^ Z.of_nat (length l).
Proof.
  induction l as [|b l IH] using rev_ind.
  - unfold be_value. simpl. lia.
  - rewrite be_value_app, length_app. simpl.
    replace (Z.of_nat (length l + 1)) with (Z.succ (Z.of_nat (length l))) by lia.
    rewrite Z.pow_succ_r by lia.
    assert (Hb : be_value [b] = byte_val b) by (unfold be_value; simpl; lia).
    pose proof (byte_val_range b). rewrite Hb. nia.
Qed.

Lemma unpack_fields_length f data : length (unpack_fields f data) = length f.
Proof.
  revert data. induction f as [|c f IH]; intros data; simpl; [done|].
  by rewrite IH.
Qed.

End CodecLemmas.

(** ** The wire format seen from both ends *)

Section WireFormat.
Import Struct Net.

Lemma pack_is_Some f vs :
  Forall2 (λ c v, in_range c v = true) f vs → is_Some (pack f vs).
Proof.
  induction 1 as [|c v f vs Hr _ [rest IH]]; simpl; [eauto|].
  rewrite Hr, IH. simpl. eauto.
Qed.

(** A field group read at the offset where it was written. *)
Lemma unpack_from_at f vs out pre tail :
  pack f vs = Some out →
  unpack_from f (pre ++ out ++ tail) (length pre) = Some vs.
Proof.
  intros Hp. unfold unpack_from.
  pose proof (pack_length _ _ _ Hp) as Hl.
  rewrite decide_True by (rewrite !length_app; lia).
  rewrite drop_app_length. f_equal. by apply unpack_pack.
Qed.

Lemma pack_app f1 f2 v1 v2 o1 o2 :
  pack f1 v1 = Some o1 → pack f2 v2 = Some o2 →
  pack (f1 ++ f2) (v1 ++ v2) = Some (o1 ++ o2).
Proof.
  revert v1 o1. induction f1 as [|c f1 IH]; intros [|v v1] o1; simpl; try done.
  - by intros [= <-].
  - destruct (in_range c v); [|done].
    destruct (pack f1 v1) as [r|] eqn:E; simpl; [|done].
    intros [= <-] H2. rewrite (IH _ _ E H2). simpl. by rewrite app_assoc.
Qed.

Lemma len_lt_false {A} (l : list A) (n : Z) :
  n ≤ Z.of_nat (length l) → (Py.len l <? n) = false.
Proof. unfold Py.len. intros. apply Z.ltb_ge. lia. Qed.

Lemma len_lt_true {A} (l : list A) (n : Z) :
  Z.of_nat (length l) < n → (Py.len l <? n) = true.
Proof. unfold Py.len. intros. apply Z.ltb_lt. lia. Qed.

Lemma header_fields data :
  (5 ≤ length data)%nat →
  unpack_from [cI; cB] data 0 = Some [magic_of data; type_of data].
Proof.
  intros H. unfold unpack_from. rewrite decide_True by sizes.
  by rewrite drop_0.
Qed.

Lemma reject_test (type cookie msg_type : Z) :
  cookie ≠ MAGIC_COOKIE ∨ msg_type ≠ type →
  negb (cookie =? MAGIC_COOKIE) || negb (msg_type =? type) = true.
Proof.
  intros [H|H]; apply orb_true_iff; [left|right];
    apply negb_true_iff, Z.eqb_neq; done.
Qed.

Lemma server_on_datagram_total data addr :
  Server.on_datagram data addr ≠ Server.Crash.
Proof.
  unfold Server.on_datagram.
  destruct (Py.len data <? 13) eqn:Hl; [done|].
  apply Z.ltb_ge in Hl. unfold Py.len in Hl.
  rewrite header_fields by lia.
  destruct (_ || _); [done|].
  unfold unpack_from. rewrite decide_True by sizes. done.
Qed.

Lemma server_on_datagram_reject data addr :
  malformed 13 MSG_TYPE_REQUEST data → Server.on_datagram data addr = Server.Ignore.
Proof.
  intros Hm. unfold Server.on_datagram.
  destruct (Py.len data <? 13) eqn:Hl; [done|].
  apply Z.ltb_ge in Hl. unfold Py.len in Hl.
  rewrite header_fields by lia.
  destruct Hm as [Hm|Hm]; [lia|].
  by rewrite reject_test.
Qed.

Lemma client_on_datagram_total data : Client.on_datagram data ≠ Client.Failed.
Proof.
  unfold Client.on_datagram.
  destruct (Py.len data <? 21) eqn:Hl; [done|].
  apply Z.ltb_ge in Hl. unfold Py.len in Hl.
  rewrite header_fields by lia.
  destruct (_ || _); [done|].
  unfold unpack_from. rewrite decide_True by sizes. done.
Qed.

Lemma client_on_datagram_reject data :
  malformed 21 MSG_TYPE_PAYLOAD data → Client.on_datagram data = Client.Skipped.
Proof.
  intros Hm. unfold Client.on_datagram.
  destruct (Py.len data <? 21) eqn:Hl; [done|].
  apply Z.ltb_ge in Hl. unfold Py.len in Hl.
  rewrite header_fields by lia.
  destruct Hm as [Hm|Hm]; [lia|].
  by rewrite reject_test.
Qed.

Lemma on_offer_total data : Client.on_offer data ≠ Client.OfferFailed.
Proof.
  unfold Client.on_offer.
  destruct (Py.len data <? 9) eqn:Hl; [done|].
  apply Z.ltb_ge in Hl. unfold Py.len in Hl.
  rewrite header_fields by lia.
  destruct (_ && _); [|done].
  unfold unpack_from. rewrite decide_True by sizes. done.
Qed.

Lemma on_offer_reject data :
  malformed 9 MSG_TYPE_OFFER data → Client.on_offer data = Client.NotOffer.
Proof.
  intros Hm. unfold Client.on_offer.
  destruct (Py.len data <? 9) eqn:Hl; [done|].
  apply Z.ltb_ge in Hl. unfold Py.len in Hl.
  rewrite header_fields by lia.
  destruct Hm as [Hm|Hm]; [lia|].
  apply (reject_test MSG_TYPE_OFFER) in Hm.
  rewrite <- negb_andb in Hm. apply negb_true_iff in Hm. by rewrite Hm.
Qed.

(** A size the dispatcher hands to a responder fits the request's 64-bit
    field. *)
Lemma requested_size_range data addr client_address file_size :
  Server.on_datagram data addr = Server.SpawnUdp client_address file_size →
  0 ≤ file_size < 2 ^ 64.
Proof.
  unfold Server.on_datagram.
  destruct (Py.len data <? 13) eqn:Hl; [done|].
  apply Z.ltb_ge in Hl. unfold Py.len in Hl.
  rewrite header_fields by lia.
  destruct (_ || _); [done|].
  unfold unpack_from. rewrite decide_True by sizes.
  cbn [unpack_fields]. intros [= _ <-].
  pose proof (be_value_range (take (field_size cQ) (drop 5 data))) as Hr.
  rewrite length_take in Hr.
  assert (Hpow : 256 ^ Z.of_nat (field_size cQ `min` length (drop 5 data))
                 ≤ 2 ^ 64).
  { change (2 ^ 64) with (256 ^ 8). apply Z.pow_le_mono_r; [lia|].
    change (field_size cQ) with 8%nat. lia. }
  change (field_size cQ) with 8%nat in *. lia.
Qed.

(** C4.  Decoding is total and defensive at the three places where a
    datagram is read (the server's dispatcher, the UDP worker, the
    discovery listener): no buffer, of any length, makes the decoding
    step raise, and a buffer that is too short for the expected message,
    or carries another magic value than 0xABCDDCBA, or another type byte,
    is skipped, the receive loop going on with the next datagram in the
    same state. *)
Theorem decoding_is_defensive (d : Py.bytes) (addr : address) :
  (Server.on_datagram d addr ≠ Server.Crash
   ∧ Client.on_datagram d ≠ Client.Failed
   ∧ Client.on_offer d ≠ Client.OfferFailed)
  ∧ (malformed 13 MSG_TYPE_REQUEST (recvfrom_data 1024 d) →
     ∀ starts later accepts spawned,
       Server.main_loop starts (Datagram d addr :: later) accepts spawned
       = Server.main_loop starts later accepts spawned)
  ∧ (malformed 21 MSG_TYPE_PAYLOAD (recvfrom_data 65535 d) →
     ∀ later st,
       Client.receive_loop (Datagram d addr :: later) st
       = Client.receive_loop later st)
  ∧ (malformed 9 MSG_TYPE_OFFER (recvfrom_data 1024 d) →
     ∀ later, Client.listen (Datagram d addr :: later) = Client.listen later).
Proof.
  split; [|split; [|split]].
  - auto using server_on_datagram_total, client_on_datagram_total, on_offer_total.
  - intros Hm starts later accepts spawned. cbn [Server.main_loop].
    by rewrite server_on_datagram_reject.
  - intros Hm later st. cbn [Client.receive_loop].
    by rewrite client_on_datagram_reject.
  - intros Hm later. cbn [Client.listen]. by rewrite on_offer_reject.
Qed.

Lemma decoding_is_defensive_witness :
  Client.listen [Datagram [] ("10.0.0.7"%string, 4000)] = Client.StillListening.
Proof.
  apply (decoding_is_defensive [] ("10.0.0.7"%string, 4000)).
  left. simpl. lia.
Defined.

(** C7.  For 16-bit port numbers the offer the broadcaster builds and
    sends at a tick (when the send succeeds) is read back by the discovery
    listener as the same UDP port and TCP port, in that order. *)
Theorem offer_roundtrip (udp_port tcp_port : Z) (env : Server.bcast_env)
    (st : Server.bcast_state) (sender : address) (later : list udp_event) :
  0 ≤ udp_port < 65536 → 0 ≤ tcp_port < 65536 →
  Server.stop_set env (Server.tick st) = false →
  Server.send_fails env (Server.tick st) = false →
  ∃ offer st',
    pack [cI; cB; cH; cH] [MAGIC_COOKIE; MSG_TYPE_OFFER; udp_port; tcp_port]
      = Some offer
    ∧ Server.broadcast_step env udp_port tcp_port st = Server.Running st'
    ∧ Server.offers st'
      = Server.offers st
        ++ [(offer, ("255.255.255.255"%string, Server.BROADCAST_LISTEN_PORT))]
    ∧ Client.on_offer offer = Client.Offer udp_port tcp_port
    ∧ Client.listen (Datagram offer sender :: later)
      = Client.Found (fst sender) udp_port tcp_port.
Proof.
  intros Hu Ht Hstop Hsend.
  destruct (pack [cH; cH] [udp_port; tcp_port]) as [ports|] eqn:Hports.
  2: { exfalso. eapply is_Some_None. rewrite <- Hports. apply pack_is_Some.
       repeat constructor; apply in_range_spec; simpl; lia. }
  destruct (pack [cI; cB] [MAGIC_COOKIE; MSG_TYPE_OFFER]) as [hd|] eqn:Hhd;
    [|done].
  pose proof (pack_app _ _ _ _ _ _ Hhd Hports) as Hoffer.
  pose proof (pack_length _ _ _ Hhd) as Lhd.
  pose proof (pack_length _ _ _ Hports) as Lports.
  unfold calcsize in Lhd, Lports. simpl in Lhd, Lports.
  change ([cI; cB] ++ [cH; cH]) with [cI; cB; cH; cH] in Hoffer.
  change ([MAGIC_COOKIE; MSG_TYPE_OFFER] ++ [udp_port; tcp_port])
    with [MAGIC_COOKIE; MSG_TYPE_OFFER; udp_port; tcp_port] in Hoffer.
  assert (Hview : Client.on_offer (hd ++ ports) = Client.Offer udp_port tcp_port).
  { unfold Client.on_offer.
    rewrite len_lt_false by (rewrite length_app, Lhd, Lports; simpl; lia).
    rewrite (unpack_from_pack _ _ _ ports Hhd).
    change ((MAGIC_COOKIE =? MAGIC_COOKIE) && (MSG_TYPE_OFFER =? MSG_TYPE_OFFER))
      with true. cbn iota.
    replace 5%nat with (length hd) by (by rewrite Lhd).
    rewrite <- (app_nil_r ports).
    by rewrite (unpack_from_at _ _ _ hd [] Hports). }
  exists (hd ++ ports). eexists. split; [done|].
  split; [|split; [|split; [done|]]].
  - unfold Server.broadcast_step. rewrite Hstop, Hoffer, Hsend. done.
  - done.
  - cbn [Client.listen]. unfold recvfrom_data.
    rewrite take_ge by (rewrite length_app, Lhd, Lports; simpl; lia).
    by rewrite Hview.
Qed.

Lemma offer_roundtrip_witness :
  Client.listen
    [Datagram (default [] (pack [cI; cB; cH; cH]
                             [MAGIC_COOKIE; MSG_TYPE_OFFER; 2025; 2026]))
       ("192.168.1.5"%string, 40000)]
  = Client.Found "192.168.1.5" 2025 2026.
Proof.
  destruct (offer_roundtrip 2025 2026
              (Server.BcastEnv (λ _, false) (λ _, false)) Server.bcast_init
              ("192.168.1.5"%string, 40000) [])
    as (offer & st' & Hpack & _ & _ & _ & Hlisten);
    [lia | lia | reflexivity | reflexivity |].
  rewrite Hpack. exact Hlisten.
Defined.

End WireFormat.

(** ** The UDP responder *)

Section UdpResponder.
Import Struct Net Server.

Lemma send_segments_all ss addr fs total dummy idxs sock :
  (∀ k, refuses sock k = false) →
  0 ≤ total < 2 ^ 64 →
  Forall (λ i, 0 ≤ i < 2 ^ 64) idxs →
  ∃ packets,
    send_segments ss addr fs total dummy idxs sock
    = (UdpOut (refuses sock) (calls sock + length idxs)
         (outbox sock ++ ((λ p, (p, addr)) <$> packets)), Returned)
    ∧ Forall2 (is_segment ss fs total dummy) idxs packets.
Proof.
  intros Hok Ht Hidx. revert sock Hok.
  induction Hidx as [|i idxs Hi _ IH]; intros sock Hok.
  - exists []. split; [|constructor]. simpl.
    rewrite app_nil_r, Nat.add_0_r. by destruct sock.
  - cbn [send_segments].
    destruct (pack [cI; cB; cQ; cQ] [MAGIC_COOKIE; MSG_TYPE_PAYLOAD; total; i])
      as [header|] eqn:Hp.
    2: { exfalso. eapply is_Some_None. rewrite <- Hp. apply pack_is_Some.
         repeat constructor; apply in_range_spec; simpl; lia. }
    unfold sendto. rewrite Hok.
    set (sock' := UdpOut _ _ _).
    destruct (IH sock') as (packets & Hrun & Hall); [done|].
    eexists (_ :: packets). split.
    + rewrite Hrun. subst sock'. simpl. rewrite <- app_assoc. simpl.
      do 3 f_equal. lia.
    + constructor; [|done]. by exists header.
Qed.

Lemma ceil_div_bounds (ss fs : Z) :
  0 < ss →
  ((fs + ss - 1) / ss - 1) * ss < fs ≤ (fs + ss - 1) / ss * ss.
Proof.
  intros Hss.
  pose proof (Z.div_mod (fs + ss - 1) ss ltac:(lia)) as Hd.
  pose proof (Z.mod_pos_bound (fs + ss - 1) ss Hss) as Hm.
  nia.
Qed.

Lemma range_lookup (n i : Z) :
  0 ≤ i < n → Py.range n !! Z.to_nat i = Some i.
Proof.
  intros Hi. unfold Py.range. rewrite list_lookup_fmap, lookup_seq_lt by lia.
  simpl. f_equal. lia.
Qed.

Lemma range_length (n : Z) : 0 ≤ n → Py.len (Py.range n) = n.
Proof.
  intros Hn. unfold Py.len, Py.range. rewrite length_fmap, length_seq. lia.
Qed.

Lemma slice_to_len (c : byte) (n k : Z) :
  0 ≤ k ≤ n → Py.len (Py.slice_to (Py.repeat_byte c n) k) = k.
Proof.
  intros Hk. unfold Py.len, Py.slice_to, Py.repeat_byte.
  replace (0 <=? k) with true by (symmetry; apply Z.leb_le; lia).
  rewrite length_take, length_replicate. lia.
Qed.

(** C1.  For a requested size [0 <= file_size < 2^64] (the range of the
    request's size field) and a segment size [segment_size > 0], on a
    socket that accepts every send, the responder computes
    [total_segments = ceil(file_size / segment_size)] and sends exactly
    one datagram for each index from 0 to [total_segments - 1], in order;
    datagram [seg_idx] carries the magic value, the payload type,
    [total_segments], [seg_idx] and a payload of
    [min(segment_size, file_size - seg_idx * segment_size)] bytes.  With
    the program's segment size 1024, a request for 2500 bytes is answered
    by 3 datagrams with payloads of 1024, 1024 and 452 bytes. *)
Theorem udp_responder_segments (segment_size file_size : Z)
    (sock : udp_out) (client_address : address) :
  0 < segment_size →
  0 ≤ file_size < 2 ^ 64 →
  (∀ k, refuses sock k = false) →
  let total_segments := (file_size + segment_size - 1) / segment_size in
  ((total_segments - 1) * segment_size < file_size ≤ total_segments * segment_size)
  ∧ (∃ packets,
       handle_udp_request_sized segment_size sock client_address file_size
       = (UdpOut (refuses sock) (calls sock + length packets)
            (outbox sock ++ ((λ p, (p, client_address)) <$> packets)), Returned)
       ∧ Py.len packets = total_segments
       ∧ ∀ seg_idx, 0 ≤ seg_idx < total_segments →
           ∃ packet,
             packets !! Z.to_nat seg_idx = Some packet
             ∧ unpack_from [cI; cB; cQ; cQ] packet 0
               = Some [MAGIC_COOKIE; MSG_TYPE_PAYLOAD; total_segments; seg_idx]
             ∧ Py.len (Py.slice_from packet 21)
               = Z.min segment_size (file_size - seg_idx * segment_size))
  ∧ (Py.len ∘ (λ p, Py.slice_from (fst p) 21))
      <$> outbox (fst (handle_udp_request (UdpOut (λ _, false) 0 [])
                         client_address 2500))
    = [1024; 1024; 452].
Proof.
  intros Hss Hfs Hok total_segments.
  pose proof (ceil_div_bounds segment_size file_size Hss) as Hceil.
  fold total_segments in Hceil.
  assert (Htot : 0 ≤ total_segments < 2 ^ 64) by nia.
  split; [done|]. split; [|by vm_compute].
  unfold handle_udp_request_sized.
  replace (segment_size =? 0) with false by (symmetry; apply Z.eqb_neq; lia).
  fold total_segments.
  destruct (send_segments_all segment_size client_address file_size
              total_segments (Py.repeat_byte "B" segment_size)
              (Py.range total_segments) sock Hok Htot)
    as (packets & Hrun & Hall).
  { unfold Py.range. apply Forall_fmap, Forall_forall. intros k Hk.
    apply elem_of_seq in Hk. simpl. lia. }
  pose proof (Forall2_length _ _ _ Hall) as Hlen.
  exists packets. split; [by rewrite Hrun, Hlen|]. split.
  { unfold Py.len. rewrite <- Hlen. apply range_length. lia. }
  intros seg_idx Hseg.
  pose proof (range_lookup total_segments seg_idx Hseg) as Hlk.
  destruct (Forall2_lookup_l _ _ _ _ _ Hall Hlk) as (packet & Hpk & header & Hhd & ->).
  exists (header ++ Py.slice_to (Py.repeat_byte "B" segment_size)
                      (Z.min segment_size (file_size - seg_idx * segment_size))).
  split; [done|]. split; [by apply unpack_from_pack|].
  unfold Py.slice_from.
  pose proof (pack_length _ _ _ Hhd) as Lhd.
  unfold calcsize in Lhd. simpl in Lhd.
  rewrite drop_app_length' by done.
  apply slice_to_len. nia.
Qed.

Lemma udp_responder_segments_witness :
  ∃ packets,
    handle_udp_request (UdpOut (λ _, false) 0 []) ("10.0.0.9"%string, 5001) 2500
    = (UdpOut (λ _, false) (0 + length packets)
         ([] ++ ((λ p, (p, ("10.0.0.9"%string, 5001))) <$> packets)), Returned)
    ∧ Py.len packets = 3.
Proof.
  destruct (udp_responder_segments 1024 2500 (UdpOut (λ _, false) 0 [])
              ("10.0.0.9"%string, 5001))
    as (_ & (packets & Hrun & Hlen & _) & _);
    [lia | lia | reflexivity |].
  exists packets. split; [exact Hrun | exact Hlen].
Defined.

End UdpResponder.

(** ** The offer broadcaster *)

Section Broadcaster.
Import Struct Server.

Variable env : bcast_env.
Variables udp_port tcp_port : Z.
Hypothesis udp_port_16 : 0 ≤ udp_port < 65536.
Hypothesis tcp_port_16 : 0 ≤ tcp_port < 65536.

Lemma offer_packs :
  is_Some (pack [cI; cB; cH; cH]
             [MAGIC_COOKIE; MSG_TYPE_OFFER; udp_port; tcp_port]).
Proof.
  apply pack_is_Some. repeat constructor; apply in_range_spec; simpl; lia.
Qed.

(** A round with the event clear goes on to the next tick, whether the
    send worked or not. *)
Lemma step_running st :
  stop_set env (tick st) = false →
  ∃ st', broadcast_step env udp_port tcp_port st = Running st'
    ∧ tick st' = S (tick st)
    ∧ sock_closed st' = sock_closed st
    ∧ errors_logged st'
      = (errors_logged st + if send_fails env (tick st) then 1 else 0)%nat
    ∧ (length (offers st') + errors_logged st'
       = S (length (offers st) + errors_logged st))%nat.
Proof.
  intros Hs. unfold broadcast_step. rewrite Hs.
  destruct offer_packs as [offer ->].
  destruct (send_fails env (tick st)); eexists; (split; [done|]); simpl;
    rewrite ?length_app; simpl; repeat split; lia.
Qed.

Lemma step_stopped st st' :
  broadcast_step env udp_port tcp_port st = Stopped st' →
  stop_set env (tick st) = true ∧ tick st' = tick st ∧ sock_closed st' = true.
Proof.
  unfold broadcast_step. destruct (stop_set env (tick st)).
  - by intros [= <-].
  - destruct offer_packs as [offer ->]. by destruct (send_fails env (tick st)).
Qed.

Lemma step_not_died st st' :
  broadcast_step env udp_port tcp_port st ≠ Died st'.
Proof.
  unfold broadcast_step. destruct (stop_set env (tick st)); [done|].
  destruct offer_packs as [offer ->]. by destruct (send_fails env (tick st)).
Qed.

Lemma run_running rounds st :
  (∀ k, tick st ≤ k < tick st + rounds → stop_set env k = false)%nat →
  ∃ st', broadcast_run env udp_port tcp_port rounds st = Running st'
    ∧ tick st' = (tick st + rounds)%nat
    ∧ sock_closed st' = sock_closed st
    ∧ errors_logged st' = (errors_logged st + failed_sends env (tick st) rounds)%nat
    ∧ (length (offers st') + errors_logged st'
       = length (offers st) + errors_logged st + rounds)%nat.
Proof.
  revert st. induction rounds as [|n IH]; intros st Hclear.
  - exists st. unfold failed_sends. simpl. repeat split; lia.
  - destruct (step_running st) as (st1 & Hstep & Ht & Hc & He & Hl).
    { apply Hclear. lia. }
    destruct (IH st1) as (st' & Hrun & Ht' & Hc' & He' & Hl').
    { intros k Hk. apply Hclear. lia. }
    exists st'. cbn [broadcast_run]. rewrite Hstep.
    split; [done|]. repeat split; try lia; try congruence.
    rewrite He', He, Ht. unfold failed_sends. cbn [seq].
    rewrite filter_cons. destruct (send_fails env (tick st)) eqn:Hf.
    + rewrite decide_True by done. simpl. lia.
    + rewrite decide_False by done. lia.
Qed.

Lemma run_stopped rounds st st' :
  broadcast_run env udp_port tcp_port rounds st = Stopped st' →
  stop_set env (tick st') = true
  ∧ (tick st ≤ tick st' < tick st + rounds)%nat
  ∧ (∀ k, tick st ≤ k < tick st' → stop_set env k = false)%nat
  ∧ sock_closed st' = true.
Proof.
  revert st. induction rounds as [|n IH]; intros st; [done|].
  cbn [broadcast_run].
  destruct (broadcast_step env udp_port tcp_port st) as [st1|st1|st1] eqn:Hstep.
  - destruct (stop_set env (tick st)) eqn:Hs.
    { unfold broadcast_step in Hstep. by rewrite Hs in Hstep. }
    destruct (step_running st Hs) as (st2 & Hstep' & Ht & _).
    rewrite Hstep in Hstep'. injection Hstep' as ->.
    intros Hrun. destruct (IH _ Hrun) as (H1 & H2 & H3 & H4).
    repeat split; try done; try lia.
    intros k Hk. destruct (decide (k = tick st)) as [->|]; [done|].
    apply H3. lia.
  - intros [= ->]. destruct (step_stopped _ _ Hstep) as (H1 & H2 & H3).
    rewrite H2. repeat split; try done; lia.
  - by destruct (step_not_died _ _ Hstep).
Qed.

Lemma run_not_died rounds st st' :
  broadcast_run env udp_port tcp_port rounds st ≠ Died st'.
Proof.
  revert st. induction rounds as [|n IH]; intros st; [done|].
  cbn [broadcast_run].
  destruct (broadcast_step env udp_port tcp_port st) as [st1|st1|st1] eqn:Hstep;
    [apply IH | done | by destruct (step_not_died _ _ Hstep)].
Qed.

Lemma run_stops rounds st k :
  (tick st ≤ k < tick st + rounds)%nat → stop_set env k = true →
  ∃ st', broadcast_run env udp_port tcp_port rounds st = Stopped st'.
Proof.
  revert st. induction rounds as [|n IH]; intros st Hk Hset; [lia|].
  cbn [broadcast_run].
  destruct (stop_set env (tick st)) eqn:Hs.
  - unfold broadcast_step. rewrite Hs. eauto.
  - destruct (step_running st Hs) as (st1 & -> & Ht & _).
    apply IH; [|done].
    destruct (decide (k = tick st)) as [->|]; [congruence|lia].
Qed.

(** C8.  With 16-bit ports, a failed send never ends the broadcaster's
    loop.  As long as the stop event is clear the loop is still running
    after any number of rounds, one tick further for every round, each
    failed send having been logged and each other round having sent one
    offer; the loop ends only at a test that finds the stop event set (it
    has then closed its socket), it does end once the event is set, and
    no exception leaves it. *)
Theorem broadcaster_outlives_send_failures (rounds : nat) :
  ((∀ k, (k < rounds)%nat → stop_set env k = false) →
   ∃ st, broadcast_offers env udp_port tcp_port rounds = Running st
     ∧ tick st = rounds
     ∧ errors_logged st = failed_sends env 0 rounds
     ∧ (length (offers st) + errors_logged st = rounds)%nat
     ∧ sock_closed st = false)
  ∧ (∀ st, broadcast_offers env udp_port tcp_port rounds = Stopped st →
       stop_set env (tick st) = true
       ∧ (∀ k, (k < tick st)%nat → stop_set env k = false)
       ∧ sock_closed st = true)
  ∧ (∀ k, (k < rounds)%nat → stop_set env k = true →
       ∃ st, broadcast_offers env udp_port tcp_port rounds = Stopped st)
  ∧ (∀ st, broadcast_offers env udp_port tcp_port rounds ≠ Died st).
Proof.
  unfold broadcast_offers. split; [|split; [|split]];
    [| |intros k Hk Hset; apply (run_stops rounds bcast_init k); simpl; [lia|done]|].
  - intros Hclear.
    destruct (run_running rounds bcast_init) as (st & Hrun & Ht & Hc & He & Hl).
    { intros k Hk. apply Hclear. simpl in Hk. lia. }
    exists st. simpl in *. repeat split; try done; lia.
  - intros st Hrun. destruct (run_stopped _ _ _ Hrun) as (H1 & H2 & H3 & H4).
    repeat split; try done. intros k Hk. apply H3. simpl. lia.
  - intros st. apply run_not_died.
Qed.

End Broadcaster.

(** Every send fails and the event is never set: after five rounds the
    loop is still running, with five errors logged and nothing sent. *)
Lemma broadcaster_outlives_send_failures_witness :
  ∃ st, Server.broadcast_offers (Server.BcastEnv (λ _, false) (λ _, true))
          2025 2026 5 = Server.Running st
    ∧ Server.tick st = 5%nat
    ∧ Server.errors_logged st
      = failed_sends (Server.BcastEnv (λ _, false) (λ _, true)) 0 5
    ∧ (length (Server.offers st) + Server.errors_logged st = 5)%nat
    ∧ Server.sock_closed st = false.
Proof.
  apply (broadcaster_outlives_send_failures
           (Server.BcastEnv (λ _, false) (λ _, true)) 2025 2026
           ltac:(lia) ltac:(lia) 5).
  reflexivity.
Defined.

(** ** The workers' measurements *)

Section Measurements.
Import Struct Net Client.

Lemma truediv_nonzero (a b : Qc) : b ≠ 0%Qc → Py.truediv a b = Some (a / b)%Qc.
Proof. intros H. unfold Py.truediv. by rewrite decide_False. Qed.

(** The guard keeps the division away from zero. *)
Lemma speed_bps_defined (total : Z) (duration : Qc) :
  ∃ speed, speed_bps total duration = Some speed
    ∧ ((0 < duration)%Qc → speed = (Qc_of_Z (total * 8) / duration)%Qc)
    ∧ (duration = 0%Qc → speed = 0%Qc).
Proof.
  unfold speed_bps. destruct (decide (0 < duration)%Qc) as [Hpos|Hneg].
  - exists (Qc_of_Z (total * 8) / duration)%Qc.
    split; [|split; [done|]].
    + apply truediv_nonzero. intros ->. by apply Qclt_not_eq in Hpos.
    + intros ->. by apply Qclt_not_eq in Hpos.
  - exists 0%Qc. split; [done|]. split; [by intros ?|done].
Qed.

Lemma success_percentage_defined (received_count total : Z) :
  ∃ pct, success_percentage received_count total = Some pct
    ∧ (0 < total →
       pct = (Qc_of_Z 100 * Qc_of_Z received_count / Qc_of_Z total)%Qc)
    ∧ (total ≤ 0 → pct = 0%Qc).
Proof.
  unfold success_percentage. destruct (0 <? total) eqn:Hpos.
  - apply Z.ltb_lt in Hpos. eexists. split; [|split; [done|lia]].
    apply truediv_nonzero. intros H.
    apply (f_equal (λ q : Qc, Qnum q)) in H. simpl in H. lia.
  - apply Z.ltb_ge in Hpos. exists 0%Qc. split; [done|]. split; [lia|done].
Qed.

(** *** The UDP worker's bookkeeping *)

Lemma receive_loop_state script st :
  receive_loop script st
  = UdpState
      (total_bytes_received st + payload_bytes (segments_seen script))
      (match total_segments st with
       | None => first_total (segments_seen script)
       | some => some
       end)
      (distinct_indices (segments_seen script) ∪ received_segments st).
Proof.
  revert st. induction script as [|ev later IH]; intros st.
  - simpl. destruct st as [n [t|] s]; simpl; f_equal; try lia;
      unfold distinct_indices; simpl; by rewrite (left_id_L ∅ (∪)).
  - assert (Hstop : st = UdpState (total_bytes_received st + payload_bytes [])
               (match total_segments st with
                | None => first_total [] | some => some end)
               (distinct_indices [] ∪ received_segments st)).
    { destruct st as [n [t|] s]; simpl; f_equal; try lia;
        unfold distinct_indices; simpl; by rewrite (left_id_L ∅ (∪)). }
    destruct ev as [d addr| |]; simpl; try done.
    destruct (on_datagram (recvfrom_data 65535 d)) as [|t c p|]; try done.
    rewrite IH. unfold record_segment, distinct_indices, first_total. simpl.
    f_equal.
    + unfold payload_bytes. simpl. lia.
    + by destruct (total_segments st).
    + rewrite (assoc_L (∪)). f_equal. apply (comm_L (∪)).
Qed.

(** What a UDP worker whose request was sent ends with. *)
Lemma udp_worker_report (env : udp_env) (file_size : Z) (idx : nat) :
  0 ≤ file_size < 2 ^ 64 →
  request_ok env = true →
  let segs := segments_seen (arrivals env) in
  let st := receive_loop (arrivals env) udp_init in
  total_segments st = first_total segs
  ∧ received_segments st = distinct_indices segs
  ∧ ∃ r, udp_download_worker env file_size idx = ([(idx, r)], Returned)
      ∧ udp_received r = payload_bytes segs
      ∧ udp_success r
        = match first_total segs with
          | Some total =>
              if 0 <? total
              then (Qc_of_Z 100
                    * Qc_of_Z (Z.of_nat (size (distinct_indices segs)))
                    / Qc_of_Z total)%Qc
              else 0%Qc
          | None => 0%Qc
          end.
Proof.
  intros Hfs Hreq segs st.
  assert (Hst : st = UdpState (payload_bytes segs) (first_total segs)
                       (distinct_indices segs)).
  { subst st. rewrite receive_loop_state. simpl. f_equal.
    apply (right_id_L ∅ (∪)). }
  split; [by rewrite Hst|]. split; [by rewrite Hst|].
  unfold udp_download_worker.
  destruct (pack [cI; cB; cQ] [MAGIC_COOKIE; MSG_TYPE_REQUEST; file_size])
    as [request_packet|] eqn:Hp.
  2: { exfalso. eapply is_Some_None. rewrite <- Hp. apply pack_is_Some.
       repeat constructor; apply in_range_spec; simpl; lia. }
  rewrite Hreq. fold st. rewrite Hst. simpl.
  destruct (speed_bps_defined (payload_bytes segs) (udp_end env - udp_start env))
    as (speed & -> & _).
  destruct (success_percentage_defined
              (Z.of_nat (size (distinct_indices segs)))
              (default 0 (first_total segs))) as (pct & Hpct & Hpos & Hzero).
  rewrite Hpct. eexists. split; [done|]. split; [done|]. simpl.
  destruct (first_total segs) as [total|]; simpl in *.
  - destruct (0 <? total) eqn:Ht.
    + apply Z.ltb_lt in Ht. auto.
    + apply Z.ltb_ge in Ht. auto.
  - apply Hzero. lia.
Qed.

(** *** Result slots *)

Lemma tcp_worker_writes_once (env : tcp_env) (file_size : Z) (idx : nat) :
  ∃ r, tcp_download_worker env file_size idx = ([(idx, r)], Returned).
Proof.
  unfold tcp_download_worker.
  destruct (speed_bps_defined (snd (tcp_transfer env file_size))
              (tcp_end env - tcp_start env)) as (speed & -> & _).
  by eexists.
Qed.

(** For a size that fits the request's field the UDP worker writes its
    slot once on each of its paths. *)
Lemma udp_worker_writes_once (env : udp_env) (file_size : Z) (idx : nat) :
  0 ≤ file_size < 2 ^ 64 →
  ∃ r, udp_download_worker env file_size idx = ([(idx, r)], Returned).
Proof.
  intros Hfs. destruct (request_ok env) eqn:Hreq.
  - destruct (udp_worker_report env file_size idx Hfs Hreq)
      as (_ & _ & r & Hrun & _). by exists r.
  - unfold udp_download_worker.
    destruct (pack [cI; cB; cQ] [MAGIC_COOKIE; MSG_TYPE_REQUEST; file_size])
      as [request_packet|] eqn:Hp.
    2: { exfalso. eapply is_Some_None. rewrite <- Hp. apply pack_is_Some.
         repeat constructor; apply in_range_spec; simpl; lia. }
    rewrite Hreq. by eexists.
Qed.

Lemma collect_all {R} (rs : list R) : collect (Some <$> rs) = Some rs.
Proof.
  unfold collect. induction rs as [|r rs IH]; [done|].
  rewrite fmap_cons. cbn [mapM]. rewrite IH. done.
Qed.

(** Workers that each write their own slot once fill the whole list. *)
Lemma run_workers_complete {E R}
    (worker : E → Z → nat → list (nat * R) * ending) (envs : list E)
    (file_size : Z) :
  (∀ env i, ∃ r, fst (worker env file_size i) = [(i, r)]) →
  ∃ rs, run_workers worker envs file_size = Some <$> rs
    ∧ length rs = length envs.
Proof.
  intros Hw. unfold run_workers.
  assert (Hgen : ∀ (done_ : list E) (n : nat),
             (length done_ ≤ n)%nat →
             ∃ rs, foldl store (replicate n None)
                     (concat (imap (λ i env, fst (worker env file_size i)) done_))
                   = (Some <$> rs) ++ replicate (n - length done_) None
               ∧ length rs = length done_).
  { intros done_ n. induction done_ as [|env done_ IH] using rev_ind; intros Hn.
    - exists []. simpl. by rewrite Nat.sub_0_r.
    - rewrite length_app in Hn. simpl in Hn.
      destruct IH as (rs & Hrs & Hlen); [lia|].
      destruct (Hw env (length done_)) as [r Hr].
      exists (rs ++ [r]). rewrite imap_app, concat_app, foldl_app, Hrs.
      simpl. rewrite Nat.add_0_r, Hr, app_nil_r. simpl.
      unfold store. simpl. split; [|rewrite !length_app; simpl; lia].
      rewrite <- Hlen, <- (length_fmap Some rs).
      rewrite insert_app_r_alt, Nat.sub_diag by lia.
      rewrite length_fmap, Hlen, length_app. simpl.
      replace (n - length done_)%nat with (S (n - (length done_ + 1))) by lia.
      simpl. by rewrite fmap_app, <- app_assoc. }
  destruct (Hgen envs (length envs)) as (rs & Hrs & Hlen); [lia|].
  exists rs. split; [|done].
  by rewrite Hrs, Nat.sub_diag, app_nil_r.
Qed.

(** With such a size every slot is filled and the results can be printed. *)
Lemma run_test_complete (tcp_envs : list tcp_env) (udp_envs : list udp_env)
    (file_size : Z) :
  0 ≤ file_size < 2 ^ 64 →
  ∃ tcp_lines udp_lines,
    run_test tcp_envs udp_envs file_size = Some (tcp_lines, udp_lines)
    ∧ length tcp_lines = length tcp_envs
    ∧ length udp_lines = length udp_envs.
Proof.
  intros Hfs. unfold run_test.
  destruct (run_workers_complete tcp_download_worker tcp_envs file_size)
    as (trs & -> & Ht).
  { intros env i. destruct (tcp_worker_writes_once env file_size i) as [r ->].
    by exists r. }
  destruct (run_workers_complete udp_download_worker udp_envs file_size)
    as (urs & -> & Hu).
  { intros env i. destruct (udp_worker_writes_once env file_size i Hfs) as [r ->].
    by exists r. }
  rewrite !collect_all. simpl. by exists trs, urs.
Qed.

(** C9.  A size outside the range of the request's 64-bit field (-1, say)
    makes the packing of the request raise, before any handler is in
    place: the UDP worker ends without writing its result slot, and the
    loop that prints the results meets the empty slot. *)
Theorem udp_worker_leaves_slot_empty (env : udp_env) (tcp_envs : list tcp_env)
    (idx : nat) :
  udp_download_worker env (-1) idx = ([], Raised)
  ∧ run_workers udp_download_worker [env] (-1) = [None]
  ∧ run_test tcp_envs [env] (-1) = None.
Proof.
  split; [done|]. split; [done|].
  unfold run_test, run_workers. simpl.
  by destruct (collect _).
Qed.

End Measurements.

(** ** Text: printing and parsing a size *)

Section TextLemmas.
Import Struct Text.

Variable db : unicode_db.

Lemma between_spec lo hi b : between lo hi b = true ↔ lo ≤ b ≤ hi.
Proof. unfold between. rewrite andb_true_iff, !Z.leb_le. done. Qed.

Lemma is_digit_spec c : is_digit c = true ↔ 48 ≤ c ≤ 57.
Proof. apply between_spec. Qed.

Lemma c_isspace_spec c : c_isspace c = true ↔ 9 ≤ c ≤ 13 ∨ c = 32.
Proof.
  unfold c_isspace. rewrite orb_true_iff, between_spec, Z.eqb_eq. done.
Qed.

(** Below 128, the parser's blanks are among the blanks of [strip]. *)
Lemma c_isspace_isspace c : c_isspace c = true → isspace db c = true.
Proof.
  intros [H| ->]%c_isspace_spec; unfold isspace; [|done].
  replace (c <? 128) with true by (symmetry; apply Z.ltb_lt; lia).
  apply orb_true_iff. left. apply orb_true_iff. left. by apply between_spec.
Qed.

(** *** [drop_while] *)

Lemma drop_while_app {A} (p : A → bool) (l w : list A) :
  drop_while p (l ++ w)
  = if forallb p l then drop_while p w else drop_while p l ++ w.
Proof.
  induction l as [|x l IH]; simpl; [done|].
  destruct (p x); simpl; [done|done].
Qed.

Lemma drop_while_nil {A} (p : A → bool) (l : list A) :
  drop_while p l = [] → forallb p l = true.
Proof.
  induction l as [|x l IH]; simpl; [done|]. destruct (p x); [done|done].
Qed.

Lemma drop_while_all {A} (p : A → bool) (l : list A) :
  forallb p l = true → drop_while p l = [].
Proof.
  induction l as [|x l IH]; simpl; [done|]. destruct (p x); [done|done].
Qed.

Lemma drop_while_none {A} (p : A → bool) (l : list A) :
  Forall (λ x, p x = false) l → drop_while p l = l.
Proof. destruct 1 as [|x l Hx _]; simpl; [done|]. by rewrite Hx. Qed.

Lemma drop_while_keeps {A} (p : A → bool) (l : list A) x :
  x ∈ l → p x = false → x ∈ drop_while p l.
Proof.
  intros Hin Hx. induction l as [|y l IH]; [done|]. simpl.
  destruct (p y) eqn:Hy; [|done].
  apply elem_of_cons in Hin as [->|Hin]; [congruence|auto].
Qed.

Lemma forallb_has_false {A} (p : A → bool) (l : list A) x :
  x ∈ l → p x = false → forallb p l = false.
Proof.
  intros Hin Hx. destruct (forallb p l) eqn:E; [|done].
  rewrite forallb_forall in E. rewrite <- Hx. symmetry. apply E.
  by apply list_elem_of_In.
Qed.

(** *** ASCII text through [encode] and [decode] *)

Lemma encode_ascii s : ascii_text s → encode s = Some (byte_of <$> s).
Proof.
  induction 1 as [|c s Hc _ IH]; simpl; [done|].
  unfold encode_char.
  replace (c <? 128) with true by (symmetry; apply Z.ltb_lt; lia).
  simpl. by rewrite IH.
Qed.

Lemma utf8_decode_ascii s : ascii_text s → utf8_decode s = Some s.
Proof.
  induction 1 as [|c s Hc _ IH]; simpl; [done|].
  replace (c <? 128) with true by (symmetry; apply Z.ltb_lt; lia).
  by rewrite IH.
Qed.

Lemma byte_val_of_ascii s : ascii_text s → byte_val <$> (byte_of <$> s) = s.
Proof.
  induction 1 as [|c s Hc _ IH]; simpl; [done|].
  rewrite byte_val_of, Z.mod_small by lia. by f_equal.
Qed.

Lemma decode_ascii s : ascii_text s → decode (byte_of <$> s) = Some s.
Proof.
  intros H. unfold decode. rewrite byte_val_of_ascii by done.
  by apply utf8_decode_ascii.
Qed.

Lemma all_ascii_text s : ascii_text s → all_ascii s = true.
Proof.
  intros H. apply forallb_forall. intros c Hc%list_elem_of_In.
  unfold ascii_text in H. rewrite Forall_forall in H.
  apply Z.ltb_lt. by apply H.
Qed.

(** *** [str(n)] and [int] *)

Lemma digits_spec fuel n :
  (0 < fuel)%nat → 0 ≤ n < 2 ^ Z.of_nat fuel →
  Forall (λ c, is_digit c = true) (digits fuel n)
  ∧ digits fuel n ≠ []
  ∧ digits_value 0 (digits fuel n) = n.
Proof.
  revert n. induction fuel as [|k IH]; intros n Hk Hn; [lia|].
  cbn [digits]. destruct (n <? 10) eqn:Hlt.
  - apply Z.ltb_lt in Hlt. split; [|split; [done|]].
    + constructor; [|constructor]. apply is_digit_spec. lia.
    + unfold digits_value. simpl. lia.
  - apply Z.ltb_ge in Hlt.
    rewrite Nat2Z.inj_succ, Z.pow_succ_r in Hn by lia.
    assert (Hq : 1 ≤ n / 10 < 2 ^ Z.of_nat k).
    { split; [apply Z.div_le_lower_bound; lia|].
      apply Z.div_lt_upper_bound; lia. }
    assert (Hk' : (0 < k)%nat).
    { destruct k; [|lia]. simpl in Hq. lia. }
    destruct (IH (n / 10) Hk') as (Hall & Hne & Hval); [lia|].
    pose proof (Z.mod_pos_bound n 10 ltac:(lia)) as Hm.
    split; [|split].
    + apply Forall_app. split; [done|].
      constructor; [|constructor]. apply is_digit_spec. lia.
    + by destruct (digits k (n / 10)).
    + unfold digits_value in *. rewrite fold_left_app, Hval. simpl.
      pose proof (Z.div_mod n 10 ltac:(lia)). lia.
Qed.

Lemma str_nonneg_spec n :
  0 ≤ n →
  Forall (λ c, is_digit c = true) (str_nonneg n)
  ∧ str_nonneg n ≠ []
  ∧ digits_value 0 (str_nonneg n) = n.
Proof.
  intros Hn. apply digits_spec; [lia|].
  rewrite Nat2Z.inj_succ, Z2Nat.id by apply Z.log2_nonneg.
  destruct (decide (n = 0)) as [->|]; [done|].
  pose proof (Z.log2_spec n ltac:(lia)). lia.
Qed.

Lemma scan_digits_all ds acc :
  Forall (λ c, is_digit c = true) ds →
  scan_digits false acc ds = Some (digits_value acc ds, []).
Proof.
  intros H. revert acc. induction H as [|c ds Hc _ IH]; intros acc; simpl; [done|].
  rewrite Hc. apply IH.
Qed.

Lemma digit_not_space c : is_digit c = true → c_isspace c = false.
Proof.
  intros H%is_digit_spec. apply not_true_is_false.
  intros ?%c_isspace_spec. lia.
Qed.

Lemma parse_unsigned_digits ds :
  Forall (λ c, is_digit c = true) ds → ds ≠ [] →
  parse_unsigned ds = Some (digits_value 0 ds).
Proof.
  intros Hall Hne. destruct ds as [|c ds]; [done|].
  pose proof (Forall_inv Hall) as Hc. simpl in Hc.
  unfold parse_unsigned. by rewrite Hc, (scan_digits_all _ _ Hall).
Qed.

Lemma long_from_digits ds :
  Forall (λ c, is_digit c = true) ds → ds ≠ [] →
  long_from_string ds = Some (digits_value 0 ds)
  ∧ long_from_string (45 :: ds) = Some (- digits_value 0 ds).
Proof.
  intros Hall Hne. pose proof (parse_unsigned_digits ds Hall Hne) as Hp.
  destruct ds as [|c ds]; [done|].
  pose proof (Forall_inv Hall) as Hc. simpl in Hc.
  pose proof (digit_not_space _ Hc) as Hsp.
  pose proof (proj1 (is_digit_spec c) Hc) as Hr.
  unfold long_from_string. split.
  - cbn [drop_while]. rewrite Hsp. unfold split_sign.
    replace (c =? 43) with false by (symmetry; apply Z.eqb_neq; lia).
    replace (c =? 45) with false by (symmetry; apply Z.eqb_neq; lia).
    rewrite Hp. simpl. f_equal; lia.
  - cbn [drop_while]. change (c_isspace 45) with false. cbn iota.
    unfold split_sign.
    change (45 =? 43) with false. change (45 =? 45) with true. cbn iota.
    rewrite Hp. simpl. f_equal; lia.
Qed.

Lemma digits_ascii ds : Forall (λ c, is_digit c = true) ds → ascii_text ds.
Proof.
  intros H. eapply Forall_impl; [exact H|].
  intros c Hc%is_digit_spec. simpl. lia.
Qed.

Lemma str_of_int_ascii n : ascii_text (str_of_int n).
Proof.
  unfold str_of_int. destruct (n <? 0) eqn:E.
  - apply Z.ltb_lt in E. constructor; [lia|].
    apply digits_ascii, str_nonneg_spec. lia.
  - apply Z.ltb_ge in E. by apply digits_ascii, str_nonneg_spec.
Qed.

(** Printing then parsing gives the number back. *)
Lemma int_str_of_int n : int db (str_of_int n) = Some n.
Proof.
  unfold int. rewrite all_ascii_text by apply str_of_int_ascii.
  unfold str_of_int. destruct (n <? 0) eqn:E.
  - apply Z.ltb_lt in E.
    destruct (str_nonneg_spec (- n)) as (Hall & Hne & Hval); [lia|].
    rewrite (proj2 (long_from_digits _ Hall Hne)), Hval. f_equal. lia.
  - apply Z.ltb_ge in E.
    destruct (str_nonneg_spec n E) as (Hall & Hne & Hval).
    by rewrite (proj1 (long_from_digits _ Hall Hne)), Hval.
Qed.

(** *** [strip] *)

Lemma strip_trailing (s ws : str) :
  Forall (λ c, isspace db c = false) s →
  Forall (λ c, isspace db c = true) ws →
  strip db (s ++ ws) = s.
Proof.
  intros Hs Hws. unfold strip.
  assert (Hall : forallb (isspace db) (reverse ws) = true).
  { apply forallb_forall. intros c Hc%list_elem_of_In.
    rewrite Forall_forall in Hws. apply Hws, elem_of_reverse, Hc. }
  destruct s as [|x s].
  - simpl. rewrite (drop_while_all _ ws); [done|].
    apply forallb_forall. intros c Hc%list_elem_of_In.
    rewrite Forall_forall in Hws. by apply Hws.
  - pose proof (Forall_inv Hs) as Hx. simpl in Hx.
    change ((x :: s) ++ ws) with (x :: (s ++ ws)).
    cbn [drop_while]. rewrite Hx.
    change (x :: (s ++ ws)) with ((x :: s) ++ ws).
    rewrite reverse_app, drop_while_app, Hall.
    rewrite drop_while_none by (by apply Forall_reverse).
    apply reverse_involutive.
Qed.

End TextLemmas.

(** ** The TCP responder and the TCP worker *)

Section TcpTransfer.
Import Struct Net Text Server.

Variable db : unicode_db.

Lemma contains_app x a b :
  Py.contains x (a ++ b) = Py.contains x a || Py.contains x b.
Proof. unfold Py.contains. apply existsb_app. Qed.

Lemma byte_of_val b : byte_of (byte_val b) = b.
Proof.
  unfold byte_of. pose proof (byte_val_range b) as Hr.
  rewrite Z.mod_small by done. unfold byte_val.
  by rewrite N2Z.id, Byte.of_to_N.
Qed.

Lemma contains_newline_ascii (s : str) :
  Forall (λ c, 0 ≤ c < 128 ∧ c ≠ 10) s →
  Py.contains newline (byte_of <$> s) = false.
Proof.
  induction 1 as [|c s [Hc Hne] _ IH]; [done|].
  rewrite fmap_cons. change (byte_of c :: (byte_of <$> s))
    with ([byte_of c] ++ (byte_of <$> s)).
  rewrite contains_app, IH, orb_false_r. unfold Py.contains. simpl.
  rewrite orb_false_r. apply not_true_is_false. intros Heq.
  apply Byte.byte_dec_bl in Heq. apply (f_equal byte_val) in Heq.
  rewrite byte_val_of, Z.mod_small in Heq by lia.
  apply Hne. rewrite <- Heq. reflexivity.
Qed.

(** A request that arrives in non-empty pieces, its only newline last,
    is read whole. *)
Lemma read_request_line chunks later data body :
  Forall (λ c, c ≠ []) chunks →
  concat chunks = body ++ [newline] →
  Py.contains newline data = false →
  Py.contains newline body = false →
  read_request ((RecvBytes <$> chunks) ++ later) data
  = (GotLine (data ++ body ++ [newline]), later).
Proof.
  intros Hne. revert data body.
  induction Hne as [|c cs Hc Hcs IH]; intros data body Hcat Hdata Hbody.
  - by destruct body.
  - destruct c as [|b c']; [done|]. cbn [fmap list_fmap app read_request].
    destruct cs as [|c2 cs'].
    + simpl in Hcat. rewrite app_nil_r in Hcat. rewrite Hcat.
      rewrite !contains_app.
      change (Py.contains newline [newline]) with true.
      by rewrite !orb_true_r.
    + assert (Hrest : concat (c2 :: cs') ≠ []).
      { simpl. pose proof (Forall_inv Hcs). by destruct c2. }
      destruct (exists_last Hrest) as (l & z & Hl).
      change (concat ((b :: c') :: c2 :: cs'))
        with ((b :: c') ++ concat (c2 :: cs')) in Hcat.
      rewrite Hl, app_assoc in Hcat.
      apply app_inj_tail in Hcat as [Hb ->].
      assert (Hsmall : Py.contains newline (data ++ b :: c') = false
                       ∧ Py.contains newline l = false).
      { rewrite <- Hb, contains_app in Hbody.
        apply orb_false_iff in Hbody as [H1 H2].
        by rewrite contains_app, Hdata, H1. }
      destruct Hsmall as [H1 H2]. rewrite H1.
      rewrite (IH (data ++ b :: c') l Hl H1 H2).
      by rewrite <- Hb, <- !app_assoc.
Qed.

(** The read loop when the first newline comes with the read [last]. *)
Lemma read_request_reads init last later data :
  Forall (λ c, c ≠ []) init →
  Py.contains newline (data ++ concat init) = false →
  Py.contains newline last = true →
  read_request ((RecvBytes <$> init ++ [last]) ++ later) data
  = (GotLine (data ++ concat init ++ last), later).
Proof.
  intros Hne. revert data.
  induction Hne as [|c cs Hc _ IH]; intros data Hno Hlast.
  - destruct last as [|b l]; [done|]. simpl in Hno |- *.
    rewrite app_nil_r in Hno. by rewrite contains_app, Hlast, orb_true_r.
  - destruct c as [|b c']; [done|].
    change (concat ((b :: c') :: cs)) with ((b :: c') ++ concat cs) in *.
    rewrite app_assoc, contains_app in Hno.
    apply orb_false_iff in Hno as [Hno1 Hno2].
    change ((RecvBytes <$> ((b :: c') :: cs) ++ [last]) ++ later)
      with (RecvBytes (b :: c') :: ((RecvBytes <$> cs ++ [last]) ++ later)).
    cbn [read_request]. rewrite Hno1.
    rewrite (IH (data ++ b :: c')); [|by rewrite contains_app, Hno1, Hno2|done].
    by rewrite <- !app_assoc.
Qed.

(** The read loop on a stream that ends before any newline. *)
Lemma read_request_starved reads tail data :
  Forall (λ c, c ≠ []) reads →
  Py.contains newline (data ++ concat reads) = false →
  stream_ends tail →
  ∃ later,
    read_request ((RecvBytes <$> reads) ++ tail) data
    = (match tail with RecvRaise :: _ => ReadRaised | _ => PeerClosed end,
       later).
Proof.
  intros Hne. revert data.
  induction Hne as [|c cs Hc _ IH]; intros data Hno Hend.
  - destruct Hend as [->|[rest [->| ->]]]; simpl; by eexists.
  - destruct c as [|b c']; [done|].
    cbn [fmap list_fmap app read_request].
    change (concat ((b :: c') :: cs)) with ((b :: c') ++ concat cs) in Hno.
    rewrite app_assoc in Hno. pose proof Hno as Hno'.
    rewrite contains_app in Hno'.
    apply orb_false_iff in Hno' as [-> _]. by apply IH.
Qed.

(** *** The send loop *)

Lemma send_loop_done fs bs dummy conn :
  ¬ bs < fs → send_loop fs bs dummy conn = (conn, Returned).
Proof.
  intros H. rewrite send_loop_equation_1.
  destruct (decide (bs < fs)); [done|]. reflexivity.
Qed.

Lemma send_loop_step fs bs dummy conn :
  bs < fs →
  send_loop fs bs dummy conn
  = match sendall conn (Py.slice_to dummy (Z.min (fs - bs) CHUNK_SIZE)) with
    | (conn', true) => send_loop fs (bs + Z.min (fs - bs) CHUNK_SIZE) dummy conn'
    | (conn', false) => (conn', Raised)
    end.
Proof.
  intros H. rewrite send_loop_equation_1.
  destruct (decide (bs < fs)); [|done]. simpl.
  by destruct (sendall _ _) as [c []].
Qed.


(** *** The receiving loop of the worker *)



(** *** The request of the worker, as the responder reads it *)

Lemma digit_not_isspace c : is_digit c = true → isspace db c = false.
Proof.
  intros H%is_digit_spec. unfold isspace.
  replace (c <? 128) with true by (symmetry; apply Z.ltb_lt; lia).
  apply not_true_is_false.
  rewrite !orb_true_iff, !between_spec, Z.eqb_eq. lia.
Qed.

Lemma str_of_int_chars n :
  Forall (λ c, (0 ≤ c < 128 ∧ c ≠ 10) ∧ isspace db c = false) (str_of_int n).
Proof.
  assert (Hd : ∀ ds, Forall (λ c, is_digit c = true) ds →
               Forall (λ c, (0 ≤ c < 128 ∧ c ≠ 10) ∧ isspace db c = false) ds).
  { intros ds H. eapply Forall_impl; [exact H|]. intros c Hc. simpl.
    split; [apply is_digit_spec in Hc; lia | by apply digit_not_isspace]. }
  unfold str_of_int. destruct (n <? 0) eqn:E.
  - apply Z.ltb_lt in E. constructor; [done|].
    apply Hd, str_nonneg_spec. lia.
  - apply Z.ltb_ge in E. by apply Hd, str_nonneg_spec.
Qed.

Lemma encode_request n :
  encode (str_of_int n ++ [10]) = Some (request_of n).
Proof.
  apply encode_ascii, Forall_app. split.
  - apply str_of_int_ascii.
  - constructor; [lia | constructor].
Qed.

(** Whatever way the request is cut into reads, the responder gets the
    size the worker asked for. *)
Lemma responder_reads_size n chunks later :
  Forall (λ c, c ≠ []) chunks →
  concat chunks = request_of n →
  read_request ((RecvBytes <$> chunks) ++ later) [] = (GotLine (request_of n), later)
  ∧ decode (request_of n) = Some (str_of_int n ++ [10])
  ∧ strip db (str_of_int n ++ [10]) = str_of_int n
  ∧ int db (str_of_int n) = Some n.
Proof.
  intros Hne Hcat.
  pose proof (str_of_int_chars n) as Hchars.
  assert (Hreq : request_of n = (byte_of <$> str_of_int n) ++ [newline]).
  { unfold request_of. by rewrite fmap_app. }
  split; [|split; [|split]].
  - rewrite Hreq in Hcat |- *.
    apply (read_request_line chunks later [] _ Hne Hcat); [done|].
    apply contains_newline_ascii.
    eapply Forall_impl; [exact Hchars|]. by intros c [H _].
  - apply decode_ascii, Forall_app. split.
    + apply str_of_int_ascii.
    + constructor; [lia | constructor].
  - apply strip_trailing.
    + eapply Forall_impl; [exact Hchars|]. by intros c [_ H].
    + by constructor.
  - apply int_str_of_int.
Qed.


End TcpTransfer.

(** ** What the number parser refuses *)

Section ParserRefuses.
Import Struct Net Text Server.

Variable db : unicode_db.

(** The digit scan stops at the latest in front of a character that is
    neither a digit nor an underscore. *)
Lemma scan_stops m z l2 :
  is_digit z = false → z ≠ 95 →
  ∀ p acc v rest,
    scan_digits p acc (m ++ z :: l2) = Some (v, rest) →
    ∃ m', rest = m' ++ z :: l2.
Proof.
  intros Hz Hz'. induction m as [|c m IH]; intros p acc v rest; simpl.
  - rewrite Hz. replace (z =? 95) with false by (symmetry; by apply Z.eqb_neq).
    destruct p; [done|]. intros [= _ <-]. by exists [].
  - destruct (is_digit c); [apply IH|].
    destruct (c =? 95); [destruct p; [done|apply IH]|].
    destruct p; [done|]. intros [= _ <-]. by exists (c :: m).
Qed.

Lemma parse_unsigned_stops m z l2 v :
  is_digit z = false → z ≠ 95 →
  parse_unsigned (m ++ z :: l2) = Some v →
  c_isspace z = true ∧ forallb c_isspace l2 = true.
Proof.
  intros Hz Hz'. unfold parse_unsigned.
  destruct (m ++ z :: l2) as [|c a] eqn:E; [done|].
  destruct (is_digit c); [|done].
  destruct (scan_digits false 0 (c :: a)) as [[v' rest]|] eqn:Hs; [|done].
  destruct (drop_while c_isspace rest) eqn:Hd; [|done]. intros _.
  rewrite <- E in Hs. apply scan_stops in Hs as [m' ->]; [|done..].
  apply drop_while_nil in Hd. rewrite forallb_app in Hd.
  apply andb_true_iff in Hd as [_ Hd]. simpl in Hd.
  by apply andb_true_iff in Hd.
Qed.

(** In a text the parser accepts, a character that is neither a digit
    nor an underscore is a blank with only blanks on one of its sides, or
    the sign with only blanks before it. *)
Lemma long_from_string_shape l1 z l2 n :
  long_from_string (l1 ++ z :: l2) = Some n →
  is_digit z = false → z ≠ 95 →
  (c_isspace z = true
   ∧ (forallb c_isspace l1 = true ∨ forallb c_isspace l2 = true))
  ∨ ((z = 43 ∨ z = 45) ∧ forallb c_isspace l1 = true).
Proof.
  intros Hparse Hz Hz'. unfold long_from_string in Hparse.
  rewrite drop_while_app in Hparse.
  destruct (forallb c_isspace l1) eqn:E1.
  - destruct (c_isspace z) eqn:Ez; [left; auto|]. right. split; [|done].
    cbn [drop_while] in Hparse. rewrite Ez in Hparse.
    unfold split_sign in Hparse.
    destruct (z =? 43) eqn:E43; [apply Z.eqb_eq in E43; auto|].
    destruct (z =? 45) eqn:E45; [apply Z.eqb_eq in E45; auto|].
    unfold parse_unsigned in Hparse. by rewrite Hz in Hparse.
  - left.
    destruct (drop_while c_isspace l1) as [|x m] eqn:Hd.
    { apply drop_while_nil in Hd. congruence. }
    assert (Hm : ∃ sign m', split_sign ((x :: m) ++ z :: l2)
                            = (sign, m' ++ z :: l2)).
    { unfold split_sign. simpl.
      destruct (x =? 43); [by exists 1, m|].
      destruct (x =? 45); [by exists (-1), m|]. by exists 1, (x :: m). }
    destruct Hm as (sign & m' & Hm). rewrite Hm in Hparse.
    destruct (parse_unsigned (m' ++ z :: l2)) as [v|] eqn:Hp; [|done].
    apply parse_unsigned_stops in Hp as [H1 H2]; auto.
Qed.

Lemma not_isspace_not_c_isspace x :
  isspace db x = false → c_isspace x = false.
Proof.
  intros H. apply not_true_is_false. intros Hc.
  apply (c_isspace_isspace db) in Hc. congruence.
Qed.

Lemma ascii_image_nonspace x x' :
  isspace db x = false → ascii_image db x = Some x' → c_isspace x' = false.
Proof.
  intros Hx. unfold ascii_image. destruct (x <? 127) eqn:E.
  - intros [= <-]. by apply not_isspace_not_c_isspace.
  - rewrite Hx. unfold decimal. destruct (x <? 128); [done|].
    destruct (ucd_decimal db x) as [d|]; [|done].
    destruct (between 0 9 d) eqn:Hd; [|done]. simpl. intros [= <-].
    apply between_spec in Hd. apply not_true_is_false.
    intros ?%c_isspace_spec. lia.
Qed.

Lemma to_ascii_has_nonspace s y :
  y ∈ s → isspace db y = false →
  ∃ y', y' ∈ to_ascii db s ∧ c_isspace y' = false.
Proof.
  intros Hin Hy. induction s as [|c r IH]; [by apply elem_of_nil in Hin|].
  simpl. destruct (ascii_image db c) as [a|] eqn:Ha.
  - apply elem_of_cons in Hin as [<-|Hin].
    + exists a. split; [left|]. by apply (ascii_image_nonspace y).
    + destruct (IH Hin) as (y' & H1 & H2). exists y'. split; [by right|done].
  - exists 63. split; [left|done].
Qed.

Lemma to_ascii_split u w :
  to_ascii db (u ++ 10 :: w) = to_ascii db u ++ 10 :: to_ascii db w
  ∨ ∃ pre, to_ascii db (u ++ 10 :: w) = pre ++ [63].
Proof.
  induction u as [|c u IH]; simpl; [by left|].
  destruct (ascii_image db c) as [a|].
  - destruct IH as [->|[pre ->]]; [by left|]. right. by exists (a :: pre).
  - right. by exists [].
Qed.

(** [int] refuses a text with a newline between two characters that are
    not white space. *)
Lemma int_refuses_inner_newline u v x y :
  x ∈ u → isspace db x = false → y ∈ v → isspace db y = false →
  int db (u ++ 10 :: v) = None.
Proof.
  intros Hx Hxs Hy Hys. unfold int.
  destruct (long_from_string _) as [n|] eqn:Hparse; [exfalso|done].
  destruct (all_ascii (u ++ 10 :: v)).
  - apply long_from_string_shape in Hparse as [[_ [H|H]]|[[H|H] _]];
      try done.
    + rewrite (forallb_has_false _ _ x Hx) in H; [done|].
      by apply not_isspace_not_c_isspace.
    + rewrite (forallb_has_false _ _ y Hy) in H; [done|].
      by apply not_isspace_not_c_isspace.
  - destruct (to_ascii_split u v) as [Heq|[pre Heq]]; rewrite Heq in Hparse.
    + destruct (to_ascii_has_nonspace u x Hx Hxs) as (x' & Hx' & Hxs').
      destruct (to_ascii_has_nonspace v y Hy Hys) as (y' & Hy' & Hys').
      apply long_from_string_shape in Hparse as [[_ [H|H]]|[[H|H] _]];
        try done.
      * by rewrite (forallb_has_false _ _ x' Hx' Hxs') in H.
      * by rewrite (forallb_has_false _ _ y' Hy' Hys') in H.
    + apply long_from_string_shape in Hparse as [[H _]|[[H|H] _]]; done.
Qed.

(** Decoding keeps every ASCII byte: the bytes of a longer sequence are
    all above 127. *)
Lemma utf8_decode_keeps_ascii (n : nat) :
  ∀ l t, (length l ≤ n)%nat → utf8_decode l = Some t →
    ∀ c, c ∈ l → c < 128 → c ∈ t.
Proof.
  induction n as [|n IH]; intros l t Hl Hd c Hin Hc.
  { destruct l; [by apply elem_of_nil in Hin | simpl in Hl; lia]. }
  destruct l as [|b0 r0]; [by apply elem_of_nil in Hin|].
  simpl in Hl. cbn [utf8_decode] in Hd.
  assert (Hrec : ∀ r cp, (length r ≤ n)%nat → c ∈ r →
            cons cp <$> utf8_decode r = Some t → c ∈ t).
  { intros r cp Hr Hcr Hdr. destruct (utf8_decode r) as [t'|] eqn:E; [|done].
    injection Hdr as <-. right. by apply (IH r t'). }
  destruct (b0 <? 128) eqn:E0.
  { destruct (utf8_decode r0) as [t'|] eqn:E; [|done]. injection Hd as <-.
    apply elem_of_cons in Hin as [->|Hin]; [left|right].
    apply (IH r0 t'); [lia|done..]. }
  apply Z.ltb_ge in E0.
  apply elem_of_cons in Hin as [->|Hin]; [lia|].
  assert (Hcont : ∀ b, continuation b = true → c ≠ b).
  { intros b [Hb _]%andb_true_iff. apply Z.leb_le in Hb. lia. }
  assert (Hlead : ∀ (lo : bool) hi b, between (if lo then 160 else 128)
                               hi b = true → c ≠ b).
  { intros lo hi b [Hb _]%andb_true_iff. apply Z.leb_le in Hb.
    destruct lo; lia. }
  assert (Hlead4 : ∀ (lo : bool) hi b, between (if lo then 144 else 128)
                                hi b = true → c ≠ b).
  { intros lo hi b [Hb _]%andb_true_iff. apply Z.leb_le in Hb.
    destruct lo; lia. }
  destruct (between 194 223 b0).
  { destruct r0 as [|b1 r1]; [done|].
    destruct (continuation b1) eqn:C1; [|done].
    apply elem_of_cons in Hin as [->|Hin]; [by destruct (Hcont b1 C1)|].
    simpl in Hl. apply (Hrec r1 _ ltac:(lia) Hin Hd). }
  destruct (between 224 239 b0).
  { destruct r0 as [|b1 [|b2 r2]]; [done..|].
    destruct (between _ _ b1 && continuation b2) eqn:C; [|done].
    apply andb_true_iff in C as [C1 C2].
    apply elem_of_cons in Hin as [->|Hin]; [by destruct (Hlead _ _ _ C1)|].
    apply elem_of_cons in Hin as [->|Hin]; [by destruct (Hcont b2 C2)|].
    simpl in Hl. apply (Hrec r2 _ ltac:(lia) Hin Hd). }
  destruct (between 240 244 b0); [|done].
  destruct r0 as [|b1 [|b2 [|b3 r3]]]; [done..|].
  destruct (between _ _ b1 && continuation b2 && continuation b3) eqn:C; [|done].
  apply andb_true_iff in C as [C C3]. apply andb_true_iff in C as [C1 C2].
  apply elem_of_cons in Hin as [->|Hin]; [by destruct (Hlead4 _ _ _ C1)|].
  apply elem_of_cons in Hin as [->|Hin]; [by destruct (Hcont b2 C2)|].
  apply elem_of_cons in Hin as [->|Hin]; [by destruct (Hcont b3 C3)|].
  simpl in Hl. apply (Hrec r3 _ ltac:(lia) Hin Hd).
Qed.

Lemma to_ascii_keeps s z :
  z ∈ s → z < 128 →
  z ∈ to_ascii db s ∨ ∃ pre, to_ascii db s = pre ++ [63].
Proof.
  intros Hin Hz. induction s as [|c r IH]; [by apply elem_of_nil in Hin|].
  simpl. destruct (ascii_image db c) as [a|] eqn:Ha; [|right; by exists []].
  apply elem_of_cons in Hin as [<-|Hin].
  - left. unfold ascii_image in Ha.
    destruct (z <? 127) eqn:E; [injection Ha as <-; left|].
    apply Z.ltb_ge in E. assert (z = 127) as -> by lia. done.
  - destruct (IH Hin) as [H|[pre ->]]; [left; by right|].
    right. by exists (a :: pre).
Qed.

(** [int] refuses a text that holds a foreign character. *)
Lemma int_refuses_foreign s z :
  z ∈ s → foreign_character db z → int db s = None.
Proof.
  intros Hin (Hz & Hd & H95 & H43 & H45 & Hsp). unfold int.
  apply not_isspace_not_c_isspace in Hsp.
  destruct (long_from_string _) as [n|] eqn:Hparse; [exfalso|done].
  assert (Hshape : ∀ a, z ∈ a → long_from_string a = Some n → False).
  { intros a (l1 & l2 & ->)%list_elem_of_split Ha.
    apply long_from_string_shape in Ha as [[H _]|[[H|H] _]]; congruence. }
  destruct (all_ascii s); [by apply (Hshape s)|].
  destruct (to_ascii_keeps s z Hin Hz) as [H|[pre Heq]];
    [by apply (Hshape (to_ascii db s))|].
  rewrite Heq in Hparse.
  apply long_from_string_shape in Hparse as [[H _]|[[H|H] _]]; done.
Qed.

Lemma strip_keeps s z : z ∈ s → isspace db z = false → z ∈ strip db s.
Proof.
  intros Hin Hz. unfold strip. apply elem_of_reverse.
  apply drop_while_keeps; [|done]. apply elem_of_reverse.
  by apply drop_while_keeps.
Qed.

(** A buffer with a byte that is a foreign character yields no size. *)
Lemma foreign_byte_no_size (data : Py.bytes) (b : byte) :
  b ∈ data → foreign_character db (byte_val b) →
  (text ← decode data; int db (strip db text)) = None.
Proof.
  intros Hin Hf. unfold decode.
  destruct (utf8_decode (byte_val <$> data)) as [text|] eqn:Hd; [|done].
  simpl. apply (int_refuses_foreign _ (byte_val b)); [|done].
  apply strip_keeps; [|apply Hf].
  apply (utf8_decode_keeps_ascii _ _ _ (Nat.le_refl _) Hd).
  - apply list_elem_of_fmap. by exists b.
  - destruct Hf as [H _]. lia.
Qed.

(** [strip] keeps such a newline and what is around it. *)
Lemma strip_inner_newline u v x y :
  x ∈ u → isspace db x = false → y ∈ v → isspace db y = false →
  ∃ u' v', strip db (u ++ 10 :: v) = u' ++ 10 :: v' ∧ x ∈ u' ∧ y ∈ v'.
Proof.
  intros Hx Hxs Hy Hys. unfold strip.
  rewrite drop_while_app, (forallb_has_false _ _ x Hx Hxs).
  set (u1 := drop_while (isspace db) u).
  assert (Hx1 : x ∈ u1) by (by apply drop_while_keeps).
  rewrite reverse_app, reverse_cons, <- app_assoc.
  rewrite drop_while_app, (forallb_has_false _ (reverse v) y);
    [|by apply elem_of_reverse|done].
  set (v1 := drop_while (isspace db) (reverse v)).
  assert (Hy1 : y ∈ v1).
  { apply drop_while_keeps; [by apply elem_of_reverse|done]. }
  exists u1, (reverse v1).
  rewrite !reverse_app, reverse_involutive. simpl.
  split; [by rewrite <- app_assoc|]. split; [done|by apply elem_of_reverse].
Qed.

End ParserRefuses.

(** ** Requests over TCP *)

Section TcpRequests.
Import Struct Net Text Server.

Variable db : unicode_db.


(** C3 (as amended).  The responder always closes the connection.  It
    writes nothing, and makes no write call, when the stream ends before
    a newline has arrived: the peer closes, or a read raises (a timeout
    for one) and an error is reported.  When the reads do bring a
    newline, the buffer is all that was read up to and with the read
    that holds the first newline, and nothing is written when that
    buffer is not UTF-8 or when [int] refuses its stripped text; so it is
    whenever the buffer holds an ASCII character other than a digit, an
    underscore, a sign or white space.  A size that is negative or zero
    is accepted, not refused, and nothing is written for it either; the
    request the worker sends for a negative size is read as that size. *)
Theorem unusable_request_gets_no_payload (conn : tcp_conn) :
  let served := handle_tcp_connection db conn in
  let untouched := written (fst served) = written conn
                   ∧ send_calls (fst served) = send_calls conn in
  closed (fst served) = true
  ∧ (∀ reads tail,
       Forall (λ c, c ≠ []) reads →
       Py.contains newline (concat reads) = false →
       stream_ends tail →
       incoming conn = (RecvBytes <$> reads) ++ tail →
       untouched
       ∧ snd served = match tail with
                      | RecvRaise :: _ => TcpError
                      | _ => Disconnected
                      end)
  ∧ (∀ init last later,
       Forall (λ c, c ≠ []) init →
       Py.contains newline (concat init) = false →
       Py.contains newline last = true →
       incoming conn = (RecvBytes <$> init ++ [last]) ++ later →
       (decode (concat init ++ last) = None →
        untouched ∧ snd served = TcpError)
       ∧ (∀ text, decode (concat init ++ last) = Some text →
            int db (strip db text) = None →
            untouched ∧ snd served = InvalidSize (strip db text))
       ∧ (∀ b, b ∈ concat init ++ last →
            foreign_character db (byte_val b) →
            untouched
            ∧ (snd served = TcpError ∨ ∃ line, snd served = InvalidSize line)))
  ∧ (parsed_size db conn = None →
     written (fst served) = written conn
     ∧ (snd served = Disconnected ∨ snd served = TcpError
        ∨ ∃ line, snd served = InvalidSize line))
  ∧ (∀ n, parsed_size db conn = Some n → n ≤ 0 →
       written (fst served) = written conn ∧ snd served = DoneSending n)
  ∧ (∀ n reads later,
       n < 0 → Forall (λ c, c ≠ []) reads → concat reads = request_of n →
       incoming conn = (RecvBytes <$> reads) ++ later →
       parsed_size db conn = Some n)
  ∧ (∀ data later b,
       read_request (incoming conn) [] = (GotLine data, later) →
       b ∈ data → foreign_character db (byte_val b) →
       parsed_size db conn = None).
Proof.
  intros served untouched. subst served untouched.
  split; [|split; [|split]].
  - unfold handle_tcp_connection.
    destruct (read_request (incoming conn) []) as [[data| |] later]; try done.
    destruct (decode data) as [text|]; [|done].
    destruct (int db (strip db text)) as [n|]; [|done].
    by destruct (send_loop _ _ _ _) as [c []].
  - intros reads tail Hne Hno Hend Hin.
    destruct (read_request_starved reads tail [] Hne Hno Hend) as [later Hr].
    unfold handle_tcp_connection. rewrite Hin, Hr.
    destruct Hend as [->|[rest [->| ->]]]; done.
  - intros init last later Hne Hno Hlast Hin.
    pose proof (read_request_reads init last later [] Hne Hno Hlast) as Hr.
    simpl in Hr.
    assert (Hrefused : ∀ text, decode (concat init ++ last) = Some text →
              int db (strip db text) = None →
              (written (fst (handle_tcp_connection db conn)) = written conn
               ∧ send_calls (fst (handle_tcp_connection db conn))
                 = send_calls conn)
              ∧ snd (handle_tcp_connection db conn)
                = InvalidSize (strip db text)).
    { intros text Hdec Hint. unfold handle_tcp_connection.
      by rewrite Hin, Hr, Hdec, Hint. }
    assert (Hundecoded : decode (concat init ++ last) = None →
              (written (fst (handle_tcp_connection db conn)) = written conn
               ∧ send_calls (fst (handle_tcp_connection db conn))
                 = send_calls conn)
              ∧ snd (handle_tcp_connection db conn) = TcpError).
    { intros Hdec. unfold handle_tcp_connection. by rewrite Hin, Hr, Hdec. }
    split; [done|]. split; [done|].
    intros b Hb Hf.
    pose proof (foreign_byte_no_size db _ b Hb Hf) as Hnone.
    destruct (decode (concat init ++ last)) as [text|] eqn:Hdec.
    + destruct (Hrefused text eq_refl Hnone) as [Hu Hs].
      split; [done|]. right. by eexists.
    + destruct (Hundecoded eq_refl) as [Hu Hs]. split; [done|]. by left.
  - unfold handle_tcp_connection, parsed_size.
    destruct (read_request (incoming conn) []) as [got later] eqn:Hread.
    split; [|split; [|split]];
      [| | |intros data later' b [= -> _] Hb Hf;
            by apply (foreign_byte_no_size db data b)].
    + destruct got as [data| |]; simpl; [|by auto..].
      destruct (decode data) as [text|]; simpl; [|by auto].
      destruct (int db (strip db text)) as [n|]; [done|]. eauto.
    + intros n. destruct got as [data| |]; simpl; [|done..].
      destruct (decode data) as [text|]; simpl; [|done].
      intros -> Hn. by rewrite send_loop_done by lia.
    + intros n reads later' Hn Hne Hcat Hin.
      destruct (responder_reads_size db n reads later' Hne Hcat)
        as (Hr & Hdec & Hstrip & Hint).
      rewrite Hin, Hr in Hread. injection Hread as <- <-.
      simpl. rewrite Hdec. simpl. by rewrite Hstrip.
Qed.

(** C10 (as amended).  When the text the responder has read holds a
    newline with a character that is not white space before it and
    another after it, the whole stripped buffer, newline included, is what
    [int] is given; [int] refuses it, and the responder reports an invalid
    size and closes without writing anything. *)
Theorem text_after_newline_is_refused (conn : tcp_conn) (data : Py.bytes)
    (later : list recv_result) (text u v : str) (x y : Z) :
  read_request (incoming conn) [] = (GotLine data, later) →
  decode data = Some text →
  text = u ++ 10 :: v →
  x ∈ u → isspace db x = false →
  y ∈ v → isspace db y = false →
  10 ∈ strip db text
  ∧ int db (strip db text) = None
  ∧ handle_tcp_connection db conn
    = (TcpConn later (send_raises conn) (send_calls conn) (written conn) true,
       InvalidSize (strip db text)).
Proof.
  intros Hread Hdec -> Hx Hxs Hy Hys.
  destruct (strip_inner_newline db u v x y Hx Hxs Hy Hys)
    as (u' & v' & Hstrip & Hx' & Hy').
  assert (Hint : int db (strip db (u ++ 10 :: v)) = None).
  { rewrite Hstrip. by apply (int_refuses_inner_newline db u' v' x y). }
  split; [|split; [done|]].
  - rewrite Hstrip. apply elem_of_app. right. left.
  - unfold handle_tcp_connection. by rewrite Hread, Hdec, Hint.
Qed.

End TcpRequests.


(** C3 (as stated) fails: "1_0" is not a decimal integer in ASCII digits,
    yet the responder answers it with 10 bytes. *)
Lemma underscore_request_counterexample :
  let data := Struct.byte_of <$> [49; 95; 48; 10] in
  let conn := Net.TcpConn [Net.RecvBytes data] (λ _, false) 0 [] false in
  ascii_decimal (request_line data) = false
  ∧ ∀ db,
      snd (Server.handle_tcp_connection db conn) = Server.DoneSending 10
      ∧ Py.len (Net.stream_out (fst (Server.handle_tcp_connection db conn))) = 10.
Proof. split; [done|]. intros db. by vm_compute. Qed.

(** "1" and "2" arrive in two reads, then the read times out before any
    newline: nothing is written and an error is reported. *)
Lemma unusable_request_gets_no_payload_witness :
  let conn := Net.TcpConn [Net.RecvBytes [Struct.byte_of 49];
                           Net.RecvBytes [Struct.byte_of 50];
                           Net.RecvRaise] (λ _, false) 0 [] false in
  (Net.written (fst (Server.handle_tcp_connection Text.ascii_db conn)) = []
   ∧ Net.send_calls (fst (Server.handle_tcp_connection Text.ascii_db conn))
     = 0%nat)
  ∧ snd (Server.handle_tcp_connection Text.ascii_db conn) = Server.TcpError.
Proof.
  intros conn.
  apply (proj1 (proj2 (unusable_request_gets_no_payload Text.ascii_db conn))
           [[Struct.byte_of 49]; [Struct.byte_of 50]] [Net.RecvRaise]).
  - repeat constructor; discriminate.
  - reflexivity.
  - right. exists []. by left.
  - reflexivity.
Defined.

(** C10 (as stated) fails: a second newline behind the terminating one is
    stripped with it, and the request for 5 bytes is served. *)
Lemma trailing_newline_counterexample :
  let data := Struct.byte_of <$> [53; 10; 10] in
  let conn := Net.TcpConn [Net.RecvBytes data] (λ _, false) 0 [] false in
  Server.read_request (Net.incoming conn) [] = (Server.GotLine data, [])
  ∧ after_newline data = [newline]
  ∧ ∀ db,
      snd (Server.handle_tcp_connection db conn) = Server.DoneSending 5
      ∧ Py.len (Net.stream_out (fst (Server.handle_tcp_connection db conn))) = 5.
Proof. split; [done|]. split; [done|]. intros db. by vm_compute. Qed.

(** "5", a newline and "7" in one read. *)
Lemma text_after_newline_is_refused_witness :
  let data := Struct.byte_of <$> [53; 10; 55] in
  let conn := Net.TcpConn [Net.RecvBytes data] (λ _, false) 0 [] false in
  Server.handle_tcp_connection Text.ascii_db conn
  = (Net.TcpConn [] (λ _, false) 0 [] true, Server.InvalidSize [53; 10; 55]).
Proof.
  intros data conn.
  apply (text_after_newline_is_refused Text.ascii_db conn data [] [53; 10; 55]
           [53] [55] 53 55).
  - reflexivity.
  - reflexivity.
  - reflexivity.
  - left.
  - reflexivity.
  - left.
  - reflexivity.
Defined.

(** ** Requests, offers and the dispatcher *)

Section Dispatch.
Import Struct Net.

Lemma recvfrom_keeps_head (bufsize : Z) (head tail : Py.bytes) :
  Z.of_nat (length head) ≤ bufsize →
  ∃ tail', recvfrom_data bufsize (head ++ tail) = head ++ tail'.
Proof.
  intros H. unfold recvfrom_data. rewrite take_app_ge by lia. eauto.
Qed.

Lemma request_parts file_size request :
  pack [cI; cB; cQ] [MAGIC_COOKIE; MSG_TYPE_REQUEST; file_size] = Some request →
  ∃ hd sz, request = hd ++ sz
    ∧ pack [cI; cB] [MAGIC_COOKIE; MSG_TYPE_REQUEST] = Some hd
    ∧ pack [cQ] [file_size] = Some sz
    ∧ length hd = 5%nat ∧ length sz = 8%nat.
Proof.
  intros Hp.
  destruct (pack [cI; cB] [MAGIC_COOKIE; MSG_TYPE_REQUEST]) as [hd|] eqn:Hhd;
    [|done].
  destruct (pack [cQ] [file_size]) as [sz|] eqn:Hsz.
  2: { cbn in Hp, Hsz. by destruct (in_range cQ file_size). }
  pose proof (pack_app _ _ _ _ _ _ Hhd Hsz) as Happ.
  change ([cI; cB] ++ [cQ]) with [cI; cB; cQ] in Happ.
  change ([MAGIC_COOKIE; MSG_TYPE_REQUEST] ++ [file_size])
    with [MAGIC_COOKIE; MSG_TYPE_REQUEST; file_size] in Happ.
  rewrite Hp in Happ. injection Happ as ->.
  exists hd, sz. repeat split; try done.
  - by apply pack_length in Hhd.
  - by apply pack_length in Hsz.
Qed.

Lemma server_reads_request file_size request tail addr :
  pack [cI; cB; cQ] [MAGIC_COOKIE; MSG_TYPE_REQUEST; file_size] = Some request →
  Server.on_datagram (request ++ tail) addr = Server.SpawnUdp addr file_size.
Proof.
  intros (hd & sz & -> & Hhd & Hsz & Lhd & Lsz)%request_parts.
  unfold Server.on_datagram.
  rewrite len_lt_false by (rewrite !length_app; lia).
  rewrite <- app_assoc, (unpack_from_pack _ _ _ _ Hhd).
  change (negb (MAGIC_COOKIE =? MAGIC_COOKIE)
          || negb (MSG_TYPE_REQUEST =? MSG_TYPE_REQUEST)) with false.
  cbn iota. replace 5%nat with (length hd) by done.
  by rewrite (unpack_from_at _ _ _ hd tail Hsz).
Qed.

(** X1.  For a size in the range of the 64-bit field, the request packet
    the UDP worker builds has 13 bytes and the dispatcher reads it back as
    a request for the same size from the sender's address, whatever bytes
    follow it in the datagram: only a datagram shorter than 13 bytes is
    too short, a longer one is not refused. *)
Theorem request_roundtrip (file_size : Z) (tail : Py.bytes) (addr : address) :
  0 ≤ file_size < 2 ^ 64 →
  ∃ request,
    pack [cI; cB; cQ] [MAGIC_COOKIE; MSG_TYPE_REQUEST; file_size] = Some request
    ∧ length request = 13%nat
    ∧ Server.on_datagram (recvfrom_data 1024 (request ++ tail)) addr
      = Server.SpawnUdp addr file_size.
Proof.
  intros Hfs.
  destruct (pack [cI; cB; cQ] [MAGIC_COOKIE; MSG_TYPE_REQUEST; file_size])
    as [request|] eqn:Hp.
  2: { exfalso. eapply is_Some_None. rewrite <- Hp. apply pack_is_Some.
       repeat constructor; apply in_range_spec; simpl; lia. }
  pose proof (pack_length _ _ _ Hp) as Hlen.
  unfold calcsize in Hlen. simpl in Hlen.
  exists request. split; [done|]. split; [done|].
  destruct (recvfrom_keeps_head 1024 request tail) as [tail' ->]; [lia|].
  by apply server_reads_request.
Qed.

Lemma request_roundtrip_witness :
  ∃ request,
    pack [cI; cB; cQ] [MAGIC_COOKIE; MSG_TYPE_REQUEST; 1000000] = Some request
    ∧ length request = 13%nat
    ∧ Server.on_datagram (recvfrom_data 1024 (request ++ ["255"%byte]))
        ("10.0.0.3"%string, 50000)
      = Server.SpawnUdp ("10.0.0.3"%string, 50000) 1000000.
Proof.
  apply (request_roundtrip 1000000 ["255"%byte] ("10.0.0.3"%string, 50000)).
  lia.
Defined.

(** *** The dispatcher's loop *)

Lemma main_loop_skips starts polls accepts spawned :
  Forall skipped_poll polls →
  Server.main_loop starts polls accepts spawned = (spawned, Server.Interrupted).
Proof.
  induction 1 as [|ev polls (d & addr & -> & Hm) _ IH]; [done|].
  cbn [Server.main_loop]. by rewrite server_on_datagram_reject.
Qed.

(** X2.  A round of the dispatcher that receives a datagram it skips goes
    straight to the next round, without polling the listening socket: as
    long as every poll of the UDP socket brings such a datagram, no TCP
    connection is accepted and no task is started, however many
    connections are waiting. *)
Theorem skipped_datagrams_starve_accept (starts : nat → bool)
    (polls : list udp_event) (accepts : list Server.accept_event)
    (spawned : list Server.task) :
  Forall skipped_poll polls →
  Server.main_loop starts polls accepts spawned = (spawned, Server.Interrupted).
Proof. apply main_loop_skips. Qed.

Lemma skipped_datagrams_starve_accept_witness :
  Server.main_loop (λ _, true)
    [Datagram [] ("10.0.0.4"%string, 1); Datagram ["001"%byte] ("10.0.0.4"%string, 1)]
    [Server.Accepted ("10.0.0.5"%string, 2);
     Server.Accepted ("10.0.0.6"%string, 3)] []
  = ([], Server.Interrupted).
Proof.
  apply skipped_datagrams_starve_accept.
  repeat constructor; eexists _, _; (split; [reflexivity|]); left; simpl; lia.
Defined.

(** What the poll of the listening socket adds to a round. *)
Lemma accept_round starts polls accepts spawned sp extra
    (P : list Server.task * Server.main_end → Prop) :
  (∀ k, starts k = true) →
  Forall (λ a, a ≠ Server.AcceptRaised) accepts →
  filter (λ t, is_udp_task t = true) sp
  = filter (λ t, is_udp_task t = true) spawned ++ extra →
  (∀ accepts' sp',
     Forall (λ a, a ≠ Server.AcceptRaised) accepts' →
     filter (λ t, is_udp_task t = true) sp'
     = filter (λ t, is_udp_task t = true) spawned ++ extra →
     P (Server.main_loop starts polls accepts' sp')) →
  P (match accepts with
     | Server.Accepted caddr :: acc_later =>
         if starts (length sp)
         then Server.main_loop starts polls acc_later
                (sp ++ [Server.TcpTask caddr])
         else (sp, Server.MainCrashed)
     | Server.AcceptTimeout :: acc_later =>
         Server.main_loop starts polls acc_later sp
     | Server.AcceptRaised :: _ => (sp, Server.MainCrashed)
     | [] => Server.main_loop starts polls [] sp
     end).
Proof.
  intros Hstarts Hacc Hsp Hnext.
  destruct Hacc as [|[caddr| |] acc_later Ha Hacc]; [| | |done].
  - by apply Hnext.
  - rewrite Hstarts. apply Hnext; [done|].
    rewrite filter_app, Hsp. simpl.
    rewrite filter_cons_False by done. by rewrite filter_nil, app_nil_r.
  - by apply Hnext.
Qed.

(** X3.  When no poll of either socket raises anything but a timeout and
    every thread can be started, the dispatcher starts one UDP responder
    for each valid request among the datagrams received, in the order of
    arrival, with the sender's address and the requested size, whether
    the polls of the listening socket in between bring a connection or
    time out; repeated requests are not merged. *)
Theorem one_responder_per_request (starts : nat → bool)
    (polls : list udp_event) (accepts : list Server.accept_event)
    (spawned : list Server.task) :
  (∀ k, starts k = true) →
  Forall (λ ev, ev ≠ SockError) polls →
  Forall (λ a, a ≠ Server.AcceptRaised) accepts →
  snd (Server.main_loop starts polls accepts spawned) = Server.Interrupted
  ∧ filter (λ t, is_udp_task t = true)
      (fst (Server.main_loop starts polls accepts spawned))
    = filter (λ t, is_udp_task t = true) spawned ++ requests_in polls.
Proof.
  intros Hstarts Hok. revert accepts spawned.
  induction Hok as [|ev polls Hev _ IH]; intros accepts spawned Hacc.
  { simpl. by rewrite app_nil_r. }
  destruct ev as [d addr| |]; [| |done].
  - cbn [Server.main_loop requests_in].
    pose proof (server_on_datagram_total (recvfrom_data 1024 d) addr) as Htot.
    destruct (Server.on_datagram (recvfrom_data 1024 d) addr) as [|a n|];
      [by apply IH| |done].
    rewrite Hstarts.
    apply (accept_round starts polls accepts spawned
             (spawned ++ [Server.UdpTask a n]) [Server.UdpTask a n]
             (λ run, snd run = Server.Interrupted
                     ∧ filter (λ t, is_udp_task t = true) (fst run)
                       = filter (λ t, is_udp_task t = true) spawned
                         ++ Server.UdpTask a n :: requests_in polls));
      [done|done| |].
    + rewrite filter_app. simpl.
      by rewrite filter_cons_True, filter_nil by done.
    + intros accepts' sp' Hacc' Hsp'.
      destruct (IH accepts' sp' Hacc') as [H1 H2]. split; [done|].
      by rewrite H2, Hsp', <- app_assoc.
  - cbn [Server.main_loop requests_in].
    apply (accept_round starts polls accepts spawned spawned []
             (λ run, snd run = Server.Interrupted
                     ∧ filter (λ t, is_udp_task t = true) (fst run)
                       = filter (λ t, is_udp_task t = true) spawned
                         ++ requests_in polls));
      [done|done|by rewrite app_nil_r|].
    intros accepts' sp' Hacc' Hsp'.
    destruct (IH accepts' sp' Hacc') as [H1 H2]. split; [done|].
    by rewrite H2, Hsp', app_nil_r.
Qed.

(** Two requests from one client and one from another, a datagram that is
    no request and a timeout among them, a connection accepted in
    between. *)
Lemma one_responder_per_request_witness :
  let request := λ n, default [] (pack [cI; cB; cQ]
                                    [MAGIC_COOKIE; MSG_TYPE_REQUEST; n]) in
  let a := ("10.0.0.8"%string, 40001) in
  let b := ("10.0.0.9"%string, 40002) in
  let polls := [Datagram (request 2500) a; Timeout; Datagram ["001"%byte] b;
                Datagram (request 2500) a; Datagram (request 0) b] in
  let accepts := [Server.Accepted ("10.0.0.5"%string, 2);
                  Server.AcceptTimeout] in
  snd (Server.main_loop (λ _, true) polls accepts []) = Server.Interrupted
  ∧ filter (λ t, is_udp_task t = true)
      (fst (Server.main_loop (λ _, true) polls accepts []))
    = filter (λ t, is_udp_task t = true) []
      ++ [Server.UdpTask a 2500; Server.UdpTask a 2500; Server.UdpTask b 0].
Proof.
  intros request a b polls accepts.
  apply (one_responder_per_request (λ _, true) polls accepts []).
  - done.
  - repeat constructor; discriminate.
  - repeat constructor; discriminate.
Defined.

(** *** Discovery *)

Lemma listen_skips pre later :
  Forall no_offer pre → Client.listen (pre ++ later) = Client.listen later.
Proof.
  induction 1 as [|ev pre Hev _ IH]; [done|].
  destruct Hev as [->|(d & addr & -> & Hm)]; cbn [app Client.listen]; [done|].
  by rewrite on_offer_reject.
Qed.

Lemma on_offer_packed udp_port tcp_port offer tail :
  pack [cI; cB; cH; cH] [MAGIC_COOKIE; MSG_TYPE_OFFER; udp_port; tcp_port]
    = Some offer →
  Client.on_offer (offer ++ tail) = Client.Offer udp_port tcp_port.
Proof.
  intros Hp.
  destruct (pack [cI; cB] [MAGIC_COOKIE; MSG_TYPE_OFFER]) as [hd|] eqn:Hhd;
    [|done].
  destruct (pack [cH; cH] [udp_port; tcp_port]) as [ports|] eqn:Hports.
  2: { cbn in Hp, Hports. destruct (in_range cH udp_port); [|done].
       by destruct (in_range cH tcp_port). }
  pose proof (pack_app _ _ _ _ _ _ Hhd Hports) as Happ.
  change ([cI; cB] ++ [cH; cH]) with [cI; cB; cH; cH] in Happ.
  change ([MAGIC_COOKIE; MSG_TYPE_OFFER] ++ [udp_port; tcp_port])
    with [MAGIC_COOKIE; MSG_TYPE_OFFER; udp_port; tcp_port] in Happ.
  rewrite Hp in Happ. injection Happ as ->.
  pose proof (pack_length _ _ _ Hhd) as Lhd.
  pose proof (pack_length _ _ _ Hports) as Lports.
  unfold calcsize in Lhd, Lports. simpl in Lhd, Lports.
  unfold Client.on_offer.
  rewrite len_lt_false by (rewrite !length_app; lia).
  rewrite <- app_assoc, (unpack_from_pack _ _ _ _ Hhd).
  change ((MAGIC_COOKIE =? MAGIC_COOKIE) && (MSG_TYPE_OFFER =? MSG_TYPE_OFFER))
    with true. cbn iota.
  replace 5%nat with (length hd) by done.
  by rewrite (unpack_from_at _ _ _ hd tail Hports).
Qed.

(** X4.  The discovery loop returns the first offer it receives: timeouts
    and datagrams that are no offer in front of it are passed over (a
    timeout does not end the wait), bytes that follow the 9 bytes of the
    offer in its datagram are ignored, the address is the sender's, and
    whatever arrives later, a second offer for one, plays no role. *)
Theorem discovery_takes_first_offer (udp_port tcp_port : Z) (offer tail : Py.bytes)
    (sender : address) (before later : list udp_event) :
  pack [cI; cB; cH; cH] [MAGIC_COOKIE; MSG_TYPE_OFFER; udp_port; tcp_port]
    = Some offer →
  Forall no_offer before →
  Client.listen (before ++ Datagram (offer ++ tail) sender :: later)
  = Client.Found (fst sender) udp_port tcp_port.
Proof.
  intros Hp Hbefore. rewrite listen_skips by done. cbn [Client.listen].
  pose proof (pack_length _ _ _ Hp) as Hlen.
  unfold calcsize in Hlen. simpl in Hlen.
  destruct (recvfrom_keeps_head 1024 offer tail) as [tail' ->]; [lia|].
  by rewrite (on_offer_packed udp_port tcp_port).
Qed.

Lemma discovery_takes_first_offer_witness :
  let offer := default [] (pack [cI; cB; cH; cH]
                             [MAGIC_COOKIE; MSG_TYPE_OFFER; 2025; 2026]) in
  Client.listen
    ([Timeout; Datagram ["001"%byte] ("10.0.0.66"%string, 9)]
     ++ Datagram (offer ++ ["000"%byte]) ("10.0.0.1"%string, 13117)
     :: [Datagram offer ("10.0.0.2"%string, 13117)])
  = Client.Found "10.0.0.1" 2025 2026.
Proof.
  intros offer.
  apply (discovery_takes_first_offer 2025 2026 offer ["000"%byte]
           ("10.0.0.1"%string, 13117)); [reflexivity|].
  constructor; [by left|]. constructor; [|constructor].
  right. eexists _, _. split; [reflexivity|]. left. simpl. lia.
Defined.

End Dispatch.

(** ** Segments from the responder to the worker *)

Section UdpTransfer.
Import Struct Net Client.


(** A buffer that is not malformed is read as a segment: the two 8-byte
    fields behind the header and, as payload, all that follows them. *)
Lemma client_on_datagram_accept data :
  ¬ malformed 21 MSG_TYPE_PAYLOAD data →
  on_datagram data
  = Segment (be_value (take 8 (drop 5 data))) (be_value (take 8 (drop 13 data)))
      (drop 21 data).
Proof.
  intros Hm. unfold malformed in Hm.
  assert (Hlen : (21 ≤ length data)%nat) by lia.
  assert (Hmagic : magic_of data = MAGIC_COOKIE).
  { destruct (decide (magic_of data = MAGIC_COOKIE)); [done|]. tauto. }
  assert (Htype : type_of data = MSG_TYPE_PAYLOAD).
  { destruct (decide (type_of data = MSG_TYPE_PAYLOAD)); [done|]. tauto. }
  unfold on_datagram. rewrite len_lt_false by lia.
  rewrite header_fields by lia. rewrite Hmagic, Htype.
  change (negb (MAGIC_COOKIE =? MAGIC_COOKIE)
          || negb (MSG_TYPE_PAYLOAD =? MSG_TYPE_PAYLOAD)) with false.
  cbn iota. unfold unpack_from. rewrite decide_True by sizes.
  cbn [unpack_fields field_size]. rewrite drop_drop.
  reflexivity.
Qed.

Lemma segments_seen_arriving ds :
  segments_seen (arriving ds) = omap (λ p, segment_of (fst p)) ds.
Proof.
  induction ds as [|[d a] ds IH]; [done|].
  cbn [arriving fmap list_fmap segments_seen omap list_omap fst snd].
  unfold segment_of at 1. fold (arriving ds).
  pose proof (client_on_datagram_total (recvfrom_data 65535 d)) as Htot.
  destruct (on_datagram (recvfrom_data 65535 d)) as [|t c p|]; [done| |done].
  by rewrite IH.
Qed.


Lemma payload_bytes_app s1 s2 :
  payload_bytes (s1 ++ s2) = payload_bytes s1 + payload_bytes s2.
Proof.
  unfold payload_bytes. induction s1 as [|x s1 IH]; simpl; [done|].
  rewrite IH. lia.
Qed.

(** X5.  Every valid payload datagram adds the length of its data less
    the 21 header bytes to the worker's byte count and its index to the set
    of received indices, whether or not that index was received before: a
    datagram that arrives twice is counted twice in the bytes and once in
    the set. *)
Theorem every_payload_datagram_is_counted (ds : list (Py.bytes * address))
    (d : Py.bytes) (a : address) (st : udp_state) :
  let data := recvfrom_data 65535 d in
  ¬ malformed 21 MSG_TYPE_PAYLOAD data →
  total_bytes_received (receive_loop (arriving (ds ++ [(d, a)])) st)
  = total_bytes_received (receive_loop (arriving ds) st) + (Py.len data - 21)
  ∧ received_segments (receive_loop (arriving (ds ++ [(d, a)])) st)
    = {[be_value (take 8 (drop 13 data))]}
      ∪ received_segments (receive_loop (arriving ds) st).
Proof.
  intros data Hm.
  assert (Hseg : segment_of d
                 = Some (be_value (take 8 (drop 5 data)),
                         be_value (take 8 (drop 13 data)), drop 21 data)).
  { unfold segment_of. fold data. by rewrite (client_on_datagram_accept data Hm). }
  rewrite !receive_loop_state, !segments_seen_arriving.
  rewrite omap_app. cbn [omap list_omap fst]. rewrite Hseg.
  set (segs := omap _ ds). simpl. split.
  - rewrite payload_bytes_app. unfold payload_bytes at 2. simpl.
    unfold Py.len. rewrite length_drop.
    assert ((21 ≤ length data)%nat) by (unfold malformed in Hm; lia). lia.
  - unfold distinct_indices. rewrite fmap_app, list_to_set_app_L. simpl.
    rewrite (right_id_L ∅ (∪)), (comm_L (∪) (list_to_set _) {[_]}).
    by rewrite (assoc_L (∪)).
Qed.

Lemma every_payload_datagram_is_counted_witness :
  let d := default [] (head two_segments) in
  total_bytes_received
    (receive_loop (arriving ([(d, ("10.0.0.1"%string, 2025))]
                             ++ [(d, ("10.0.0.1"%string, 2025))])) udp_init)
  = total_bytes_received
      (receive_loop (arriving [(d, ("10.0.0.1"%string, 2025))]) udp_init)
    + (Py.len (recvfrom_data 65535 d) - 21).
Proof.
  intros d.
  apply (every_payload_datagram_is_counted [(d, ("10.0.0.1"%string, 2025))] d
           ("10.0.0.1"%string, 2025) udp_init).
  unfold malformed. vm_compute. intros [H|[H|H]]; [|done..].
  apply Nat.leb_gt in H. discriminate.
Defined.

(** X6.  The set of segment indices the worker ends with depends only on
    which datagrams arrived, not on their order or on how often each one
    arrived. *)
Theorem received_set_ignores_order_and_repeats (ds1 ds2 : list (Py.bytes * address))
    (st : udp_state) :
  (∀ d, d ∈ fst <$> ds1 ↔ d ∈ fst <$> ds2) →
  received_segments (receive_loop (arriving ds1) st)
  = received_segments (receive_loop (arriving ds2) st).
Proof.
  intros Hsame. rewrite !receive_loop_state, !segments_seen_arriving. simpl.
  f_equal. unfold distinct_indices. apply set_eq. intros c.
  rewrite !elem_of_list_to_set, !list_elem_of_fmap.
  assert (Hdir : ∀ da db : list (Py.bytes * address),
            (∀ d, d ∈ fst <$> da → d ∈ fst <$> db) →
            (∃ s, c = snd (fst s) ∧ s ∈ omap (λ p, segment_of (fst p)) da) →
            ∃ s, c = snd (fst s) ∧ s ∈ omap (λ p, segment_of (fst p)) db).
  { intros da db Hsub (s & -> & Hs). exists s. split; [done|].
    apply list_elem_of_omap in Hs as (p & Hp & Hseg).
    assert (Hin : fst p ∈ fst <$> db).
    { apply Hsub, list_elem_of_fmap. by exists p. }
    apply list_elem_of_fmap in Hin as (q & Hq & Hqin).
    apply list_elem_of_omap. exists q. split; [done|]. by rewrite <- Hq. }
  split; apply Hdir; intros d; apply Hsame.
Qed.

Lemma received_set_ignores_order_and_repeats_witness :
  let d0 := (default [] (two_segments !! 0%nat), ("10.0.0.1"%string, 2025)) in
  let d1 := (default [] (two_segments !! 1%nat), ("10.0.0.1"%string, 2025)) in
  received_segments (receive_loop (arriving [d0; d1]) udp_init)
  = received_segments (receive_loop (arriving [d1; d0; d1; d1]) udp_init).
Proof.
  intros d0 d1.
  apply (received_set_ignores_order_and_repeats [d0; d1] [d1; d0; d1; d1]).
  intros d. simpl. rewrite !elem_of_cons. tauto.
Defined.

(** *** What the responder sends, as the worker reads it *)

Local Abbreviation dummy_data := (Py.repeat_byte "B" Server.CHUNK_SIZE).
Local Abbreviation payload_of file_size seg_idx :=
  (Py.slice_to dummy_data
     (Z.min Server.CHUNK_SIZE (file_size - seg_idx * Server.CHUNK_SIZE))).








Lemma range_elem n i : i ∈ Py.range n ↔ 0 ≤ i < n.
Proof.
  unfold Py.range. rewrite list_elem_of_fmap. split.
  - intros (k & -> & Hk). apply elem_of_seq in Hk. lia.
  - intros Hi. exists (Z.to_nat i). split; [lia|]. apply elem_of_seq. lia.
Qed.






(** *** A send that fails *)

Lemma send_segments_aborts ss addr fs total dummy pre i post sock :
  0 ≤ total < 2 ^ 64 →
  Forall (λ i, 0 ≤ i < 2 ^ 64) (pre ++ i :: post) →
  (∀ j, (j < length pre)%nat → refuses sock (calls sock + j) = false) →
  refuses sock (calls sock + length pre) = true →
  ∃ packets,
    Server.send_segments ss addr fs total dummy (pre ++ i :: post) sock
    = (UdpOut (refuses sock) (calls sock + S (length pre))
         (outbox sock ++ ((λ p, (p, addr)) <$> packets)), Server.Returned)
    ∧ Forall2 (is_segment ss fs total dummy) pre packets.
Proof.
  intros Ht. revert sock. induction pre as [|i0 pre IH]; intros sock Hidx Hok Hbad.
  - exists []. split; [|constructor]. cbn [app Server.send_segments].
    apply Forall_inv in Hidx. simpl in Hidx.
    destruct (pack [cI; cB; cQ; cQ] [MAGIC_COOKIE; MSG_TYPE_PAYLOAD; total; i])
      as [header|] eqn:Hp.
    2: { exfalso. eapply is_Some_None. rewrite <- Hp. apply pack_is_Some.
         repeat constructor; apply in_range_spec; simpl; lia. }
    simpl in Hbad. rewrite Nat.add_0_r in Hbad.
    unfold sendto. rewrite Hbad. simpl. rewrite app_nil_r.
    do 2 f_equal. lia.
  - cbn [app Server.send_segments].
    pose proof (Forall_inv Hidx) as Hi0. simpl in Hi0.
    apply Forall_inv_tail in Hidx.
    destruct (pack [cI; cB; cQ; cQ] [MAGIC_COOKIE; MSG_TYPE_PAYLOAD; total; i0])
      as [header|] eqn:Hp.
    2: { exfalso. eapply is_Some_None. rewrite <- Hp. apply pack_is_Some.
         repeat constructor; apply in_range_spec; simpl; lia. }
    unfold sendto.
    rewrite <- (Nat.add_0_r (calls sock)), (Hok 0%nat) by (simpl; lia).
    rewrite Nat.add_0_r. set (sock' := UdpOut _ _ _).
    destruct (IH sock' Hidx) as (packets & Hrun & Hall).
    + intros j Hj. subst sock'. cbn [refuses calls].
      replace (S (calls sock) + j)%nat with (calls sock + S j)%nat by lia.
      apply Hok. simpl. lia.
    + subst sock'. cbn [refuses calls].
      replace (S (calls sock) + length pre)%nat
        with (calls sock + S (length pre))%nat by lia.
      exact Hbad.
    + eexists (_ :: packets). split.
      * rewrite Hrun. subst sock'. simpl. rewrite <- app_assoc. simpl.
        do 3 f_equal. lia.
      * constructor; [|done]. by exists header.
Qed.

Lemma range_split (k : nat) (total : Z) :
  Z.of_nat k < total →
  ∃ post, Py.range total = Py.range (Z.of_nat k) ++ Z.of_nat k :: post.
Proof.
  intros Hk. unfold Py.range. rewrite Nat2Z.id.
  replace (Z.to_nat total) with (k + S (Z.to_nat total - S k))%nat by lia.
  rewrite seq_app, fmap_app. simpl. eauto.
Qed.

(** X9.  A send the socket refuses ends the session at once: when the
    first [k] sends are accepted and the next one raises, the responder
    has sent exactly the segments 0 to [k - 1], makes no further call on
    the socket, and returns normally. *)
Theorem send_error_ends_session (segment_size file_size : Z) (sock : udp_out)
    (client_address : address) (k : nat) :
  0 < segment_size →
  0 ≤ file_size < 2 ^ 64 →
  let total_segments := (file_size + segment_size - 1) / segment_size in
  Z.of_nat k < total_segments →
  (∀ j, (j < k)%nat → refuses sock (calls sock + j) = false) →
  refuses sock (calls sock + k) = true →
  ∃ packets,
    Server.handle_udp_request_sized segment_size sock client_address file_size
    = (UdpOut (refuses sock) (calls sock + S k)
         (outbox sock ++ ((λ p, (p, client_address)) <$> packets)),
       Server.Returned)
    ∧ Forall2 (is_segment segment_size file_size total_segments
                 (Py.repeat_byte "B" segment_size))
        (Py.range (Z.of_nat k)) packets.
Proof.
  intros Hss Hfs total Hk Hok Hbad.
  pose proof (ceil_div_bounds segment_size file_size Hss) as Hceil.
  fold total in Hceil.
  assert (Htot : 0 ≤ total < 2 ^ 64) by nia.
  destruct (range_split k total Hk) as [post Hsplit].
  assert (Hlen : length (Py.range (Z.of_nat k)) = k).
  { unfold Py.range. rewrite length_fmap, length_seq. lia. }
  unfold Server.handle_udp_request_sized.
  replace (segment_size =? 0) with false by (symmetry; apply Z.eqb_neq; lia).
  fold total. rewrite Hsplit.
  destruct (send_segments_aborts segment_size client_address file_size total
              (Py.repeat_byte "B" segment_size) (Py.range (Z.of_nat k))
              (Z.of_nat k) post sock Htot)
    as (packets & Hrun & Hall).
  - rewrite <- Hsplit. apply Forall_forall. intros i Hi%range_elem. lia.
  - by rewrite Hlen.
  - by rewrite Hlen.
  - exists packets. rewrite Hrun, Hlen. done.
Qed.

Lemma send_error_ends_session_witness :
  ∃ packets,
    Server.handle_udp_request_sized 1024
      (UdpOut (λ n, bool_decide (n = 1%nat)) 0 []) ("10.0.0.9"%string, 5001) 5000
    = (UdpOut (λ n, bool_decide (n = 1%nat)) (0 + 2)
         ([] ++ ((λ p, (p, ("10.0.0.9"%string, 5001))) <$> packets)),
       Server.Returned)
    ∧ length packets = 1%nat.
Proof.
  destruct (send_error_ends_session 1024 5000
              (UdpOut (λ n, bool_decide (n = 1%nat)) 0 [])
              ("10.0.0.9"%string, 5001) 1)
    as (packets & Hrun & Hall).
  - lia.
  - lia.
  - reflexivity.
  - intros j Hj. simpl. apply bool_decide_eq_false. lia.
  - reflexivity.
  - exists packets. split; [exact Hrun|].
    apply Forall2_length in Hall. by rewrite <- Hall.
Defined.

End UdpTransfer.

(** ** More on the TCP responder and the TCP worker *)

Section TcpDetails.
Import Struct Net Text.

Variable db : unicode_db.

Local Abbreviation dummy_chunk := (Py.repeat_byte "A" Server.CHUNK_SIZE).

(** Once a size is derived, the handler is its send loop. *)
Lemma handle_parsed conn n :
  parsed_size db conn = Some n →
  ∃ later,
    Server.handle_tcp_connection db conn
    = (let '(c, e) :=
         Server.send_loop n 0 dummy_chunk
           (TcpConn later (send_raises conn) (send_calls conn) (written conn)
              (closed conn)) in
       (close c, match e with
                 | Server.Returned => Server.DoneSending n
                 | Server.Raised => Server.TcpError
                 end)).
Proof.
  unfold parsed_size, Server.handle_tcp_connection.
  destruct (Server.read_request (incoming conn) []) as [[data| |] later];
    [|done..].
  destruct (decode data) as [text|]; [|done]. simpl. intros ->.
  exists later. by destruct (Server.send_loop _ _ _ _) as [c []].
Qed.

Lemma slice_to_dummy k :
  0 ≤ k ≤ Server.CHUNK_SIZE →
  Py.slice_to dummy_chunk k = Py.repeat_byte "A" k.
Proof.
  intros Hk. unfold Py.slice_to, Py.repeat_byte.
  replace (0 <=? k) with true by (symmetry; apply Z.leb_le; lia).
  rewrite take_replicate. f_equal. lia.
Qed.

Lemma full_chunks_step m :
  0 < m →
  full_chunks m
  = Py.repeat_byte "A" (Z.min m Server.CHUNK_SIZE)
    :: full_chunks (m - Z.min m Server.CHUNK_SIZE).
Proof.
  intros Hm. unfold full_chunks, Server.CHUNK_SIZE.
  destruct (decide (m < 1024)) as [Hlt|Hge].
  - rewrite Z.min_l, Z.sub_diag by lia.
    rewrite (Z.div_small m), (Z.mod_small m) by lia.
    replace (m =? 0) with false by (symmetry; apply Z.eqb_neq; lia).
    done.
  - rewrite Z.min_r by lia.
    assert (Hdiv : m / 1024 = (m - 1024) / 1024 + 1).
    { replace m with ((m - 1024) + 1 * 1024) at 1 by lia.
      by rewrite Z.div_add by lia. }
    assert (Hmod : m mod 1024 = (m - 1024) mod 1024).
    { replace m with ((m - 1024) + 1 * 1024) at 1 by lia.
      by rewrite Z.mod_add by lia. }
    rewrite Hdiv, Hmod.
    replace (Z.to_nat ((m - 1024) / 1024 + 1))
      with (S (Z.to_nat ((m - 1024) / 1024))).
    + done.
    + pose proof (Z.div_pos (m - 1024) 1024). lia.
Qed.

Lemma send_loop_chunks n (k : nat) :
  ∀ bs conn,
    Z.to_nat (n - bs) = k → bs ≤ n →
    (∀ j, send_raises conn j = false) →
    Server.send_loop n bs dummy_chunk conn
    = (TcpConn (incoming conn) (send_raises conn)
         (send_calls conn + length (full_chunks (n - bs)))
         (written conn ++ full_chunks (n - bs)) (closed conn),
       Server.Returned).
Proof.
  induction k as [k IH] using lt_wf_ind. intros bs conn Hk Hbs Hok.
  destruct (decide (bs < n)) as [Hlt|Hge].
  - rewrite send_loop_step by done.
    rewrite slice_to_dummy by (unfold Server.CHUNK_SIZE; lia).
    unfold sendall at 1. rewrite Hok.
    set (conn' := TcpConn _ _ _ _ _).
    rewrite (IH (Z.to_nat (n - (bs + Z.min (n - bs) Server.CHUNK_SIZE)))
               ltac:(unfold Server.CHUNK_SIZE; lia) _ conn' eq_refl
               ltac:(lia) Hok).
    rewrite (full_chunks_step (n - bs)) by lia.
    subst conn'. simpl.
    replace (n - (bs + Z.min (n - bs) Server.CHUNK_SIZE))
      with (n - bs - Z.min (n - bs) Server.CHUNK_SIZE) by lia.
    rewrite <- app_assoc. simpl. do 2 f_equal. lia.
  - rewrite send_loop_done by done.
    replace (n - bs) with 0 by lia.
    change (full_chunks 0) with (@nil Py.bytes).
    rewrite app_nil_r, Nat.add_0_r. by destruct conn.
Qed.

(** X10.  For a size [n >= 0] and writes that are all accepted, the
    responder writes [n div 1024] buffers of exactly 1024 bytes and then,
    when [n] is no multiple of 1024, one buffer with the [n mod 1024]
    bytes left; every byte is the filler byte; it then closes and reports
    the transfer done. *)
Theorem responder_writes_full_chunks (conn : tcp_conn) (n : Z) :
  parsed_size db conn = Some n →
  0 ≤ n →
  (∀ j, send_raises conn j = false) →
  let served := Server.handle_tcp_connection db conn in
  written (fst served) = written conn ++ full_chunks n
  ∧ send_calls (fst served) = (send_calls conn + length (full_chunks n))%nat
  ∧ closed (fst served) = true
  ∧ snd served = Server.DoneSending n.
Proof.
  intros Hparsed Hn Hok served. subst served.
  destruct (handle_parsed conn n Hparsed) as [later ->].
  rewrite (send_loop_chunks n (Z.to_nat (n - 0)) 0
             (TcpConn later (send_raises conn) (send_calls conn) (written conn)
                (closed conn)) eq_refl Hn Hok).
  simpl. by rewrite Z.sub_0_r.
Qed.

Lemma send_loop_raises n (k : nat) :
  ∀ bs conn,
    Z.of_nat k * Server.CHUNK_SIZE < n - bs →
    (∀ j, (j < k)%nat → send_raises conn (send_calls conn + j) = false) →
    send_raises conn (send_calls conn + k) = true →
    Server.send_loop n bs dummy_chunk conn
    = (TcpConn (incoming conn) (send_raises conn) (send_calls conn + S k)
         (written conn ++ replicate k dummy_chunk) (closed conn),
       Server.Raised).
Proof.
  induction k as [|k IH]; intros bs conn Hn Hok Hbad.
  - rewrite send_loop_step by lia. unfold sendall.
    rewrite Nat.add_0_r in Hbad. rewrite Hbad. simpl.
    rewrite app_nil_r. do 2 f_equal. lia.
  - rewrite send_loop_step by (unfold Server.CHUNK_SIZE in *; lia).
    unfold sendall at 1.
    rewrite <- (Nat.add_0_r (send_calls conn)), (Hok 0%nat) by lia.
    rewrite Nat.add_0_r. set (conn' := TcpConn _ _ _ _ _).
    assert (Hmin : Z.min (n - bs) Server.CHUNK_SIZE = Server.CHUNK_SIZE)
      by (unfold Server.CHUNK_SIZE in *; lia).
    subst conn'. rewrite Hmin.
    rewrite slice_to_dummy by (unfold Server.CHUNK_SIZE; lia).
    set (conn' := TcpConn _ _ _ _ _).
    rewrite (IH (bs + Server.CHUNK_SIZE) conn').
    + subst conn'. cbn [incoming send_raises send_calls written closed].
      rewrite <- app_assoc. simpl. do 2 f_equal. lia.
    + unfold Server.CHUNK_SIZE in *. lia.
    + intros j Hj. subst conn'. cbn [send_raises send_calls].
      replace (S (send_calls conn) + j)%nat with (send_calls conn + S j)%nat
        by lia.
      apply Hok. lia.
    + subst conn'. cbn [send_raises send_calls].
      replace (S (send_calls conn) + k)%nat with (send_calls conn + S k)%nat
        by lia.
      exact Hbad.
Qed.

(** X11.  A write that raises ends the transfer for that connection: when
    the first [k] writes are accepted, more than [k * 1024] bytes are
    asked for and the next write raises, exactly [k] buffers of 1024 bytes
    have been written, no further write is tried, the connection is closed
    and an error is reported instead of a completed transfer. *)
Theorem write_error_ends_transfer (conn : tcp_conn) (n : Z) (k : nat) :
  parsed_size db conn = Some n →
  Z.of_nat k * Server.CHUNK_SIZE < n →
  (∀ j, (j < k)%nat → send_raises conn (send_calls conn + j) = false) →
  send_raises conn (send_calls conn + k) = true →
  let served := Server.handle_tcp_connection db conn in
  written (fst served) = written conn ++ replicate k dummy_chunk
  ∧ send_calls (fst served) = (send_calls conn + S k)%nat
  ∧ closed (fst served) = true
  ∧ snd served = Server.TcpError.
Proof.
  intros Hparsed Hn Hok Hbad served. subst served.
  destruct (handle_parsed conn n Hparsed) as [later ->].
  rewrite <- (Z.sub_0_r n) in Hn at 1.
  rewrite (send_loop_raises n k 0
             (TcpConn later (send_raises conn) (send_calls conn) (written conn)
                (closed conn)) Hn Hok Hbad). done.
Qed.

End TcpDetails.

Lemma responder_writes_full_chunks_witness :
  let conn := Net.TcpConn [Net.RecvBytes (Struct.byte_of <$> [50; 53; 48; 48; 10])]
                (λ _, false) 0 [] false in
  Net.written (fst (Server.handle_tcp_connection Text.ascii_db conn)) = [] ++ full_chunks 2500.
Proof.
  intros conn.
  apply (responder_writes_full_chunks Text.ascii_db conn 2500);
    [reflexivity | lia | reflexivity].
Defined.

Lemma write_error_ends_transfer_witness :
  let conn := Net.TcpConn [Net.RecvBytes (Struct.byte_of <$> [53; 48; 48; 48; 10])]
                (λ j, bool_decide (j = 2%nat)) 0 [] false in
  Net.written (fst (Server.handle_tcp_connection Text.ascii_db conn))
  = [] ++ replicate 2 (Py.repeat_byte "A" Server.CHUNK_SIZE).
Proof.
  intros conn.
  apply (write_error_ends_transfer Text.ascii_db conn 5000 2).
  - reflexivity.
  - unfold Server.CHUNK_SIZE. lia.
  - intros j Hj. simpl. apply bool_decide_eq_false. lia.
  - reflexivity.
Defined.

(** ** More on the TCP worker *)

Section TcpWorker.
Import Struct Net Client.

Lemma recv_loop_short fs chunks tail total :
  Forall (λ c, c ≠ []) chunks →
  stream_ends tail →
  total + Py.len (concat chunks) < fs →
  recv_loop fs ((RecvBytes <$> chunks) ++ tail) total
  = total + Py.len (concat chunks).
Proof.
  intros Hne Hend. revert total.
  induction Hne as [|c cs Hc _ IH]; intros total Hsum.
  - unfold Py.len in *. simpl in *.
    assert (Hlt : (total <? fs) = true) by (apply Z.ltb_lt; lia).
    rewrite Z.add_0_r.
    destruct Hend as [->|[rest [->| ->]]]; simpl; by rewrite Hlt.
  - destruct c as [|b c']; [done|].
    unfold Py.len in *. simpl in Hsum. rewrite length_app in Hsum.
    cbn [fmap list_fmap app recv_loop].
    replace (total <? fs) with true by (symmetry; apply Z.ltb_lt; lia).
    rewrite IH; unfold Py.len; simpl; rewrite ?length_app; lia.
Qed.

Lemma recv_loop_bound fs script total :
  reads_within 4096 script →
  0 ≤ total → (total = 0 ∨ total < fs + 4096) →
  0 ≤ recv_loop fs script total
  ∧ (recv_loop fs script total = 0 ∨ recv_loop fs script total < fs + 4096).
Proof.
  intros Hreads. revert total.
  induction Hreads as [|r script Hr _ IH]; intros total H0 Hb.
  - simpl. by destruct (total <? fs).
  - simpl. destruct (total <? fs) eqn:E; [|done].
    apply Z.ltb_lt in E.
    destruct r as [[|b data]|]; [done| |done].
    apply IH; unfold Py.len in *; simpl in *; lia.
Qed.

(** With the connection made and the request accepted, the count is that
    of the receiving loop. *)
Lemma tcp_transfer_counts env fs :
  connect_ok env = true →
  send_raises (conn env) (send_calls (conn env)) = false →
  snd (tcp_transfer env fs) = recv_loop fs (incoming (conn env)) 0.
Proof.
  intros Hc Hs. unfold tcp_transfer. rewrite Hc, encode_request.
  unfold sendall. by rewrite Hs.
Qed.

Lemma tcp_transfer_fails env fs :
  connect_ok env = false ∨ send_raises (conn env) (send_calls (conn env)) = true →
  snd (tcp_transfer env fs) = 0.
Proof.
  intros Hbad. unfold tcp_transfer.
  destruct (connect_ok env); [|done].
  destruct Hbad as [?|Hs]; [done|].
  rewrite encode_request. unfold sendall. by rewrite Hs.
Qed.

Lemma tcp_worker_record env fs idx :
  ∃ speed,
    tcp_download_worker env fs idx
    = ([(idx, TcpResult (tcp_end env - tcp_start env) speed
                (snd (tcp_transfer env fs)))], Returned)
    ∧ speed_bps (snd (tcp_transfer env fs)) (tcp_end env - tcp_start env)
      = Some speed.
Proof.
  unfold tcp_download_worker.
  destruct (speed_bps_defined (snd (tcp_transfer env fs))
              (tcp_end env - tcp_start env)) as (speed & Hs & _).
  rewrite Hs. by exists speed.
Qed.

Lemma speed_bps_zero duration : speed_bps 0 duration = Some 0%Qc.
Proof.
  unfold speed_bps. destruct (decide (0 < duration)%Qc) as [Hpos|]; [|done].
  rewrite truediv_nonzero by (intros ->; by apply Qclt_not_eq in Hpos).
  f_equal. unfold Qcdiv. change (0 * 8) with 0. rewrite Z2Qc_inj_0.
  apply Qcmult_0_l.
Qed.

(** X12.  A stream that ends early (the peer closes, or a read raises)
    before the size asked for has arrived: the worker counts exactly the
    bytes that did arrive, fewer than it asked for, and still writes its
    one result. *)
Theorem short_stream_is_counted_as_is (file_size : Z) (idx : nat)
    (env : tcp_env) (reads : list Py.bytes) (tail : list recv_result) :
  connect_ok env = true →
  send_raises (conn env) (send_calls (conn env)) = false →
  incoming (conn env) = (RecvBytes <$> reads) ++ tail →
  Forall (λ c, c ≠ []) reads →
  stream_ends tail →
  Py.len (concat reads) < file_size →
  ∃ r, tcp_download_worker env file_size idx = ([(idx, r)], Returned)
    ∧ tcp_received r = Py.len (concat reads)
    ∧ tcp_received r < file_size.
Proof.
  intros Hc Hs Hin Hne Hend Hshort.
  destruct (tcp_worker_record env file_size idx) as (speed & -> & _).
  eexists. split; [done|]. cbn [tcp_received].
  rewrite tcp_transfer_counts, Hin, recv_loop_short by (done || lia).
  lia.
Qed.

Lemma short_stream_is_counted_as_is_witness :
  let env := TcpEnv 0 1 true
               (TcpConn [RecvBytes ["A"%byte; "A"%byte]; RecvBytes ["A"%byte];
                         RecvBytes []; RecvBytes ["A"%byte]]
                  (λ _, false) 0 [] false) in
  ∃ r, tcp_download_worker env 10 0 = ([(0%nat, r)], Returned)
    ∧ tcp_received r = Py.len (concat [["A"%byte; "A"%byte]; ["A"%byte]])
    ∧ tcp_received r < 10.
Proof.
  intros env.
  apply (short_stream_is_counted_as_is 10 0 env
           [["A"%byte; "A"%byte]; ["A"%byte]]
           [RecvBytes []; RecvBytes ["A"%byte]]).
  - reflexivity.
  - reflexivity.
  - reflexivity.
  - repeat constructor; discriminate.
  - right. exists [RecvBytes ["A"%byte]]. by right.
  - reflexivity.
Defined.

(** X13.  Whatever the connection does, the count the worker reports is
    never negative, is 0 when the size asked for is not positive, and
    exceeds the size asked for by less than one read of 4096 bytes. *)
Theorem count_overshoots_by_less_than_a_read (file_size : Z) (idx : nat)
    (env : tcp_env) :
  reads_within 4096 (incoming (conn env)) →
  ∃ r, tcp_download_worker env file_size idx = ([(idx, r)], Returned)
    ∧ 0 ≤ tcp_received r
    ∧ (file_size ≤ 0 → tcp_received r = 0)
    ∧ tcp_received r < Z.max file_size 0 + 4096.
Proof.
  intros Hreads.
  destruct (tcp_worker_record env file_size idx) as (speed & -> & _).
  eexists. split; [done|]. cbn [tcp_received].
  destruct (connect_ok env) eqn:Hc;
    [destruct (send_raises (conn env) (send_calls (conn env))) eqn:Hs|].
  - rewrite tcp_transfer_fails by auto. lia.
  - rewrite tcp_transfer_counts by done.
    destruct (recv_loop_bound file_size (incoming (conn env)) 0 Hreads)
      as [H0 Hb]; [lia|by left|].
    split; [done|]. split; [|lia].
    intros Hfs. destruct (incoming (conn env)); simpl;
      by replace (0 <? file_size) with false by (symmetry; apply Z.ltb_ge; lia).
  - rewrite tcp_transfer_fails by auto. lia.
Qed.

Lemma count_overshoots_by_less_than_a_read_witness :
  let env := TcpEnv 0 1 true
               (TcpConn [RecvBytes ["A"%byte; "A"%byte]; RecvBytes ["A"%byte]]
                  (λ _, false) 0 [] false) in
  ∃ r, tcp_download_worker env 1 0 = ([(0%nat, r)], Returned)
    ∧ 0 ≤ tcp_received r
    ∧ (1 ≤ 0 → tcp_received r = 0)
    ∧ tcp_received r < Z.max 1 0 + 4096.
Proof.
  intros env.
  apply (count_overshoots_by_less_than_a_read 1 0 env).
  repeat constructor; unfold Py.len; simpl; lia.
Defined.

(** X14.  A connection that cannot be made, or a request the socket
    refuses, is not told apart from an empty transfer: the worker still
    writes its one result, with 0 bytes and a speed of 0 whatever the
    clock says. *)
Theorem failed_connection_reports_zero (file_size : Z) (idx : nat)
    (env : tcp_env) :
  connect_ok env = false
  ∨ send_raises (conn env) (send_calls (conn env)) = true →
  tcp_download_worker env file_size idx
  = ([(idx, TcpResult (tcp_end env - tcp_start env) 0 0)], Returned).
Proof.
  intros Hbad.
  destruct (tcp_worker_record env file_size idx) as (speed & -> & Hspeed).
  rewrite tcp_transfer_fails in Hspeed |- * by done.
  rewrite speed_bps_zero in Hspeed. by injection Hspeed as <-.
Qed.

Lemma failed_connection_reports_zero_witness :
  tcp_download_worker
    (TcpEnv 0 1 false (TcpConn [RecvBytes ["A"%byte]] (λ _, false) 0 [] false))
    1 0
  = ([(0%nat, TcpResult (1 - 0) 0 0)], Returned).
Proof.
  apply (failed_connection_reports_zero 1 0
           (TcpEnv 0 1 false
              (TcpConn [RecvBytes ["A"%byte]] (λ _, false) 0 [] false))).
  by left.
Defined.

End TcpWorker.

(** ** The result slots under any order of the threads *)

Section Slots.
Import Struct Net Client.

(** Writes to different slots commute. *)
Lemma foldl_store_perm {R} (ws ws' : list (nat * R)) :
  ws ≡ₚ ws' → NoDup (ws.*1) →
  ∀ results_list, foldl store results_list ws = foldl store results_list ws'.
Proof.
  induction 1 as [|w ws ws' _ IH|w1 w2 ws|ws1 ws2 ws3 H12 IH12 H23 IH23];
    intros Hnd results_list.
  - done.
  - simpl. apply IH. by apply NoDup_cons in Hnd as [_ ?].
  - simpl. f_equal. unfold store.
    rewrite !fmap_cons in Hnd.
    apply NoDup_cons in Hnd as [Hne _].
    apply list_insert_insert_ne. intros Heq. apply Hne. rewrite <- Heq. left.
  - rewrite IH12 by done. apply IH23. by rewrite <- H12.
Qed.

(** Workers that write at most once, and then their own slot, leave in
    slot [i] what worker [i] wrote. *)
Lemma run_workers_slots {E R}
    (worker : E → Z → nat → list (nat * R) * ending) (envs : list E)
    (file_size : Z) :
  (∀ env i, fst (worker env file_size i) = []
            ∨ ∃ r, fst (worker env file_size i) = [(i, r)]) →
  run_workers worker envs file_size
  = imap (λ i env, slot_of (worker env file_size i)) envs
  ∧ NoDup ((writes_of worker envs file_size).*1).
Proof.
  intros Hw. unfold run_workers, writes_of.
  assert (Hgen : ∀ (done_ : list E) (n : nat),
             (length done_ ≤ n)%nat →
             foldl store (replicate n None)
               (concat (imap (λ i env, fst (worker env file_size i)) done_))
             = imap (λ i env, slot_of (worker env file_size i)) done_
               ++ replicate (n - length done_) None
             ∧ NoDup ((concat (imap (λ i env, fst (worker env file_size i))
                                 done_)).*1)
             ∧ ∀ j, j ∈ (concat (imap (λ i env, fst (worker env file_size i))
                                   done_)).*1 → (j < length done_)%nat).
  { intros done_ n. induction done_ as [|env done_ IH] using rev_ind; intros Hn.
    - simpl. rewrite Nat.sub_0_r. split; [done|]. split; [constructor|].
      intros j Hj. by apply elem_of_nil in Hj.
    - rewrite length_app in Hn |- *. simpl in Hn |- *.
      destruct IH as (Hrs & Hnd & Hlt); [lia|].
      rewrite !imap_app, concat_app, foldl_app, Hrs, fmap_app.
      simpl. rewrite Nat.add_0_r, app_nil_r. unfold slot_of.
      destruct (Hw env (length done_)) as [->|[r ->]]; simpl.
      + rewrite app_nil_r. split; [|split; [done|]].
        * rewrite <- app_assoc. simpl.
          by replace (n - length done_)%nat
            with (S (n - (length done_ + 1))) by lia.
        * intros j Hj. apply Hlt in Hj. lia.
      + split; [|split].
        * unfold store. simpl.
          rewrite <- (length_imap (λ i env, snd <$> head (fst (worker env file_size i)))
                        done_) at 1.
          rewrite insert_app_r_alt, Nat.sub_diag by lia.
          replace (n - length done_)%nat
            with (S (n - (length done_ + 1))) by lia.
          simpl. by rewrite <- app_assoc.
        * apply NoDup_app. split; [done|]. split; [|apply NoDup_singleton].
          intros j Hj Hj'. apply Hlt in Hj.
          apply list_elem_of_singleton in Hj'. lia.
        * intros j [Hj|Hj]%elem_of_app.
          -- apply Hlt in Hj. lia.
          -- apply list_elem_of_singleton in Hj. lia. }
  destruct (Hgen envs (length envs)) as (Hrs & Hnd & _); [lia|].
  split; [|done]. by rewrite Hrs, Nat.sub_diag, app_nil_r.
Qed.

Lemma tcp_worker_own_slot (file_size : Z) (env : tcp_env) (i : nat) :
  fst (tcp_download_worker env file_size i) = []
  ∨ ∃ r, fst (tcp_download_worker env file_size i) = [(i, r)].
Proof.
  right. destruct (tcp_worker_writes_once env file_size i) as [r ->].
  by exists r.
Qed.

Lemma udp_worker_own_slot (file_size : Z) (env : udp_env) (i : nat) :
  fst (udp_download_worker env file_size i) = []
  ∨ ∃ r, fst (udp_download_worker env file_size i) = [(i, r)].
Proof.
  unfold udp_download_worker.
  destruct (pack _ _); [|by left].
  destruct (request_ok env); [|right; by eexists].
  destruct (speed_bps _ _); [|by left].
  destruct (success_percentage _ _); [right; by eexists|by left].
Qed.

(** X15.  The threads end in any order; whatever the order in which the
    workers of a kind make their writes to the shared list, the list is
    the same at the end: as long as the list of environments, with in
    slot [i] what worker [i] wrote, or [None] where worker [i] wrote
    nothing.  No worker overwrites the slot of another. *)
Theorem result_slots_ignore_thread_order (file_size : Z)
    (tcp_envs : list tcp_env) (udp_envs : list udp_env)
    (tcp_writes : list (nat * tcp_result))
    (udp_writes : list (nat * udp_result)) :
  tcp_writes ≡ₚ writes_of tcp_download_worker tcp_envs file_size →
  udp_writes ≡ₚ writes_of udp_download_worker udp_envs file_size →
  foldl store (replicate (length tcp_envs) None) tcp_writes
  = imap (λ i env, slot_of (tcp_download_worker env file_size i)) tcp_envs
  ∧ foldl store (replicate (length udp_envs) None) udp_writes
    = imap (λ i env, slot_of (udp_download_worker env file_size i)) udp_envs.
Proof.
  intros Ht Hu.
  destruct (run_workers_slots tcp_download_worker tcp_envs file_size
              (tcp_worker_own_slot file_size)) as [Htr Htnd].
  destruct (run_workers_slots udp_download_worker udp_envs file_size
              (udp_worker_own_slot file_size)) as [Hur Hund].
  split.
  - rewrite <- Htr. symmetry. apply foldl_store_perm; [by symmetry|done].
  - rewrite <- Hur. symmetry. apply foldl_store_perm; [by symmetry|done].
Qed.

Lemma result_slots_ignore_thread_order_witness :
  let tcp_envs := [TcpEnv 0 1 false (TcpConn [] (λ _, false) 0 [] false);
                   TcpEnv 0 1 true
                     (TcpConn [RecvBytes ["A"%byte]] (λ _, false) 0 [] false)] in
  let udp_envs := [UdpEnv 0 1 true []; UdpEnv 0 1 false []] in
  foldl store (replicate (length tcp_envs) None)
    (reverse (writes_of tcp_download_worker tcp_envs 1))
  = imap (λ i env, slot_of (tcp_download_worker env 1 i)) tcp_envs
  ∧ foldl store (replicate (length udp_envs) None)
      (reverse (writes_of udp_download_worker udp_envs 1))
    = imap (λ i env, slot_of (udp_download_worker env 1 i)) udp_envs.
Proof.
  intros tcp_envs udp_envs.
  apply (result_slots_ignore_thread_order 1 tcp_envs udp_envs);
    apply reverse_Permutation.
Defined.

End Slots.

(** ** The broadcaster with a port that does not fit its field *)

Section BroadcasterPorts.
Import Struct Server.

Lemma offer_unpackable (udp_port tcp_port : Z) :
  ¬ (0 ≤ udp_port < 65536 ∧ 0 ≤ tcp_port < 65536) →
  pack [cI; cB; cH; cH] [MAGIC_COOKIE; MSG_TYPE_OFFER; udp_port; tcp_port]
  = None.
Proof.
  intros Hbad. cbn [pack].
  change (in_range cI MAGIC_COOKIE) with true.
  change (in_range cB MSG_TYPE_OFFER) with true. cbn iota.
  destruct (in_range cH udp_port) eqn:Hu; [|done].
  destruct (in_range cH tcp_port) eqn:Ht; [|done].
  apply in_range_spec in Hu, Ht. simpl in Hu, Ht.
  exfalso. apply Hbad. lia.
Qed.

(** X16.  With a port outside 0..65535 the offer cannot be packed, and
    the packing stands outside the [try]: if the stop event is clear at
    the first test, the broadcaster ends by an exception in its first
    round, however many rounds it is given, having sent no offer, logged
    no error and not closed its socket. *)
Theorem broadcaster_dies_on_unpackable_port (env : bcast_env)
    (udp_port tcp_port : Z) (rounds : nat) :
  ¬ (0 ≤ udp_port < 65536 ∧ 0 ≤ tcp_port < 65536) →
  stop_set env 0 = false →
  broadcast_offers env udp_port tcp_port (S rounds) = Died bcast_init
  ∧ offers bcast_init = [] ∧ sock_closed bcast_init = false.
Proof.
  intros Hbad Hclear. split; [|done].
  unfold broadcast_offers. cbn [broadcast_run]. unfold broadcast_step.
  cbn [tick bcast_init]. by rewrite Hclear, offer_unpackable.
Qed.

Lemma broadcaster_dies_on_unpackable_port_witness :
  broadcast_offers (BcastEnv (λ _, false) (λ _, false)) 65536 2026 5
  = Died bcast_init
  ∧ offers bcast_init = [] ∧ sock_closed bcast_init = false.
Proof.
  apply (broadcaster_dies_on_unpackable_port
           (BcastEnv (λ _, false) (λ _, false)) 65536 2026 4);
    [lia | reflexivity].
Defined.

End BroadcasterPorts.

(** ** A test round of the client *)

Section Round.
Import Struct Net Text Client.

Variable db : unicode_db.

Lemma strip_leading (ws s : str) :
  Forall (λ c, isspace db c = true) ws → strip db (ws ++ s) = strip db s.
Proof.
  intros Hws. unfold strip. rewrite drop_while_app.
  replace (forallb (isspace db) ws) with true; [done|].
  symmetry. apply forallb_forall. intros c Hc%list_elem_of_In.
  rewrite Forall_forall in Hws. by apply Hws.
Qed.

(** [int(input().strip())] reads a typed number. *)
Lemma int_typed (n : Z) (answer : str) :
  typed db n answer → int db (strip db answer) = Some n.
Proof.
  intros (ws1 & ws2 & H1 & H2 & ->).
  rewrite strip_leading, strip_trailing by
    (done || (eapply Forall_impl; [apply (str_of_int_chars db)|];
              by intros c [_ ?])).
  apply int_str_of_int.
Qed.

Lemma read_typed (file_size num_tcp num_udp : Z) (a1 a2 a3 : str) :
  typed db file_size a1 → typed db num_tcp a2 → typed db num_udp a3 →
  read_parameters db a1 a2 a3 = Some (file_size, num_tcp, num_udp).
Proof.
  intros H1 H2 H3. unfold read_parameters.
  by rewrite (int_typed _ _ H1), (int_typed _ _ H2), (int_typed _ _ H3).
Qed.

(** X18.  An answer that holds a character no integer literal holds (a
    letter, a dot, ...) at any of the three prompts ends the round before
    any worker is started. *)
Theorem foreign_answer_skips_round (a1 a2 a3 : str) (z : Z)
    (tcp_world : nat → tcp_env) (udp_world : nat → udp_env) :
  z ∈ a1 ∨ z ∈ a2 ∨ z ∈ a3 →
  foreign_character db z →
  read_parameters db a1 a2 a3 = None
  ∧ run_round db a1 a2 a3 tcp_world udp_world = InvalidInput.
Proof.
  intros Hin Hf.
  assert (Hno : ∀ a, z ∈ a → int db (strip db a) = None).
  { intros a Ha. apply (int_refuses_foreign db _ z); [|done].
    apply strip_keeps; [done|apply Hf]. }
  assert (Hread : read_parameters db a1 a2 a3 = None).
  { unfold read_parameters.
    destruct Hin as [H|[H|H]].
    - by rewrite (Hno _ H).
    - rewrite (Hno _ H). by destruct (int db (strip db a1)).
    - rewrite (Hno _ H).
      destruct (int db (strip db a1)); [|done]. simpl.
      by destruct (int db (strip db a2)). }
  split; [done|]. unfold run_round. by rewrite Hread.
Qed.

End Round.

Lemma foreign_answer_skips_round_witness :
  let world_t := λ _ : nat,
    Client.TcpEnv 0 1 false (Net.TcpConn [] (λ _, false) 0 [] false) in
  let world_u := λ _ : nat, Client.UdpEnv 0 1 false [] in
  Client.read_parameters Text.ascii_db [49; 48] [49; 46; 53] [49] = None
  ∧ Client.run_round Text.ascii_db [49; 48] [49; 46; 53] [49] world_t world_u
    = Client.InvalidInput.
Proof.
  intros world_t world_u.
  apply (foreign_answer_skips_round Text.ascii_db [49; 48] [49; 46; 53] [49] 46).
  - right. left. constructor. constructor.
  - unfold foreign_character. repeat split; (lia || reflexivity).
Defined.

(** ** Binary64 arithmetic *)

Section Binary64.

(** One shift halves the mantissa. *)
Lemma shr_1_half mrs :
  0 ≤ shr_m mrs → shr_m (shr_1 mrs) = shr_m mrs / 2.
Proof.
  destruct mrs as [[|[p|p|]|p] r s]; simpl; intros Hm; try done; try lia.
  - apply (Z.div_unique _ _ _ 1); lia.
  - apply (Z.div_unique _ _ _ 0); lia.
Qed.

Lemma shr_iter_half (k : positive) :
  ∀ mrs, 0 ≤ shr_m mrs →
    shr_m (SpecFloat.iter_pos shr_1 k mrs) = shr_m mrs / 2 ^ Z.pos k.
Proof.
  induction k as [k IH|k IH|]; intros mrs Hm; cbn [SpecFloat.iter_pos].
  - assert (H1 : 0 ≤ shr_m (shr_1 mrs)).
    { rewrite shr_1_half by done. by apply Z.div_pos. }
    assert (H2 : 0 ≤ shr_m (SpecFloat.iter_pos shr_1 k (shr_1 mrs))).
    { rewrite IH by done. apply Z.div_pos; [done|]. by apply Z.pow_pos_nonneg. }
    rewrite IH, IH, shr_1_half by done.
    rewrite !Z.div_div by (try apply Z.pow_pos_nonneg; lia).
    f_equal. replace (Z.pos k~1) with (1 + Z.pos k + Z.pos k) by lia.
    rewrite !Z.pow_add_r by lia. change (2 ^ 1) with 2. lia.
  - assert (H2 : 0 ≤ shr_m (SpecFloat.iter_pos shr_1 k mrs)).
    { rewrite IH by done. apply Z.div_pos; [done|]. by apply Z.pow_pos_nonneg. }
    rewrite IH, IH by done.
    rewrite !Z.div_div by (try apply Z.pow_pos_nonneg; lia).
    f_equal. replace (Z.pos k~0) with (Z.pos k + Z.pos k) by lia.
    rewrite !Z.pow_add_r by lia. lia.
  - rewrite shr_1_half by done. done.
Qed.

(** The number of binary digits of a positive number. *)
Lemma digits2_pos_spec (p : positive) :
  2 ^ (Z.pos (digits2_pos p) - 1) ≤ Z.pos p < 2 ^ Z.pos (digits2_pos p).
Proof.
  induction p as [p IH|p IH|]; cbn [digits2_pos]; [| |done].
  - rewrite Pos2Z.inj_succ.
    replace (Z.succ (Z.pos (digits2_pos p)) - 1)
      with (Z.succ (Z.pos (digits2_pos p) - 1)) by lia.
    rewrite !Z.pow_succ_r by lia. lia.
  - rewrite Pos2Z.inj_succ.
    replace (Z.succ (Z.pos (digits2_pos p)) - 1)
      with (Z.succ (Z.pos (digits2_pos p) - 1)) by lia.
    rewrite !Z.pow_succ_r by lia. lia.
Qed.

(** Rounding to the format keeps a positive mantissa positive. *)
Lemma shr_fexp_positive (m e : Z) (l : location) :
  0 < m → -1074 ≤ e →
  0 < shr_m (fst (shr_fexp Float.prec Float.emax m e l))
  ∧ -1074 ≤ snd (shr_fexp Float.prec Float.emax m e l).
Proof.
  intros Hm He. destruct m as [|p|p]; [lia| |lia].
  unfold shr_fexp, shr. cbn [Zdigits2].
  pose proof (digits2_pos_spec p) as [Hlo _].
  set (d := Z.pos (digits2_pos p)) in *.
  assert (Hd : 1 ≤ d) by (unfold d; lia).
  assert (Hrec : shr_m (shr_record_of_loc (Z.pos p) l) = Z.pos p)
    by (by destruct l as [|[]]).
  unfold fexp, emin, Float.prec, Float.emax.
  destruct (Z.max (d + e - 53) (3 - 1024 - 53) - e) as [|k|k] eqn:Hk;
    cbn [fst snd]; rewrite ?Hrec; [lia| |lia].
  split; [|lia].
  rewrite shr_iter_half by (rewrite Hrec; lia). rewrite Hrec.
  apply Z.div_str_pos. split; [by apply Z.pow_pos_nonneg|].
  transitivity (2 ^ (d - 1)); [|done].
  apply Z.pow_le_mono_r; lia.
Qed.

Lemma round_nearest_even_ge (m : Z) (l : location) :
  m ≤ round_nearest_even m l.
Proof. destruct l as [|[]]; simpl; try lia. destruct (Z.even m); lia. Qed.

Lemma binary_round_aux_nonzero (sx : bool) (m e : Z) (l : location) :
  0 < m → -1074 ≤ e →
  Float.is_zero (binary_round_aux Float.prec Float.emax sx m e l) = false.
Proof.
  intros Hm He. unfold binary_round_aux.
  destruct (shr_fexp_positive m e l Hm He) as [H1 H2].
  destruct (shr_fexp Float.prec Float.emax m e l) as [mrs' e'].
  cbn [fst snd] in H1, H2.
  pose proof (round_nearest_even_ge (shr_m mrs') (loc_of_shr_record mrs')) as Hr.
  destruct (shr_fexp_positive
              (round_nearest_even (shr_m mrs') (loc_of_shr_record mrs')) e'
              loc_Exact ltac:(lia) H2) as [H3 _].
  destruct (shr_fexp Float.prec Float.emax _ e' loc_Exact) as [mrs'' e''].
  cbn [fst] in H3.
  destruct (shr_m mrs'') as [|q|q]; [lia| |lia].
  by destruct (e'' <=? Float.emax - Float.prec).
Qed.

(** The float nearest to an integer other than 0 is not a zero: a
    division by it does not raise. *)
Lemma nearest_nonzero (n : Z) : n ≠ 0 → Float.is_zero (Float.nearest n) = false.
Proof.
  intros Hn. unfold Float.nearest, binary_normalize.
  assert (Hround : ∀ s p,
            Float.is_zero (binary_round Float.prec Float.emax s p 0) = false).
  { intros s p. unfold binary_round, shl_align.
    set (ex' := fexp Float.prec Float.emax (Z.pos (digits2_pos p) + 0)).
    assert (Hex : -1074 ≤ ex')
      by (unfold ex', fexp, emin, Float.prec, Float.emax; lia).
    destruct (ex' - 0) as [|k|k] eqn:Hk;
      apply binary_round_aux_nonzero; lia. }
  destruct n as [|p|p]; [done|apply Hround..].
Qed.

(** The bounds used below, far under the largest float. *)
Lemma pow_1023 : 2 ^ 1023 = 8388608 * 2 ^ 1000 ∧ 0 < 2 ^ 1000.
Proof.
  split; [|by apply Z.pow_pos_nonneg].
  change 8388608 with (2 ^ 23). by rewrite <- Z.pow_add_r.
Qed.

Lemma bits_fit (x n : Z) :
  0 ≤ x ≤ 65535 * n → n < 2 ^ 1000 → Z.abs (x * 8) < 2 ^ 1023.
Proof. destruct pow_1023. lia. Qed.

Lemma stream_bits_fit (x : Z) :
  0 ≤ x < 4097 * 2 ^ 1000 → Z.abs (x * 8) < 2 ^ 1023.
Proof. destruct pow_1023. lia. Qed.

Lemma count_fits (c n : Z) :
  0 ≤ c ≤ n → n < 2 ^ 1000 → Z.abs c < 2 ^ 1023.
Proof. destruct pow_1023. lia. Qed.

Lemma of_int_fits (n : Z) :
  Z.abs n < 2 ^ 1023 → Float.of_int n = Some (Float.nearest n).
Proof.
  intros Hn. unfold Float.of_int.
  replace (Z.abs n <? 2 ^ 1024 - 2 ^ 970) with true; [done|].
  symmetry. apply Z.ltb_lt. lia.
Qed.

(** The conversion raises from the first integer on that rounds to
    [2^1024]: the integer before it still rounds to the largest float. *)
Lemma of_int_threshold :
  Float.of_int (2 ^ 1024 - 2 ^ 970 - 1)
  = Some (S754_finite false 9007199254740991 971)
  ∧ Float.of_int (2 ^ 1024 - 2 ^ 970) = None
  ∧ Float.nearest (2 ^ 1024 - 2 ^ 970) = S754_infinity false
  ∧ Float.hundred = S754_finite false 7036874417766400 (-46).
Proof. repeat split; by vm_compute. Qed.

Lemma positive_nonzero (x : Float.float) :
  Float.positive x = true → Float.is_zero x = false.
Proof. by destruct x. Qed.

End Binary64.

(** ** The workers on the machine *)

Section Machine.
Import Struct Net Client64.

(** *** The arithmetic of the reports *)

Lemma speed_bps_value (total : Z) (duration : Float.float) :
  Z.abs (total * 8) < 2 ^ 1023 →
  speed_bps total duration
  = inr (if Float.positive duration
         then PyFloat (Float.div (Float.nearest (total * 8)) duration)
         else PyInt 0).
Proof.
  intros Hfit. unfold speed_bps.
  destruct (Float.positive duration) eqn:Hpos; [|done].
  rewrite of_int_fits by done. unfold Float.truediv.
  by rewrite positive_nonzero.
Qed.

Lemma speed_bps_no_zero_division (total : Z) (duration : Float.float) :
  speed_bps total duration ≠ inl ZeroDivisionError.
Proof.
  unfold speed_bps. destruct (Float.positive duration) eqn:Hpos; [|done].
  destruct (Float.of_int _); [|done]. unfold Float.truediv.
  by rewrite positive_nonzero.
Qed.

Lemma success_percentage_value (count total : Z) :
  Z.abs count < 2 ^ 1023 → total < 2 ^ 1023 →
  success_percentage count total
  = inr (PyFloat (if 0 <? total
                  then Float.div (Float.mul Float.hundred (Float.nearest count))
                         (Float.nearest total)
                  else Float.zero)).
Proof.
  intros Hc Ht. unfold success_percentage.
  destruct (0 <? total) eqn:E; [|done]. apply Z.ltb_lt in E.
  rewrite !of_int_fits by lia. unfold Float.truediv.
  by rewrite nearest_nonzero by lia.
Qed.

Lemma success_percentage_no_zero_division (count total : Z) :
  success_percentage count total ≠ inl ZeroDivisionError.
Proof.
  unfold success_percentage.
  destruct (0 <? total) eqn:E; [|done]. apply Z.ltb_lt in E.
  destruct (Float.of_int count); [|done]. unfold Float.of_int.
  destruct (Z.abs total <? _); [|done]. unfold Float.truediv.
  by rewrite nearest_nonzero by lia.
Qed.

(** *** What the UDP worker's loop can have counted *)

Lemma client_segment_fields data t c p :
  Client.on_datagram data = Client.Segment t c p →
  0 ≤ t < 2 ^ 64 ∧ Py.len p ≤ Py.len data.
Proof.
  unfold Client.on_datagram.
  destruct (Py.len data <? 21) eqn:Hl; [done|].
  apply Z.ltb_ge in Hl. unfold Py.len in Hl.
  rewrite header_fields by lia.
  destruct (_ || _); [done|].
  unfold unpack_from. rewrite decide_True by sizes.
  cbn [unpack_fields].
  change (Py.slice_from data (5 + 16)) with (drop 21 data).
  remember (drop 21 data) as payload eqn:Hpay. intros Heq.
  injection Heq as <- _ <-. split.
  - pose proof (be_value_range (take (field_size cQ) (drop 5 data))) as Hr.
    rewrite length_take in Hr.
    assert (Hpow : 256 ^ Z.of_nat (field_size cQ `min` length (drop 5 data))
                   ≤ 2 ^ 64).
    { change (2 ^ 64) with (256 ^ 8). apply Z.pow_le_mono_r; [lia|].
      change (field_size cQ) with 8%nat. lia. }
    change (field_size cQ) with 8%nat in *. lia.
  - unfold Py.len. rewrite Hpay, length_drop. lia.
Qed.

Lemma segments_seen_bounds script :
  (length (segments_seen script) ≤ length script)%nat
  ∧ Forall (λ s, 0 ≤ fst (fst s) < 2 ^ 64 ∧ Py.len (snd s) ≤ 65535)
      (segments_seen script).
Proof.
  induction script as [|[d addr| |] later [IH1 IH2]];
    cbn [segments_seen length]; [by split|..|split; [lia|done]|split; [lia|done]].
  destruct (Client.on_datagram (recvfrom_data 65535 d)) as [|t c p|] eqn:E.
  - split; [lia|done].
  - split; [simpl; lia|]. constructor; [|done].
    destruct (client_segment_fields _ _ _ _ E) as [Ht Hp].
    split; [done|]. cbn [snd]. unfold recvfrom_data, Py.len in *.
    rewrite length_take in Hp. lia.
  - split; [simpl; lia|done].
Qed.

Lemma payload_bytes_bound segs :
  Forall (λ s, 0 ≤ fst (fst s) < 2 ^ 64 ∧ Py.len (snd s) ≤ 65535) segs →
  0 ≤ payload_bytes segs ≤ 65535 * Z.of_nat (length segs).
Proof.
  induction 1 as [|s segs [_ Hs] _ IH]; unfold payload_bytes in *; simpl.
  - lia.
  - unfold Py.len in *. lia.
Qed.

Lemma size_list_to_set_le (l : list Z) :
  (size (list_to_set l : gset Z) ≤ length l)%nat.
Proof.
  induction l as [|x l IH].
  - by rewrite list_to_set_nil, size_empty.
  - rewrite list_to_set_cons, size_union_alt, size_singleton.
    assert (Hle : (size ((list_to_set l : gset Z) ∖ {[x]})
                   ≤ size (list_to_set l : gset Z))%nat).
    { apply subseteq_size, subseteq_difference_l. done. }
    simpl. lia.
Qed.

Lemma distinct_indices_size segs :
  (size (distinct_indices segs) ≤ length segs)%nat.
Proof.
  unfold distinct_indices.
  rewrite <- (length_fmap (λ s : Z * Z * Py.bytes, snd (fst s)) segs).
  apply size_list_to_set_le.
Qed.

Lemma first_total_bound segs total :
  Forall (λ s, 0 ≤ fst (fst s) < 2 ^ 64 ∧ Py.len (snd s) ≤ 65535) segs →
  first_total segs = Some total → 0 ≤ total < 2 ^ 64.
Proof.
  intros Hall. unfold first_total. destruct Hall as [|s segs [Hs _] _]; [done|].
  simpl. by intros [= <-].
Qed.

(** *** What each worker writes *)

(** The bytes the TCP worker counts: those of its receive loop when the
    connection is made and the request accepted, none otherwise. *)
Lemma tcp_transfer_total (env : tcp_env) (file_size : Z) :
  snd (tcp_transfer env file_size)
  = if connect_ok env
       && negb (send_raises (conn env) (send_calls (conn env)))
    then Client.recv_loop file_size (incoming (conn env)) 0
    else 0.
Proof.
  unfold tcp_transfer. destruct (connect_ok env); [|done].
  rewrite encode_request. unfold sendall.
  by destruct (send_raises (conn env) (send_calls (conn env))).
Qed.

Lemma tcp_worker_report (env : tcp_env) (file_size : Z) (idx : nat) :
  file_size < 2 ^ 1000 →
  reads_within 4096 (incoming (conn env)) →
  let duration := Float.sub (tcp_end env) (tcp_start env) in
  let total := snd (tcp_transfer env file_size) in
  0 ≤ total < 4097 * 2 ^ 1000
  ∧ tcp_download_worker env file_size idx
    = ([(idx, TcpResult duration
                (if Float.positive duration
                 then PyFloat (Float.div (Float.nearest (total * 8)) duration)
                 else PyInt 0)
                total)], Client.Returned).
Proof.
  intros Hfs Hreads duration total. destruct pow_1023 as [Hpow Hpos].
  assert (Htotal : 0 ≤ total < 4097 * 2 ^ 1000).
  { subst total. rewrite tcp_transfer_total.
    destruct (_ && _); [|lia].
    destruct (recv_loop_bound file_size (incoming (conn env)) 0 Hreads)
      as [H0 Hb]; [lia|by left|]. lia. }
  split; [done|].
  unfold tcp_download_worker. fold total duration.
  by rewrite speed_bps_value by (by apply stream_bits_fit).
Qed.

Lemma udp_worker_report64 (env : udp_env) (file_size : Z) (idx : nat) :
  0 ≤ file_size < 2 ^ 64 →
  socket_ok env = true →
  request_ok env = true →
  Z.of_nat (length (arrivals env)) < 2 ^ 1000 →
  let segs := segments_seen (arrivals env) in
  let duration := Float.sub (udp_end env) (udp_start env) in
  let count := Z.of_nat (size (distinct_indices segs)) in
  udp_download_worker env file_size idx
  = ([(idx, UdpResult (PyFloat duration)
              (if Float.positive duration
               then PyFloat (Float.div
                               (Float.nearest (payload_bytes segs * 8))
                               duration)
               else PyInt 0)
              (payload_bytes segs)
              (PyFloat
                 match first_total segs with
                 | Some total =>
                     if 0 <? total
                     then Float.div
                            (Float.mul Float.hundred (Float.nearest count))
                            (Float.nearest total)
                     else Float.zero
                 | None => Float.zero
                 end))], Client.Returned).
Proof.
  intros Hfs Hsock Hreq Hlen segs duration count.
  destruct (segments_seen_bounds (arrivals env)) as [Hsegs Hall].
  fold segs in Hsegs, Hall.
  pose proof (payload_bytes_bound segs Hall) as Hbytes.
  pose proof (distinct_indices_size segs) as Hcount. fold count in Hcount.
  assert (Hst : Client.receive_loop (arrivals env) Client.udp_init
                = Client.UdpState (payload_bytes segs) (first_total segs)
                    (distinct_indices segs)).
  { rewrite receive_loop_state. fold segs. simpl. f_equal.
    apply (right_id_L ∅ (∪)). }
  unfold udp_download_worker. rewrite Hsock.
  destruct (pack [cI; cB; cQ] [MAGIC_COOKIE; MSG_TYPE_REQUEST; file_size])
    as [request_packet|] eqn:Hp.
  2: { exfalso. eapply is_Some_None. rewrite <- Hp. apply pack_is_Some.
       repeat constructor; apply in_range_spec; simpl; lia. }
  rewrite Hreq, Hst. cbn [Client.total_bytes_received Client.total_segments
                          Client.received_segments].
  fold duration count. destruct pow_1023 as [Hpow Hpos].
  rewrite speed_bps_value
    by (apply (bits_fit _ (Z.of_nat (length segs))); [done|lia]).
  rewrite success_percentage_value.
  - by destruct (first_total segs) as [total|].
  - apply (count_fits _ (Z.of_nat (length segs))); lia.
  - destruct (first_total segs) as [total|] eqn:Ht; simpl; [|lia].
    pose proof (first_total_bound segs total Hall Ht) as Htot.
    change (2 ^ 64) with 18446744073709551616 in Htot. lia.
Qed.

(** C6.  The throughput a worker reports is the binary64 quotient of
    [bytes * 8] by the duration when the duration is positive, and 0
    otherwise, so when the duration is 0; no division by zero is ever
    raised.  It holds of the computation itself, of the one result the
    TCP worker writes, whose duration is the difference of the two clock
    readings and whose bytes are those its receive loop counted (none
    without a connection), and of the one result the UDP worker writes:
    with the request sent, its duration is that difference and its bytes
    are the payload bytes received; with the request refused, all four
    fields are 0. *)
Theorem throughput_reported (file_size : Z) (idx : nat) :
  (∀ total duration,
     speed_bps total duration ≠ inl ZeroDivisionError
     ∧ (Float.positive duration = false →
        speed_bps total duration = inr (PyInt 0))
     ∧ (∀ s, speed_bps total (S754_zero s) = inr (PyInt 0))
     ∧ (Z.abs (total * 8) < 2 ^ 1023 → Float.positive duration = true →
        speed_bps total duration
        = inr (PyFloat (Float.div (Float.nearest (total * 8)) duration))))
  ∧ (∀ env : tcp_env,
       file_size < 2 ^ 1000 →
       reads_within 4096 (incoming (conn env)) →
       let duration := Float.sub (tcp_end env) (tcp_start env) in
       let total :=
         if connect_ok env
            && negb (send_raises (conn env) (send_calls (conn env)))
         then Client.recv_loop file_size (incoming (conn env)) 0
         else 0 in
       tcp_download_worker env file_size idx
       = ([(idx, TcpResult duration
                   (if Float.positive duration
                    then PyFloat (Float.div (Float.nearest (total * 8))
                                    duration)
                    else PyInt 0)
                   total)], Client.Returned))
  ∧ (∀ env : udp_env,
       0 ≤ file_size < 2 ^ 64 →
       socket_ok env = true →
       Z.of_nat (length (arrivals env)) < 2 ^ 1000 →
       let duration := Float.sub (udp_end env) (udp_start env) in
       let total := payload_bytes (segments_seen (arrivals env)) in
       ∃ r, udp_download_worker env file_size idx = ([(idx, r)], Client.Returned)
         ∧ if request_ok env
           then udp_duration r = PyFloat duration
                ∧ udp_received r = total
                ∧ udp_speed r
                  = (if Float.positive duration
                     then PyFloat (Float.div (Float.nearest (total * 8))
                                     duration)
                     else PyInt 0)
           else r = UdpResult (PyInt 0) (PyInt 0) 0 (PyInt 0)).
Proof.
  split; [|split].
  - intros total duration. split; [apply speed_bps_no_zero_division|].
    split; [|split].
    + intros Hneg. unfold speed_bps. by rewrite Hneg.
    + done.
    + intros Hfit Hpos. by rewrite speed_bps_value, Hpos.
  - intros env Hfs Hreads duration total.
    destruct (tcp_worker_report env file_size idx Hfs Hreads) as [_ Hrun].
    rewrite Hrun. subst total. by rewrite tcp_transfer_total.
  - intros env Hfs Hsock Hlen duration total.
    destruct (request_ok env) eqn:Hreq.
    + rewrite (udp_worker_report64 env file_size idx Hfs Hsock Hreq Hlen).
      by eexists.
    + unfold udp_download_worker. rewrite Hsock.
      destruct (pack [cI; cB; cQ] [MAGIC_COOKIE; MSG_TYPE_REQUEST; file_size])
        as [request_packet|] eqn:Hp.
      2: { exfalso. eapply is_Some_None. rewrite <- Hp. apply pack_is_Some.
           repeat constructor; apply in_range_spec; simpl; lia. }
      rewrite Hreq. by eexists.
Qed.

(** 1024 bytes received over TCP between the clock readings 0.0 and 3.0:
    8192 / 3.0 is the float 2730.6666666666665. *)
Lemma throughput_reported_witness :
  let env := TcpEnv Float.zero (Float.nearest 3) true
               (TcpConn [RecvBytes (Py.repeat_byte "A" 1000);
                         RecvBytes (Py.repeat_byte "A" 24)]
                  (λ _, false) 0 [] false) in
  tcp_download_worker env 1024 0
  = ([(0%nat, TcpResult (Float.nearest 3)
                (PyFloat (S754_finite false 6004799503160661 (-41))) 1024)],
     Client.Returned).
Proof.
  intros env.
  assert (Hreads : reads_within 4096 (incoming (conn env))).
  { repeat constructor; by vm_compute. }
  pose proof (proj1 (proj2 (throughput_reported 1024 0)) env
                ltac:(lia) Hreads) as Hrun.
  cbv zeta in Hrun. rewrite Hrun. by vm_compute.
Defined.

(** C5 (as amended).  A UDP worker whose request was sent keeps the total
    announced by the first valid payload segment it receives and the set
    of the distinct segment indices received; it writes one result, whose
    last field is the binary64 value of [100.0 * |received_indices| /
    total_segments] when that total is positive, and the float 0.0
    otherwise, in particular when no segment was seen. *)
Theorem delivery_percentage (env : udp_env) (file_size : Z) (idx : nat) :
  0 ≤ file_size < 2 ^ 64 →
  socket_ok env = true →
  request_ok env = true →
  Z.of_nat (length (arrivals env)) < 2 ^ 1000 →
  let segs := segments_seen (arrivals env) in
  let st := Client.receive_loop (arrivals env) Client.udp_init in
  let count := Z.of_nat (size (distinct_indices segs)) in
  Client.total_segments st = first_total segs
  ∧ Client.received_segments st = distinct_indices segs
  ∧ ∃ r, udp_download_worker env file_size idx = ([(idx, r)], Client.Returned)
      ∧ udp_received r = payload_bytes segs
      ∧ udp_success r
        = PyFloat
            match first_total segs with
            | Some total =>
                if 0 <? total
                then Float.div (Float.mul Float.hundred (Float.nearest count))
                       (Float.nearest total)
                else Float.zero
            | None => Float.zero
            end.
Proof.
  intros Hfs Hsock Hreq Hlen segs st count.
  assert (Hst : st = Client.UdpState (payload_bytes segs) (first_total segs)
                       (distinct_indices segs)).
  { subst st. rewrite receive_loop_state. fold segs. simpl. f_equal.
    apply (right_id_L ∅ (∪)). }
  split; [by rewrite Hst|]. split; [by rewrite Hst|].
  rewrite (udp_worker_report64 env file_size idx Hfs Hsock Hreq Hlen).
  by eexists.
Qed.

(** The first of the three segments sent for 3072 bytes arrives twice,
    the others are lost: the worker counts 2048 bytes and one segment,
    and reports 100.0 * 1 / 3, the float 33.333333333333336. *)
Lemma delivery_percentage_witness :
  let first :=
    default [] (head (fst <$> packets_for ("10.0.0.9"%string, 40000) 3072)) in
  let env := UdpEnv Float.zero (Float.nearest 1) true true
               [Datagram first ("10.0.0.1"%string, 2025);
                Datagram first ("10.0.0.1"%string, 2025)] in
  ∃ r, udp_download_worker env 3072 0 = ([(0%nat, r)], Client.Returned)
    ∧ udp_received r = 2048
    ∧ udp_success r = PyFloat (S754_finite false 4691249611844267 (-47)).
Proof.
  intros first env.
  destruct (delivery_percentage env 3072 0)
    as (_ & _ & r & Hrun & Hrec & Hpct).
  - lia.
  - reflexivity.
  - reflexivity.
  - simpl. lia.
  - exists r. split; [exact Hrun|]. rewrite Hrec, Hpct.
    split; by vm_compute.
Defined.

(** C5 (as stated) fails: when the first of two segments arrives and the
    second is lost, the worker reports the float 50.0, not the ratio
    1 / 2. *)
Lemma delivery_ratio_counterexample :
  let env := UdpEnv Float.zero (Float.nearest 1) true true
               [Datagram (default [] (head two_segments))
                  ("10.0.0.1"%string, 2025)] in
  first_total (segments_seen (arrivals env)) = Some 2
  ∧ size (distinct_indices (segments_seen (arrivals env))) = 1%nat
  ∧ ∃ r, udp_download_worker env 2048 0 = ([(0%nat, r)], Client.Returned)
      ∧ udp_success r = PyFloat (Float.nearest 50)
      ∧ udp_success r
        ≠ PyFloat (Float.div (Float.nearest 1) (Float.nearest 2)).
Proof.
  intros env.
  assert (Hrun := udp_worker_report64 env 2048 0 ltac:(lia) eq_refl eq_refl
                    ltac:(simpl; lia)).
  cbv zeta in Hrun.
  split; [by vm_compute|]. split; [by vm_compute|].
  eexists. split; [exact Hrun|]. cbn [udp_success].
  split; [by vm_compute|]. intros H. vm_compute in H. discriminate.
Qed.

End Machine.

(** ** A test round on the machine *)

Section Round64.
Import Struct Net Text Client64.

Variable db : unicode_db.

Lemma tcp_worker_own_slot64 (file_size : Z) (env : tcp_env) (i : nat) :
  fst (tcp_download_worker env file_size i) = []
  ∨ ∃ r, fst (tcp_download_worker env file_size i) = [(i, r)].
Proof.
  unfold tcp_download_worker.
  destruct (speed_bps _ _); [by left|right; by eexists].
Qed.

Lemma udp_worker_own_slot64 (file_size : Z) (env : udp_env) (i : nat) :
  fst (udp_download_worker env file_size i) = []
  ∨ ∃ r, fst (udp_download_worker env file_size i) = [(i, r)].
Proof.
  unfold udp_download_worker.
  destruct (socket_ok env); [|by left].
  destruct (pack _ _); [|by left].
  destruct (request_ok env); [|right; by eexists].
  destruct (speed_bps _ _); [by left|].
  destruct (success_percentage _ _); [by left|right; by eexists].
Qed.

(** With its socket made, a size that fits the request's field and a
    moderate number of datagrams, the UDP worker writes its slot once on
    each of its paths. *)
Lemma udp_worker_writes64 (env : udp_env) (file_size : Z) (idx : nat) :
  0 ≤ file_size < 2 ^ 64 →
  socket_ok env = true →
  Z.of_nat (length (arrivals env)) < 2 ^ 1000 →
  ∃ r, udp_download_worker env file_size idx = ([(idx, r)], Client.Returned).
Proof.
  intros Hfs Hsock Hlen. destruct (request_ok env) eqn:Hreq.
  - rewrite (udp_worker_report64 env file_size idx Hfs Hsock Hreq Hlen).
    by eexists.
  - unfold udp_download_worker. rewrite Hsock.
    destruct (pack [cI; cB; cQ] [MAGIC_COOKIE; MSG_TYPE_REQUEST; file_size])
      as [request_packet|] eqn:Hp.
    2: { exfalso. eapply is_Some_None. rewrite <- Hp. apply pack_is_Some.
         repeat constructor; apply in_range_spec; simpl; lia. }
    rewrite Hreq. by eexists.
Qed.

Lemma none_list_fits {R} (h : host) (n : Z) :
  n < 2 ^ 63 → (0 < n → list_fits h n = true) →
  none_list (R := R) h n = Some (replicate (Z.to_nat n) None).
Proof.
  intros Hn Hfits. unfold none_list. destruct (n <=? 0) eqn:E.
  - apply Z.leb_le in E. by replace (Z.to_nat n) with 0%nat by lia.
  - apply Z.leb_gt in E. rewrite Hfits by done.
    by replace (n <? 2 ^ 63) with true by (symmetry; apply Z.ltb_lt; lia).
Qed.

Lemma forallb_seq (f : nat → bool) (a n : nat) :
  (∀ k, (a ≤ k < a + n)%nat → f k = true) → forallb f (seq a n) = true.
Proof. intros Hf. apply forallb_forall. intros k Hk%in_seq. by apply Hf. Qed.

Lemma filled_slots {R} (l : list (option R)) :
  Forall is_Some l → ∃ lines, l = Some <$> lines.
Proof.
  induction 1 as [|x l [r ->] _ [lines ->]]; [by exists []|].
  by exists (r :: lines).
Qed.

(** The workers of one kind, each of which writes its own slot: the
    lines printed are the slots, in order. *)
Lemma round_slots {E R} (worker : E → Z → nat → list (nat * R) * Client.ending)
    (world : nat → E) (file_size : Z) (n : nat) :
  (∀ env i, fst (worker env file_size i) = []
            ∨ ∃ r, fst (worker env file_size i) = [(i, r)]) →
  (∀ i, (i < n)%nat →
     ∃ r, worker (world i) file_size i = ([(i, r)], Client.Returned)) →
  ∃ lines,
    Client.collect
      (foldl Client.store (replicate n None)
         (concat (imap (λ i env, fst (worker env file_size i))
                    (world <$> seq 0 n))))
    = Some lines
    ∧ length lines = n
    ∧ ∀ i, (i < n)%nat → lines !! i = slot_of (worker (world i) file_size i).
Proof.
  intros Hown Hwrites.
  destruct (run_workers_slots worker (world <$> seq 0 n) file_size Hown)
    as [Hrun _].
  unfold Client.run_workers in Hrun.
  rewrite length_fmap, length_seq in Hrun. rewrite Hrun.
  assert (Hlook : ∀ i, (i < n)%nat →
            imap (λ i env, slot_of (worker env file_size i))
              (world <$> seq 0 n) !! i
            = Some (slot_of (worker (world i) file_size i))).
  { intros i Hi. rewrite list_lookup_imap, list_lookup_fmap.
    by rewrite lookup_seq_lt. }
  destruct (filled_slots
              (imap (λ i env, slot_of (worker env file_size i))
                 (world <$> seq 0 n))) as [lines Hlines].
  { apply Forall_lookup. intros i x Hx.
    assert (Hi : (i < n)%nat).
    { apply lookup_lt_Some in Hx.
      by rewrite length_imap, length_fmap, length_seq in Hx. }
    rewrite (Hlook i Hi) in Hx. injection Hx as <-.
    destruct (Hwrites i Hi) as [r ->]. by eexists. }
  exists lines. rewrite Hlines, collect_all. split; [done|].
  assert (Hn : length lines = n).
  { apply (f_equal length) in Hlines.
    by rewrite length_imap, !length_fmap, length_seq in Hlines. }
  split; [done|]. intros i Hi.
  pose proof (Hlook i Hi) as Hi'. rewrite Hlines, list_lookup_fmap in Hi'.
  destruct (lines !! i) as [r|]; simpl in Hi'; congruence.
Qed.

(** X17.  Three numbers typed at the prompts, with any white space around
    them, start a round that prints every result, one line for each of
    [num_tcp] TCP workers and [num_udp] UDP workers (none for a count
    that is zero or negative), line [i] being what worker [i] wrote from
    what it met; this when the size fits the request's 64-bit field, the
    counts are below [2^63] and the two lists can be allocated, every
    thread can be started, every UDP worker gets its socket, and the
    reads and the datagrams are such that the bit counts fit a float. *)
Theorem round_prints_a_line_per_worker (h : host)
    (file_size num_tcp num_udp : Z) (a1 a2 a3 : str)
    (tcp_world : nat → tcp_env) (udp_world : nat → udp_env) :
  typed db file_size a1 → typed db num_tcp a2 → typed db num_udp a3 →
  0 ≤ file_size < 2 ^ 64 →
  - 2 ^ 63 ≤ num_tcp < 2 ^ 63 →
  - 2 ^ 63 ≤ num_udp < 2 ^ 63 →
  (0 < num_tcp → list_fits h num_tcp = true) →
  (0 < num_udp → list_fits h num_udp = true) →
  (∀ k, (k < Z.to_nat num_tcp + Z.to_nat num_udp)%nat →
     thread_starts h k = true) →
  (∀ i, (i < Z.to_nat num_tcp)%nat →
     reads_within 4096 (incoming (conn (tcp_world i)))) →
  (∀ j, (j < Z.to_nat num_udp)%nat →
     socket_ok (udp_world j) = true
     ∧ Z.of_nat (length (arrivals (udp_world j))) < 2 ^ 1000) →
  ∃ tcp_lines udp_lines,
    run_round db h a1 a2 a3 tcp_world udp_world
    = Completed tcp_lines udp_lines
    ∧ length tcp_lines = Z.to_nat num_tcp
    ∧ length udp_lines = Z.to_nat num_udp
    ∧ (∀ i, (i < Z.to_nat num_tcp)%nat →
         tcp_lines !! i
         = slot_of (tcp_download_worker (tcp_world i) file_size i))
    ∧ (∀ j, (j < Z.to_nat num_udp)%nat →
         udp_lines !! j
         = slot_of (udp_download_worker (udp_world j) file_size j)).
Proof.
  intros H1 H2 H3 Hfs Hnt Hnu Hlt Hlu Hstarts Hreads Hudp.
  unfold run_round. rewrite (read_typed db _ _ _ _ _ _ H1 H2 H3).
  rewrite !none_list_fits by (done || lia).
  rewrite !forallb_seq by (intros k Hk; apply Hstarts; lia).
  destruct (round_slots tcp_download_worker tcp_world file_size
              (Z.to_nat num_tcp) (tcp_worker_own_slot64 file_size))
    as (tl & -> & Lt & Lines_t).
  { intros i Hi.
    assert (Hsmall : file_size < 2 ^ 1000).
    { destruct pow_1023 as [_ Hpos].
      assert (2 ^ 64 ≤ 2 ^ 1000) by (apply Z.pow_le_mono_r; lia). lia. }
    destruct (tcp_worker_report (tcp_world i) file_size i Hsmall (Hreads i Hi))
      as [_ ->]. by eexists. }
  destruct (round_slots udp_download_worker udp_world file_size
              (Z.to_nat num_udp) (udp_worker_own_slot64 file_size))
    as (ul & -> & Lu & Lines_u).
  { intros j Hj. destruct (Hudp j Hj) as [Hsock Hlen].
    by apply udp_worker_writes64. }
  by exists tl, ul.
Qed.


(** X20.  The UDP worker makes its socket before any handler is in place:
    when that fails for one of the workers started, the worker ends
    without writing its slot and the loop that prints the UDP results
    meets the empty slot; the round, with its lists allocated and its
    threads started, ends in the printing. *)
Theorem socket_failure_breaks_printing (h : host)
    (file_size num_tcp num_udp : Z) (a1 a2 a3 : str)
    (tcp_world : nat → tcp_env) (udp_world : nat → udp_env) (j : nat) :
  typed db file_size a1 → typed db num_tcp a2 → typed db num_udp a3 →
  0 ≤ file_size < 2 ^ 64 →
  - 2 ^ 63 ≤ num_tcp < 2 ^ 63 →
  - 2 ^ 63 ≤ num_udp < 2 ^ 63 →
  (0 < num_tcp → list_fits h num_tcp = true) →
  (0 < num_udp → list_fits h num_udp = true) →
  (∀ k, (k < Z.to_nat num_tcp + Z.to_nat num_udp)%nat →
     thread_starts h k = true) →
  (j < Z.to_nat num_udp)%nat →
  socket_ok (udp_world j) = false →
  udp_download_worker (udp_world j) file_size j = ([], Client.Raised)
  ∧ run_round db h a1 a2 a3 tcp_world udp_world = PrintFailed.
Proof.
  intros H1 H2 H3 Hfs Hnt Hnu Hlt Hlu Hstarts Hj Hsock.
  assert (Hdies : udp_download_worker (udp_world j) file_size j
                  = ([], Client.Raised)).
  { unfold udp_download_worker. by rewrite Hsock. }
  split; [done|].
  unfold run_round. rewrite (read_typed db _ _ _ _ _ _ H1 H2 H3).
  rewrite !none_list_fits by (done || lia).
  rewrite !forallb_seq by (intros k Hk; apply Hstarts; lia).
  destruct (run_workers_slots udp_download_worker
              (udp_world <$> seq 0 (Z.to_nat num_udp)) file_size
              (udp_worker_own_slot64 file_size)) as [Hrun _].
  unfold Client.run_workers in Hrun.
  rewrite length_fmap, length_seq in Hrun. rewrite Hrun.
  assert (Hnone : Client.collect
                    (imap (λ i env,
                       slot_of (udp_download_worker env file_size i))
                       (udp_world <$> seq 0 (Z.to_nat num_udp))) = None).
  { apply mapM_None_2, Exists_exists. exists None. split; [|done].
    apply (list_elem_of_lookup_2 _ j).
    rewrite list_lookup_imap, list_lookup_fmap, lookup_seq_lt by done.
    simpl. by rewrite Hdies. }
  rewrite Hnone. by destruct (Client.collect (foldl _ _ _)).
Qed.

End Round64.

(** Two TCP workers that cannot connect and one UDP worker whose request
    is refused: three lines. *)
Lemma round_prints_a_line_per_worker_witness :
  let h := Client64.Host (λ _, true) (λ _, true) in
  let world_t := λ _ : nat,
    Client64.TcpEnv Float.zero (Float.nearest 1) false
      (Net.TcpConn [] (λ _, false) 0 [] false) in
  let world_u := λ _ : nat,
    Client64.UdpEnv Float.zero (Float.nearest 1) true false [] in
  ∃ tcp_lines udp_lines,
    Client64.run_round Text.ascii_db h
      ([32] ++ Text.str_of_int 100 ++ []) ([] ++ Text.str_of_int 2 ++ [9; 32])
      ([] ++ Text.str_of_int 1 ++ []) world_t world_u
    = Client64.Completed tcp_lines udp_lines
    ∧ length tcp_lines = Z.to_nat 2
    ∧ length udp_lines = Z.to_nat 1
    ∧ (∀ i, (i < Z.to_nat 2)%nat →
         tcp_lines !! i
         = slot_of (Client64.tcp_download_worker (world_t i) 100 i))
    ∧ (∀ j, (j < Z.to_nat 1)%nat →
         udp_lines !! j
         = slot_of (Client64.udp_download_worker (world_u j) 100 j)).
Proof.
  intros h world_t world_u.
  apply (round_prints_a_line_per_worker Text.ascii_db h 100 2 1).
  - exists [32], []. by repeat constructor.
  - exists [], [9; 32]. by repeat constructor.
  - exists [], []. by repeat constructor.
  - lia.
  - lia.
  - lia.
  - reflexivity.
  - reflexivity.
  - reflexivity.
  - intros i Hi. constructor.
  - intros j Hj. split; [reflexivity|]. simpl. lia.
Defined.


(** One UDP worker, whose socket cannot be made. *)
Lemma socket_failure_breaks_printing_witness :
  let h := Client64.Host (λ _, true) (λ _, true) in
  let world_t := λ _ : nat,
    Client64.TcpEnv Float.zero (Float.nearest 1) false
      (Net.TcpConn [] (λ _, false) 0 [] false) in
  let world_u := λ _ : nat,
    Client64.UdpEnv Float.zero (Float.nearest 1) false true [] in
  Client64.udp_download_worker (world_u 0%nat) 100 0 = ([], Client.Raised)
  ∧ Client64.run_round Text.ascii_db h
      ([] ++ Text.str_of_int 100 ++ []) ([] ++ Text.str_of_int 1 ++ [])
      ([] ++ Text.str_of_int 1 ++ []) world_t world_u
    = Client64.PrintFailed.
Proof.
  intros h world_t world_u.
  apply (socket_failure_breaks_printing Text.ascii_db h 100 1 1).
  - exists [], []. by repeat constructor.
  - exists [], []. by repeat constructor.
  - exists [], []. by repeat constructor.
  - lia.
  - lia.
  - lia.
  - reflexivity.
  - reflexivity.
  - reflexivity.
  - simpl. lia.
  - reflexivity.
Defined.
